(** * PayEase payroll engine: [calculate_salary] of execution/validate_calcs.py

    The Python function works on a mix of unbounded integers and IEEE 754
    binary64 floats.  Both are modelled as the interpreter has them: an [int]
    is a [Z], a [float] is a [spec_float] of the Standard Library's
    specification of binary64 arithmetic (precision 53, maximal exponent
    1024, rounding to nearest, ties to even).  Python exceptions are the
    error side of a small result monad. *)

From Stdlib Require Import ZArith Bool List String Lia.
From Stdlib Require Import Floats.SpecFloat.
Import ListNotations.
Local Open Scope Z_scope.

(** ** Results and exceptions *)

Inductive pyerr : Type :=
| OverflowError
| ValueError
| ZeroDivisionError
| KeyError.

Inductive result (A : Type) : Type :=
| Ok (a : A)
| Raise (e : pyerr).

Arguments Ok {A} a.
Arguments Raise {A} e.

Definition bind {A B : Type} (r : result A) (k : A -> result B) : result B :=
  match r with
  | Ok a => k a
  | Raise e => Raise e
  end.

Notation "x <- r ;; k" := (bind r (fun x => k))
  (at level 61, r at next level, right associativity).

(** ** binary64 *)

Module B64.

Definition prec : Z := 53.
Definition emax : Z := 1024.

Definition add : spec_float -> spec_float -> spec_float := SFadd prec emax.
Definition sub : spec_float -> spec_float -> spec_float := SFsub prec emax.
Definition mul : spec_float -> spec_float -> spec_float := SFmul prec emax.
Definition div : spec_float -> spec_float -> spec_float := SFdiv prec emax.

(** The float nearest to the integer [n] (ties to even); an infinity when
    [n] is out of range. *)
Definition of_Z (n : Z) : spec_float := binary_normalize prec emax n 0 false.

(** The float nearest to the quotient [a / b] of two integers, [b <> 0]. *)
Definition of_quotient (a b : Z) : spec_float :=
  match a with
  | Z0 => S754_zero (b <? 0)
  | _ =>
    let '(q, e, l) := SFdiv_core_binary prec emax (Z.abs a) 0 (Z.abs b) 0 in
    binary_round_aux prec emax (xorb (a <? 0) (b <? 0)) q e l
  end.

Definition is_nan (x : spec_float) : bool :=
  match x with S754_nan => true | _ => false end.

Definition is_zero (x : spec_float) : bool :=
  match x with S754_zero _ => true | _ => false end.

(** Exact comparison of an integer with a float. *)
Definition compare_Z (n : Z) (x : spec_float) : option comparison :=
  match x with
  | S754_nan => None
  | S754_infinity s => Some (if s then Gt else Lt)
  | S754_zero _ => Some (n ?= 0)
  | S754_finite s m e =>
    let v := cond_Zopp s (Zpos m) in
    Some (if 0 <=? e then n ?= v * 2 ^ e else n * 2 ^ (- e) ?= v)
  end.

(** Nearest integer, ties to even, of a positive mantissa [m] scaled by
    [2 ^ e]. *)
Definition round_half_even (m : positive) (e : Z) : Z :=
  if 0 <=? e then Zpos m * 2 ^ e
  else
    let d := 2 ^ (- e) in
    let q := Zpos m / d in
    let r := Zpos m mod d in
    match 2 * r ?= d with
    | Lt => q
    | Gt => q + 1
    | Eq => if Z.even q then q else q + 1
    end.

End B64.

(** ** Python values *)

Inductive pyval : Type :=
| PInt (n : Z)
| PFloat (x : spec_float).

(** [PyLong_AsDouble]: conversion of an int fails when it is out of the
    range of a float. *)
Definition int_to_float (n : Z) : result spec_float :=
  match B64.of_Z n with
  | S754_infinity _ => Raise OverflowError
  | x => Ok x
  end.

Definition as_float (v : pyval) : result spec_float :=
  match v with
  | PInt n => int_to_float n
  | PFloat x => Ok x
  end.

Definition py_add (a b : pyval) : result pyval :=
  match a, b with
  | PInt x, PInt y => Ok (PInt (x + y))
  | _, _ => x <- as_float a ;; y <- as_float b ;; Ok (PFloat (B64.add x y))
  end.

Definition py_sub (a b : pyval) : result pyval :=
  match a, b with
  | PInt x, PInt y => Ok (PInt (x - y))
  | _, _ => x <- as_float a ;; y <- as_float b ;; Ok (PFloat (B64.sub x y))
  end.

Definition py_mul (a b : pyval) : result pyval :=
  match a, b with
  | PInt x, PInt y => Ok (PInt (x * y))
  | _, _ => x <- as_float a ;; y <- as_float b ;; Ok (PFloat (B64.mul x y))
  end.

(** True division [a / b]: always a float; int by int is the correctly
    rounded quotient. *)
Definition py_truediv (a b : pyval) : result pyval :=
  match a, b with
  | PInt x, PInt y =>
    if y =? 0 then Raise ZeroDivisionError
    else match B64.of_quotient x y with
         | S754_infinity _ => Raise OverflowError
         | q => Ok (PFloat q)
         end
  | _, _ =>
    x <- as_float a ;; y <- as_float b ;;
    if B64.is_zero y then Raise ZeroDivisionError
    else Ok (PFloat (B64.div x y))
  end.

(** [round(v)] with one argument: an int, ties to even. *)
Definition py_round (v : pyval) : result pyval :=
  match v with
  | PInt n => Ok (PInt n)
  | PFloat S754_nan => Raise ValueError
  | PFloat (S754_infinity _) => Raise OverflowError
  | PFloat (S754_zero _) => Ok (PInt 0)
  | PFloat (S754_finite s m e) => Ok (PInt (cond_Zopp s (B64.round_half_even m e)))
  end.

(** Three-way comparison; [None] when a NaN is involved. *)
Definition py_compare (a b : pyval) : option comparison :=
  match a, b with
  | PInt x, PInt y => Some (x ?= y)
  | PInt x, PFloat y => B64.compare_Z x y
  | PFloat x, PInt y => option_map CompOpp (B64.compare_Z y x)
  | PFloat x, PFloat y => SFcompare x y
  end.

Definition py_lt (a b : pyval) : bool :=
  match py_compare a b with Some Lt => true | _ => false end.

Definition py_le (a b : pyval) : bool :=
  match py_compare a b with Some Lt | Some Eq => true | _ => false end.

Definition py_gt (a b : pyval) : bool := py_lt b a.

Definition py_ge (a b : pyval) : bool := py_le b a.

Definition py_eq (a b : pyval) : bool :=
  match py_compare a b with Some Eq => true | _ => false end.

(** [min(a, b)]: the first argument unless the second is smaller. *)
Definition py_min (a b : pyval) : pyval := if py_lt b a then b else a.

(** ** Statutory constants *)

Definition PF_BASIC_CAP : pyval := PInt 15000.
Definition PF_EMPLOYEE_RATE : pyval := PFloat (S754_finite false 8646911284551352 (-56)).
Definition PF_EMPLOYER_EPF_RATE : pyval := PFloat (S754_finite false 5289027402383911 (-57)).
Definition PF_EMPLOYER_EPS_RATE : pyval := PFloat (S754_finite false 6002397583359397 (-56)).
Definition PF_MAX_EMPLOYEE : pyval := PInt 1800.

Definition ESI_GROSS_LIMIT : pyval := PInt 21000.
Definition ESI_EMPLOYEE_RATE : pyval := PFloat (S754_finite false 8646911284551352 (-60)).
Definition ESI_EMPLOYER_RATE : pyval := PFloat (S754_finite false 4683743612465316 (-57)).

(** The slab functions of [PT_RATES], each [lambda s: ...]. *)
Definition pt_karnataka (s : pyval) : pyval :=
  if py_gt s (PInt 15000) then PInt 200 else PInt 0.

Definition pt_maharashtra (s : pyval) : pyval :=
  if py_gt s (PInt 10000) then PInt 200
  else if py_gt s (PInt 7500) then PInt 175 else PInt 0.

Definition pt_tamil_nadu (s : pyval) : pyval :=
  if py_gt s (PInt 21000) then PInt 208
  else if py_gt s (PInt 15000) then PInt 180
  else if py_gt s (PInt 12500) then PInt 115 else PInt 0.

Definition pt_none (_ : pyval) : pyval := PInt 0.

Definition PT_RATES : list (string * (pyval -> pyval)) :=
  [ ("Karnataka"%string, pt_karnataka);
    ("Maharashtra"%string, pt_maharashtra);
    ("Tamil Nadu"%string, pt_tamil_nadu);
    ("Gujarat"%string, pt_none);
    ("Delhi"%string, pt_none) ].

(** [d.get(key, default)] *)
Fixpoint dict_get {V : Type} (d : list (string * V)) (key : string) (default : V) : V :=
  match d with
  | [] => default
  | (k, v) :: d' => if String.eqb k key then v else dict_get d' key default
  end.

(** [d[key]] *)
Fixpoint dict_item {V : Type} (d : list (string * V)) (key : string) : result V :=
  match d with
  | [] => Raise KeyError
  | (k, v) :: d' => if String.eqb k key then Ok v else dict_item d' key
  end.

(** ** The calculation *)

(** [round(a * b)] *)
Definition round_mul (a b : pyval) : result pyval :=
  x <- py_mul a b ;; py_round x.

(** [monthly_ctc - basic - hra - employer_pf] *)
Definition residual (monthly_ctc basic hra employer_pf : pyval) : result pyval :=
  s1 <- py_sub monthly_ctc basic ;;
  s2 <- py_sub s1 hra ;;
  py_sub s2 employer_pf.

(** [basic + hra + special_allowance] *)
Definition gross_of (basic hra special_allowance : pyval) : result pyval :=
  g <- py_add basic hra ;; py_add g special_allowance.

(** [employee_pf + employee_esi + professional_tax + tds] *)
Definition deductions_of (employee_pf employee_esi professional_tax tds : pyval)
  : result pyval :=
  d1 <- py_add employee_pf employee_esi ;;
  d2 <- py_add d1 professional_tax ;;
  py_add d2 tds.

(** The local variables of [calculate_salary] when it reaches its [return].
    [special_allowance] and [gross_salary] are assigned twice; the values
    of the first assignment are kept under the names [..._pass1], and
    [special_allowance_raw] is the second assignment before the [if]. *)
Record locals : Type := {
  l_monthly_ctc : pyval;
  l_basic : pyval;
  l_hra : pyval;
  l_pf_basic : pyval;
  l_employer_pf : pyval;
  l_preliminary_gross : pyval;
  l_esi_applicable : bool;
  l_special_allowance_pass1 : pyval;
  l_gross_salary_pass1 : pyval;
  l_employer_esi : pyval;
  l_special_allowance_raw : pyval;
  l_special_allowance : pyval;
  l_gross_salary : pyval;
  l_employee_pf : pyval;
  l_employee_esi : pyval;
  l_professional_tax : pyval;
  l_tds : pyval;
  l_total_deductions : pyval;
  l_net_salary : pyval
}.

(** The returned dict. *)
Record breakdown : Type := {
  basic : pyval;
  hra : pyval;
  special_allowance : pyval;
  gross_salary : pyval;
  employer_pf : pyval;
  employer_esi : pyval;
  employee_pf : pyval;
  employee_esi : pyval;
  professional_tax : pyval;
  tds : pyval;
  total_deductions : pyval;
  net_salary : pyval;
  monthly_ctc : pyval
}.

Definition calculate_locals
    (annual_ctc basic_pct hra_pct : pyval)
    (pf_enabled pt_enabled : bool) (state : string) : result locals :=
  monthly_ctc <- py_truediv annual_ctc (PInt 12) ;;

  basic_frac <- py_truediv basic_pct (PInt 100) ;;
  basic <- round_mul monthly_ctc basic_frac ;;
  hra_frac <- py_truediv hra_pct (PInt 100) ;;
  hra <- round_mul basic hra_frac ;;

  let pf_basic := py_min basic PF_BASIC_CAP in
  employer_pf <-
    (if pf_enabled then
       rate <- py_add PF_EMPLOYER_EPF_RATE PF_EMPLOYER_EPS_RATE ;;
       round_mul pf_basic rate
     else Ok (PInt 0)) ;;

  preliminary_gross <- py_add basic hra ;;
  let esi_applicable := py_le preliminary_gross ESI_GROSS_LIMIT in

  special_allowance_pass1 <- residual monthly_ctc basic hra employer_pf ;;
  gross_salary_pass1 <- gross_of basic hra special_allowance_pass1 ;;

  employer_esi <-
    (if esi_applicable then round_mul gross_salary_pass1 ESI_EMPLOYER_RATE
     else Ok (PInt 0)) ;;

  r <- residual monthly_ctc basic hra employer_pf ;;
  special_allowance_raw <- py_sub r employer_esi ;;
  let special_allowance :=
    if py_lt special_allowance_raw (PInt 0) then PInt 0
    else special_allowance_raw in
  gross_salary <- gross_of basic hra special_allowance ;;

  employee_pf <-
    (if pf_enabled then
       x <- round_mul pf_basic PF_EMPLOYEE_RATE ;;
       Ok (py_min x PF_MAX_EMPLOYEE)
     else Ok (PInt 0)) ;;
  employee_esi <-
    (if esi_applicable then round_mul gross_salary ESI_EMPLOYEE_RATE
     else Ok (PInt 0)) ;;

  default_fn <- dict_item PT_RATES "Karnataka" ;;
  let pt_fn := dict_get PT_RATES state default_fn in
  let professional_tax := if pt_enabled then pt_fn gross_salary else PInt 0 in

  let tds := PInt 0 in

  total_deductions <- deductions_of employee_pf employee_esi professional_tax tds ;;
  net_salary <- py_sub gross_salary total_deductions ;;

  Ok {| l_monthly_ctc := monthly_ctc;
        l_basic := basic;
        l_hra := hra;
        l_pf_basic := pf_basic;
        l_employer_pf := employer_pf;
        l_preliminary_gross := preliminary_gross;
        l_esi_applicable := esi_applicable;
        l_special_allowance_pass1 := special_allowance_pass1;
        l_gross_salary_pass1 := gross_salary_pass1;
        l_employer_esi := employer_esi;
        l_special_allowance_raw := special_allowance_raw;
        l_special_allowance := special_allowance;
        l_gross_salary := gross_salary;
        l_employee_pf := employee_pf;
        l_employee_esi := employee_esi;
        l_professional_tax := professional_tax;
        l_tds := tds;
        l_total_deductions := total_deductions;
        l_net_salary := net_salary |}.

Definition return_dict (l : locals) : breakdown :=
  {| basic := l_basic l;
     hra := l_hra l;
     special_allowance := l_special_allowance l;
     gross_salary := l_gross_salary l;
     employer_pf := l_employer_pf l;
     employer_esi := l_employer_esi l;
     employee_pf := l_employee_pf l;
     employee_esi := l_employee_esi l;
     professional_tax := l_professional_tax l;
     tds := l_tds l;
     total_deductions := l_total_deductions l;
     net_salary := l_net_salary l;
     monthly_ctc := l_monthly_ctc l |}.

Definition calculate_salary
    (annual_ctc basic_pct hra_pct : pyval)
    (pf_enabled pt_enabled : bool) (state : string) : result breakdown :=
  l <- calculate_locals annual_ctc basic_pct hra_pct pf_enabled pt_enabled state ;;
  Ok (return_dict l).

(** The call with every optional argument at its default. *)
Definition calculate_salary_default (annual_ctc : pyval) : result breakdown :=
  calculate_salary annual_ctc (PInt 40) (PInt 50) true true "Karnataka".

(** ** The checks of the validation runner

    [main] compares each returned dict against these equations with
    Python's [!=]; the third, on the deductions, is the one the
    specification adds. *)

Definition balance_gross (o : breakdown) : result bool :=
  x <- gross_of (basic o) (hra o) (special_allowance o) ;;
  Ok (py_eq (gross_salary o) x).

Definition balance_net (o : breakdown) : result bool :=
  x <- py_sub (gross_salary o) (total_deductions o) ;;
  Ok (py_eq (net_salary o) x).

Definition balance_deductions (o : breakdown) : result bool :=
  x <- deductions_of (employee_pf o) (employee_esi o) (professional_tax o) (tds o) ;;
  Ok (py_eq (total_deductions o) x).

(** The jurisdictions with an entry in [PT_RATES]. *)
Definition known_states : list string := map fst PT_RATES.

(** A whole number of currency units: an int, or a float without a
    fractional part. *)
Definition is_whole (v : pyval) : bool :=
  match v with
  | PInt _ => true
  | PFloat (S754_zero _) => true
  | PFloat (S754_finite _ m e) => (0 <=? e) || (Zpos m mod 2 ^ (- e) =? 0)
  | PFloat _ => false
  end.

(** ** Reading values

    The definitions from here on serve to state and prove the properties;
    the program does not use them. *)

Definition is_int (v : pyval) : Prop := exists n, v = PInt n.

(** A float that is a number: a zero or a finite value. *)
Definition is_number (x : spec_float) : Prop :=
  match x with
  | S754_zero _ | S754_finite _ _ _ => True
  | _ => False
  end.

(** Any value but the float NaN. *)
Definition not_nan (v : pyval) : Prop :=
  match v with
  | PFloat S754_nan => False
  | _ => True
  end.

(** A negative float, minus infinity included. *)
Definition is_negative (x : spec_float) : Prop :=
  match x with
  | S754_infinity true | S754_finite true _ _ => True
  | _ => False
  end.

(** A well-formed binary64: the mantissa is canonical for the exponent and
    the exponent is in range. *)
Definition valid (x : spec_float) : Prop := valid_binary B64.prec B64.emax x = true.

(** The value of a float counted in quanta of [2 ^ -1074], the smallest
    positive binary64; one unit is [2 ^ 1074] quanta. *)
Definition quanta (x : spec_float) : Z :=
  match x with
  | S754_finite s m e => cond_Zopp s (Zpos m * 2 ^ (e + 1074))
  | _ => 0
  end.

(** [x] is a well-formed number worth [v] quanta. *)
Definition represents (x : spec_float) (v : Z) : Prop :=
  valid x /\ is_number x /\ quanta x = v.

(** The exponent [binary_round_aux] shifts a mantissa [M] at exponent [E]
    to. *)
Definition target (M E : Z) : Z := Z.max E (fexp B64.prec B64.emax (Zdigits2 M + E)).

(** The float of sign [s] worth [m * 2 ^ F], for a rounded mantissa
    [0 <= m <= 2 ^ 53]. *)
Definition pack (s : bool) (m F : Z) : spec_float :=
  match m with
  | Zpos p =>
    if m <? 2 ^ 53 then
      if F <=? 971 then S754_finite s p F else S754_infinity s
    else
      if F + 1 <=? 971 then S754_finite s 4503599627370496 (F + 1)
      else S754_infinity s
  | _ => S754_zero s
  end.

(** A float [vm >= 0] below [2 ^ 53] lies on a grid of step [2 ^ g] quanta
    that also holds every integer, and every grid point from 0 to [vm] is a
    float. *)
Definition in_window (vm g : Z) : Prop :=
  0 <= g <= 1074 /\ (2 ^ g | vm) /\ 0 <= vm < 2 ^ (g + 53).

(** The running value of [monthly_ctc - basic - hra - ...]: either the exact
    difference [v], still between 0 and [vm], or a negative float once the
    exact difference is negative. *)
Definition running (vm g : Z) (x : spec_float) (v : Z) : Prop :=
  (represents x v /\ 0 <= v <= vm /\ (2 ^ g | v)) \/
  (v < 0 /\ valid x /\ is_negative x).

(** [gross_salary + employer_pf + employer_esi == monthly_ctc] *)
Definition conservation_check (o : breakdown) : result bool :=
  x <- py_add (gross_salary o) (employer_pf o) ;;
  y <- py_add x (employer_esi o) ;;
  Ok (py_eq y (monthly_ctc o)).

(** A float that is not below zero: a zero of either sign, a positive
    finite value or plus infinity. *)
Definition is_nonneg (x : spec_float) : Prop :=
  match x with
  | S754_zero _ | S754_finite false _ _ | S754_infinity false => True
  | _ => False
  end.

(** The exponent of a finite float is not below that of the quantum. *)
Definition grounded (x : spec_float) : Prop :=
  match x with
  | S754_finite _ _ e => -1074 <= e
  | _ => True
  end.

(** A well-formed number of magnitude at most [2 ^ K]. *)
Definition small (K : Z) (x : spec_float) : Prop :=
  valid x /\ is_number x /\ Z.abs (quanta x) <= 2 ^ K * 2 ^ 1074.

(** [r] raises nothing but the exceptions in [P]. *)
Definition raises_only {A : Type} (P : pyerr -> Prop) (r : result A) : Prop :=
  forall e, r = Raise e -> P e.

Definition overflow (e : pyerr) : Prop := e = OverflowError.

Definition overflow_or_value (e : pyerr) : Prop := e = OverflowError \/ e = ValueError.

(** An int, or a float that is a well-formed number. *)
Definition regular (v : pyval) : Prop :=
  match v with
  | PInt _ => True
  | PFloat x => valid x /\ is_number x
  end.

(** The value of an int or a float in quanta of [2 ^ -1074]. *)
Definition amount (v : pyval) : Z :=
  match v with
  | PInt n => n * 2 ^ 1074
  | PFloat x => quanta x
  end.

(** A float zero of either sign. *)
Definition is_float_zero (v : pyval) : Prop := exists s, v = PFloat (S754_zero s).

(** ** The validation runner: [TEST_CASES] and [main]

    [main] is modelled by its control flow: the checks of each test case,
    the list of errors they collect, the two counters and the status handed
    to [sys.exit].  What it prints is not part of the model; an appended
    message is a constructor that holds the values its f-string shows. *)

(** [a != b] *)
Definition py_ne (a b : pyval) : bool := negb (py_eq a b).

(** The dict under ["expect"]. *)
Record expectation : Type := {
  x_basic : pyval;
  x_hra : pyval;
  x_employee_pf : pyval;
  x_esi_applies : bool;
  x_professional_tax : pyval
}.

Record test_case : Type := {
  tc_label : string;
  tc_annual_ctc : pyval;
  tc_expect : expectation
}.

Definition TEST_CASES : list test_case :=
  [ {| tc_label := "₹3L CTC (low, ESI applies)";
       tc_annual_ctc := PInt 300000;
       tc_expect := {| x_basic := PInt 10000; x_hra := PInt 5000;
                       x_employee_pf := PInt 1200; x_esi_applies := true;
                       x_professional_tax := PInt 200 |} |};
    {| tc_label := "₹6L CTC (standard, no ESI)";
       tc_annual_ctc := PInt 600000;
       tc_expect := {| x_basic := PInt 20000; x_hra := PInt 10000;
                       x_employee_pf := PInt 1800; x_esi_applies := false;
                       x_professional_tax := PInt 200 |} |};
    {| tc_label := "₹15L CTC (PF capped)";
       tc_annual_ctc := PInt 1500000;
       tc_expect := {| x_basic := PInt 50000; x_hra := PInt 25000;
                       x_employee_pf := PInt 1800; x_esi_applies := false;
                       x_professional_tax := PInt 200 |} |};
    {| tc_label := "₹30L CTC (high)";
       tc_annual_ctc := PInt 3000000;
       tc_expect := {| x_basic := PInt 100000; x_hra := PInt 50000;
                       x_employee_pf := PInt 1800; x_esi_applies := false;
                       x_professional_tax := PInt 200 |} |} ].

(** The messages [main] appends to [errors]. *)
Inductive message : Type :=
| BasicMismatch (got expected : pyval)
| HraMismatch (got expected : pyval)
| EmployeePfMismatch (got expected : pyval)
| PtMismatch (got expected : pyval)
| EsiMismatch (applies expected : bool)
| GrossInvariant
| NetInvariant
| NegativeNetInvariant.

(** [if c: errors.append(msg)] *)
Definition append_if (c : bool) (msg : message) (errors : list message)
  : list message :=
  if c then errors ++ [msg] else errors.

(** The body of the loop of [main] up to the verdict: the errors of one
    test case. *)
Definition check_case (tc : test_case) : result (list message) :=
  r <- calculate_salary_default (tc_annual_ctc tc) ;;
  let exp := tc_expect tc in
  let errors := [] in

  let errors := append_if (py_ne (basic r) (x_basic exp))
                          (BasicMismatch (basic r) (x_basic exp)) errors in
  let errors := append_if (py_ne (hra r) (x_hra exp))
                          (HraMismatch (hra r) (x_hra exp)) errors in
  let errors := append_if (py_ne (employee_pf r) (x_employee_pf exp))
                          (EmployeePfMismatch (employee_pf r) (x_employee_pf exp))
                          errors in
  let errors := append_if (py_ne (professional_tax r) (x_professional_tax exp))
                          (PtMismatch (professional_tax r) (x_professional_tax exp))
                          errors in

  let esi_actually_applies := py_gt (employee_esi r) (PInt 0) in
  let errors := append_if (negb (Bool.eqb esi_actually_applies (x_esi_applies exp)))
                          (EsiMismatch esi_actually_applies (x_esi_applies exp))
                          errors in

  s <- gross_of (basic r) (hra r) (special_allowance r) ;;
  let errors := append_if (py_ne (gross_salary r) s) GrossInvariant errors in
  d <- py_sub (gross_salary r) (total_deductions r) ;;
  let errors := append_if (py_ne (net_salary r) d) NetInvariant errors in
  let errors := append_if (py_lt (net_salary r) (PInt 0)) NegativeNetInvariant
                          errors in
  Ok errors.

(** The loop of [main]: the counters [passed] and [failed]. *)
Fixpoint run_cases (cases : list test_case) (passed failed : Z) : result (Z * Z) :=
  match cases with
  | [] => Ok (passed, failed)
  | tc :: rest =>
    errors <- check_case tc ;;
    match errors with
    | _ :: _ => run_cases rest passed (failed + 1)
    | [] => run_cases rest (passed + 1) failed
    end
  end.

(** [main]: the status it exits with. *)
Definition main : result Z :=
  counts <- run_cases TEST_CASES 0 0 ;;
  Ok (if snd counts =? 0 then 0 else 1).

(** What a test case expects holds of an output. *)
Definition meets (exp : expectation) (r : breakdown) : Prop :=
  py_eq (basic r) (x_basic exp) = true /\
  py_eq (hra r) (x_hra exp) = true /\
  py_eq (employee_pf r) (x_employee_pf exp) = true /\
  py_eq (professional_tax r) (x_professional_tax exp) = true /\
  py_gt (employee_esi r) (PInt 0) = x_esi_applies exp.

(** * Properties *)

(** ** The constants are the floats of their decimal literals *)

Lemma rate_literals :
  PF_EMPLOYEE_RATE = PFloat (B64.of_quotient 12 100) /\
  PF_EMPLOYER_EPF_RATE = PFloat (B64.of_quotient 367 10000) /\
  PF_EMPLOYER_EPS_RATE = PFloat (B64.of_quotient 833 10000) /\
  ESI_EMPLOYEE_RATE = PFloat (B64.of_quotient 75 10000) /\
  ESI_EMPLOYER_RATE = PFloat (B64.of_quotient 325 10000).
Proof. repeat split; vm_compute; reflexivity. Qed.

(** ** Inversion of the monadic code *)

Lemma bind_Ok {A B : Type} (r : result A) (k : A -> result B) (b : B) :
  bind r k = Ok b -> exists a, r = Ok a /\ k a = Ok b.
Proof. destruct r as [a|e]; simpl; [eauto | discriminate]. Qed.

Ltac inv_bind H :=
  let a := fresh "v" in
  let E := fresh "E" in
  apply bind_Ok in H; destruct H as (a & E & H).

Ltac inv_binds H := repeat inv_bind H.

Lemma if_Ok_zero (c : bool) (r : result pyval) (v : pyval) :
  (if c then r else Ok (PInt 0)) = Ok v ->
  (c = true /\ r = Ok v) \/ (c = false /\ v = PInt 0).
Proof. destruct c; intros H; [left | right; injection H as <-]; auto. Qed.

(** Every local variable is the value of its defining expression. *)
Lemma calculate_locals_inv a bp hp pf pt st l :
  calculate_locals a bp hp pf pt st = Ok l ->
  py_truediv a (PInt 12) = Ok (l_monthly_ctc l) /\
  (exists f, py_truediv bp (PInt 100) = Ok f /\
             round_mul (l_monthly_ctc l) f = Ok (l_basic l)) /\
  (exists f, py_truediv hp (PInt 100) = Ok f /\
             round_mul (l_basic l) f = Ok (l_hra l)) /\
  l_pf_basic l = py_min (l_basic l) PF_BASIC_CAP /\
  (if pf
   then exists rate, py_add PF_EMPLOYER_EPF_RATE PF_EMPLOYER_EPS_RATE = Ok rate /\
                     round_mul (l_pf_basic l) rate = Ok (l_employer_pf l)
   else l_employer_pf l = PInt 0) /\
  py_add (l_basic l) (l_hra l) = Ok (l_preliminary_gross l) /\
  l_esi_applicable l = py_le (l_preliminary_gross l) ESI_GROSS_LIMIT /\
  residual (l_monthly_ctc l) (l_basic l) (l_hra l) (l_employer_pf l)
    = Ok (l_special_allowance_pass1 l) /\
  gross_of (l_basic l) (l_hra l) (l_special_allowance_pass1 l)
    = Ok (l_gross_salary_pass1 l) /\
  (if l_esi_applicable l
   then round_mul (l_gross_salary_pass1 l) ESI_EMPLOYER_RATE = Ok (l_employer_esi l)
   else l_employer_esi l = PInt 0) /\
  (exists r, residual (l_monthly_ctc l) (l_basic l) (l_hra l) (l_employer_pf l) = Ok r /\
             py_sub r (l_employer_esi l) = Ok (l_special_allowance_raw l)) /\
  l_special_allowance l =
    (if py_lt (l_special_allowance_raw l) (PInt 0) then PInt 0
     else l_special_allowance_raw l) /\
  gross_of (l_basic l) (l_hra l) (l_special_allowance l) = Ok (l_gross_salary l) /\
  (if pf
   then exists x, round_mul (l_pf_basic l) PF_EMPLOYEE_RATE = Ok x /\
                  l_employee_pf l = py_min x PF_MAX_EMPLOYEE
   else l_employee_pf l = PInt 0) /\
  (if l_esi_applicable l
   then round_mul (l_gross_salary l) ESI_EMPLOYEE_RATE = Ok (l_employee_esi l)
   else l_employee_esi l = PInt 0) /\
  l_professional_tax l =
    (if pt then dict_get PT_RATES st pt_karnataka (l_gross_salary l) else PInt 0) /\
  l_tds l = PInt 0 /\
  deductions_of (l_employee_pf l) (l_employee_esi l) (l_professional_tax l) (l_tds l)
    = Ok (l_total_deductions l) /\
  py_sub (l_gross_salary l) (l_total_deductions l) = Ok (l_net_salary l).
Proof.
  unfold calculate_locals. intros H.
  inv_binds H. injection H as <-. cbn [l_monthly_ctc l_basic l_hra l_pf_basic
    l_employer_pf l_preliminary_gross l_esi_applicable l_special_allowance_pass1
    l_gross_salary_pass1 l_employer_esi l_special_allowance_raw l_special_allowance
    l_gross_salary l_employee_pf l_employee_esi l_professional_tax l_tds
    l_total_deductions l_net_salary].
  match goal with
  | H : dict_item _ _ = Ok _ |- _ => cbn in H; injection H as <-
  end.
  repeat match goal with |- _ /\ _ => split end; eauto;
  match goal with
  | H : (if ?c then _ else _) = Ok ?v |- (if ?c then _ else ?v = _) =>
    destruct c;
    [ first [ exact H | inv_bind H; try (injection H as <-); eauto ]
    | injection H as <-; reflexivity ]
  end.
Qed.

Lemma calculate_salary_inv a bp hp pf pt st o :
  calculate_salary a bp hp pf pt st = Ok o ->
  exists l, calculate_locals a bp hp pf pt st = Ok l /\ o = return_dict l.
Proof.
  unfold calculate_salary. intros H. inv_bind H. injection H as <-. eauto.
Qed.

(** ** Integers and floats among the values *)

Lemma iter_pos_preserves {A : Type} (P : A -> Prop) (f : A -> A) :
  (forall x, P x -> P (f x)) -> forall p x, P x -> P (iter_pos f p x).
Proof.
  intros Hf p. induction p as [p IH|p IH|]; intros x Hx; cbn; auto.
Qed.

Lemma shr_1_nonneg mrs : 0 <= shr_m mrs -> 0 <= shr_m (shr_1 mrs).
Proof.
  destruct mrs as [m r s]. cbn [shr_m].
  destruct m as [|[p|p|]|[p|p|]]; cbn; lia.
Qed.

Lemma shr_nonneg mrs e n : 0 <= shr_m mrs -> 0 <= shr_m (fst (shr mrs e n)).
Proof.
  intros H. destruct n; cbn; auto.
  apply (iter_pos_preserves (fun x => 0 <= shr_m x)); auto using shr_1_nonneg.
Qed.

Lemma shr_fexp_nonneg prec emax m e l :
  0 <= m -> 0 <= shr_m (fst (shr_fexp prec emax m e l)).
Proof.
  intros H. unfold shr_fexp. apply shr_nonneg.
  destruct l as [|[]]; cbn; assumption.
Qed.

Lemma round_nearest_even_nonneg m l : 0 <= m -> 0 <= round_nearest_even m l.
Proof.
  intros H. destruct l as [|[]]; cbn [round_nearest_even]; try lia.
  destruct (Z.even m); lia.
Qed.

Lemma binary_round_aux_not_nan prec emax s m e l :
  0 <= m -> binary_round_aux prec emax s m e l <> S754_nan.
Proof.
  intros H. unfold binary_round_aux.
  pose proof (shr_fexp_nonneg prec emax m e l H) as H1.
  destruct (shr_fexp prec emax m e l) as [mrs' e'].
  cbn [fst] in H1.
  pose proof (shr_fexp_nonneg prec emax _ e' loc_Exact
                (round_nearest_even_nonneg _ (loc_of_shr_record mrs') H1)) as H2.
  destruct (shr_fexp prec emax _ e' loc_Exact) as [mrs'' e''].
  cbn [fst] in H2.
  destruct (shr_m mrs''); try discriminate.
  - destruct (e'' <=? emax - prec); discriminate.
  - lia.
Qed.

Lemma binary_round_not_nan prec emax s m e :
  binary_round prec emax s m e <> S754_nan.
Proof.
  unfold binary_round.
  destruct (shl_align m e _) as [mz ez].
  apply binary_round_aux_not_nan. lia.
Qed.

Lemma binary_normalize_not_nan prec emax m e sz :
  binary_normalize prec emax m e sz <> S754_nan.
Proof.
  destruct m; cbn; [discriminate | apply binary_round_not_nan ..].
Qed.

Lemma int_to_float_number n x : int_to_float n = Ok x -> is_number x.
Proof.
  unfold int_to_float, B64.of_Z.
  pose proof (binary_normalize_not_nan B64.prec B64.emax n 0 false) as H.
  destruct (binary_normalize _ _ n 0 false); intros E;
    try discriminate; try congruence; injection E as <-; exact I.
Qed.

Lemma add_not_nan_l x y : x <> S754_nan -> is_number y -> B64.add x y <> S754_nan.
Proof.
  intros Hx Hy. unfold B64.add.
  destruct x as [sx|sx| |sx mx ex], y as [sy|sy| |sy my ey];
    cbn in *; try contradiction; try congruence.
  - destruct sx, sy; discriminate.
  - apply binary_normalize_not_nan.
Qed.

Lemma add_not_nan_r x y : is_number x -> y <> S754_nan -> B64.add x y <> S754_nan.
Proof.
  intros Hx Hy. unfold B64.add.
  destruct x as [sx|sx| |sx mx ex], y as [sy|sy| |sy my ey];
    cbn in *; try contradiction; try congruence.
  - destruct sx, sy; discriminate.
  - apply binary_normalize_not_nan.
Qed.

Lemma sub_not_nan_l x y : x <> S754_nan -> is_number y -> B64.sub x y <> S754_nan.
Proof.
  intros Hx Hy. unfold B64.sub.
  destruct x as [sx|sx| |sx mx ex], y as [sy|sy| |sy my ey];
    cbn in *; try contradiction; try congruence.
  - destruct sx, sy; discriminate.
  - apply binary_normalize_not_nan.
Qed.

Lemma mul_number_l x y : is_number (B64.mul x y) -> is_number x.
Proof.
  destruct x as [sx|sx| |sx mx ex], y as [sy|sy| |sy my ey]; cbn; auto.
Qed.

Lemma py_round_int v r : py_round v = Ok r -> is_int r.
Proof.
  destruct v as [n|[s|s| |s m e]]; cbn; intros E;
    try discriminate; injection E as <-; eexists; reflexivity.
Qed.

Lemma py_round_number x r : py_round (PFloat x) = Ok r -> is_number x.
Proof. destruct x; cbn; intros E; try discriminate; exact I. Qed.

Lemma round_mul_int a b r : round_mul a b = Ok r -> is_int r.
Proof. unfold round_mul. intros H. inv_bind H. eauto using py_round_int. Qed.

Lemma py_truediv_float a b v : py_truediv a b = Ok v -> exists x, v = PFloat x.
Proof.
  unfold py_truediv. intros H.
  destruct a as [x|x], b as [y|y].
  - destruct (y =? 0); [discriminate|].
    destruct (B64.of_quotient x y); try discriminate; injection H as <-; eauto.
  - inv_binds H. destruct (B64.is_zero _); [discriminate|]. injection H as <-; eauto.
  - inv_binds H. destruct (B64.is_zero _); [discriminate|]. injection H as <-; eauto.
  - inv_binds H. destruct (B64.is_zero _); [discriminate|]. injection H as <-; eauto.
Qed.

Lemma py_min_ints a b : py_min (PInt a) (PInt b) = PInt (Z.min a b).
Proof.
  unfold py_min, py_lt, py_compare.
  destruct (Z.compare_spec b a); f_equal; lia.
Qed.

(** [round(x * f)] only returns when the float [x] is a number. *)
Lemma round_mul_number_l x f r : round_mul (PFloat x) f = Ok r -> is_number x.
Proof.
  unfold round_mul, py_mul. intros H. inv_bind H.
  destruct f as [n|y]; cbn [as_float bind] in E; [inv_bind E|];
    injection E as <-; apply py_round_number in H;
    eapply mul_number_l; eassumption.
Qed.

Lemma is_number_not_nan x : is_number x -> x <> S754_nan.
Proof. destruct x; cbn; congruence. Qed.

(** Subtracting an int from a float that is not NaN gives a float that is
    not NaN. *)
Lemma py_sub_float_int x n v :
  x <> S754_nan -> py_sub (PFloat x) (PInt n) = Ok v ->
  exists y, v = PFloat y /\ y <> S754_nan.
Proof.
  intros Hx. unfold py_sub. cbn [as_float bind]. intros H.
  inv_bind H. injection H as <-.
  eexists; split; [reflexivity|].
  apply sub_not_nan_l; eauto using int_to_float_number.
Qed.

Lemma not_nan_float x : x <> S754_nan <-> not_nan (PFloat x).
Proof. destruct x; cbn; split; intros; try congruence; try exact I; tauto. Qed.

Lemma py_add_int_float n x v :
  x <> S754_nan -> py_add (PInt n) (PFloat x) = Ok v ->
  exists y, v = PFloat y /\ y <> S754_nan.
Proof.
  intros Hx. unfold py_add. cbn [as_float bind]. intros H.
  inv_bind H. injection H as <-.
  eexists; split; [reflexivity|].
  apply add_not_nan_r; eauto using int_to_float_number.
Qed.

Lemma residual_float x b h p v :
  x <> S754_nan -> residual (PFloat x) (PInt b) (PInt h) (PInt p) = Ok v ->
  exists y, v = PFloat y /\ y <> S754_nan.
Proof.
  intros Hx. unfold residual. intros H. inv_binds H.
  destruct (py_sub_float_int _ _ _ Hx E) as (y1 & -> & H1).
  destruct (py_sub_float_int _ _ _ H1 E0) as (y2 & -> & H2).
  eauto using py_sub_float_int.
Qed.

Lemma gross_of_not_nan b h s g :
  not_nan s -> gross_of (PInt b) (PInt h) s = Ok g -> not_nan g.
Proof.
  intros Hs. unfold gross_of. cbn [py_add bind]. intros H.
  destruct s as [n|x].
  - injection H as <-. exact I.
  - apply not_nan_float in Hs.
    destruct (py_add_int_float _ _ _ Hs H) as (y & -> & Hy).
    apply not_nan_float, Hy.
Qed.

Lemma py_sub_not_nan g n v :
  not_nan g -> py_sub g (PInt n) = Ok v -> not_nan v.
Proof.
  intros Hg H. destruct g as [k|x].
  - injection H as <-. exact I.
  - apply not_nan_float in Hg.
    destruct (py_sub_float_int _ _ _ Hg H) as (y & -> & Hy).
    apply not_nan_float, Hy.
Qed.

(** The jurisdiction lookup yields one of the four slab functions. *)
Lemma pt_lookup_cases st :
  dict_get PT_RATES st pt_karnataka = pt_karnataka \/
  dict_get PT_RATES st pt_karnataka = pt_maharashtra \/
  dict_get PT_RATES st pt_karnataka = pt_tamil_nadu \/
  dict_get PT_RATES st pt_karnataka = pt_none.
Proof.
  unfold PT_RATES. cbn [dict_get].
  repeat match goal with
         | |- context [String.eqb ?a st] => destruct (String.eqb a st)
         end; auto.
Qed.

Lemma pt_lookup_int st g :
  exists n, dict_get PT_RATES st pt_karnataka g = PInt n /\ 0 <= n <= 208.
Proof.
  destruct (pt_lookup_cases st) as [-> | [-> | [-> | ->]]];
    unfold pt_karnataka, pt_maharashtra, pt_tamil_nadu, pt_none;
    repeat match goal with
           | |- context [if ?c then _ else _] => destruct c
           end; eexists; (split; [reflexivity | lia]).
Qed.

(** What kind of value each local variable holds. *)
Lemma calculate_locals_shape a bp hp pf pt st l :
  calculate_locals a bp hp pf pt st = Ok l ->
  exists (m sr s1 : spec_float) (b h epf eesi ppf pesi ptx : Z),
    l_monthly_ctc l = PFloat m /\ is_number m /\
    l_basic l = PInt b /\ l_hra l = PInt h /\
    l_pf_basic l = PInt (Z.min b 15000) /\
    l_employer_pf l = PInt epf /\
    l_preliminary_gross l = PInt (b + h) /\
    l_special_allowance_pass1 l = PFloat s1 /\ s1 <> S754_nan /\
    l_employer_esi l = PInt eesi /\
    l_special_allowance_raw l = PFloat sr /\ sr <> S754_nan /\
    l_employee_pf l = PInt ppf /\
    l_employee_esi l = PInt pesi /\
    l_professional_tax l = PInt ptx /\ 0 <= ptx <= 208 /\
    l_tds l = PInt 0 /\
    l_total_deductions l = PInt (ppf + pesi + ptx + 0) /\
    not_nan (l_gross_salary_pass1 l) /\
    not_nan (l_special_allowance l) /\
    not_nan (l_gross_salary l) /\
    not_nan (l_net_salary l).
Proof.
  intros H. apply calculate_locals_inv in H.
  destruct H as (Hm & (bf & Hbf & Hb) & (hf & Hhf & Hh) & Hpb & Hepf & Hpg & Hea &
                 Hs1 & Hg1 & Heesi & (r & Hr & Hsr) & Hs & Hg & Hppf & Hpesi &
                 Hpt & Htds & Htd & Hnet).
  destruct (py_truediv_float _ _ _ Hm) as (m & Em). rewrite Em in *.
  pose proof (round_mul_number_l _ _ _ Hb) as Hnum.
  destruct (round_mul_int _ _ _ Hb) as (b & Eb). rewrite Eb in *.
  destruct (round_mul_int _ _ _ Hh) as (h & Eh). rewrite Eh in *.
  unfold PF_BASIC_CAP in Hpb. rewrite py_min_ints in Hpb. rewrite Hpb in *.
  assert (exists epf, l_employer_pf l = PInt epf) as (epf & Eepf).
  { destruct pf; [|eauto]. destruct Hepf as (rate & _ & Hepf).
    exact (round_mul_int _ _ _ Hepf). }
  rewrite Eepf in *.
  cbn [py_add] in Hpg. injection Hpg as Hpg.
  destruct (residual_float _ _ _ _ _ (is_number_not_nan _ Hnum) Hs1) as (s1 & Es1 & Hs1n).
  rewrite Es1 in *.
  assert (exists eesi, l_employer_esi l = PInt eesi) as (eesi & Eeesi).
  { destruct (l_esi_applicable l); [|eauto]. exact (round_mul_int _ _ _ Heesi). }
  rewrite Eeesi in *.
  destruct (residual_float _ _ _ _ _ (is_number_not_nan _ Hnum) Hr) as (r' & -> & Hrn).
  destruct (py_sub_float_int _ _ _ Hrn Hsr) as (sr & Esr & Hsrn). rewrite Esr in *.
  assert (exists ppf, l_employee_pf l = PInt ppf) as (ppf & Eppf).
  { destruct pf; [|eauto]. destruct Hppf as (x & Hx & ->).
    destruct (round_mul_int _ _ _ Hx) as (n & ->).
    unfold PF_MAX_EMPLOYEE. rewrite py_min_ints. eauto. }
  rewrite Eppf in *.
  assert (exists pesi, l_employee_esi l = PInt pesi) as (pesi & Epesi).
  { destruct (l_esi_applicable l); [|eauto]. exact (round_mul_int _ _ _ Hpesi). }
  rewrite Epesi in *.
  assert (exists ptx, l_professional_tax l = PInt ptx /\ 0 <= ptx <= 208) as (ptx & Eptx & Hptx).
  { rewrite Hpt. destruct pt; [apply pt_lookup_int | exists 0; split; [reflexivity | lia]]. }
  rewrite Eptx, Htds in *.
  cbn in Htd. injection Htd as Htd.
  assert (not_nan (l_special_allowance l)) as Hsn.
  { rewrite Hs. destruct (py_lt _ _); [exact I | apply not_nan_float, Hsrn]. }
  pose proof (gross_of_not_nan _ _ _ _ Hsn Hg) as Hgn.
  rewrite <- Htd in Hnet.
  exists m, sr, s1, b, h, epf, eesi, ppf, pesi, ptx.
  repeat match goal with |- _ /\ _ => split end; auto; try lia.
  - eapply gross_of_not_nan; [|eassumption]. apply not_nan_float, Hs1n.
  - eapply py_sub_not_nan; eassumption.
Qed.

(** ** Comparisons *)

Lemma SFcompare_refl x : x <> S754_nan -> SFcompare x x = Some Eq.
Proof.
  destruct x as [s|s| |s m e]; cbn; try congruence; intros _.
  - destruct s; reflexivity.
  - rewrite Z.compare_refl, Pos.compare_cont_refl. destruct s; reflexivity.
Qed.

Lemma py_eq_refl v : not_nan v -> py_eq v v = true.
Proof.
  unfold py_eq. destruct v as [n|x]; cbn [py_compare].
  - intros _. rewrite Z.compare_refl. reflexivity.
  - intros H. apply not_nan_float in H. rewrite SFcompare_refl by assumption.
    reflexivity.
Qed.

(** ** C1: the balance equations *)

(** C1. Every returned dict passes the three balance checks: gross equals
    basic + hra + special allowance, net equals gross - total deductions,
    total deductions equals employee PF + employee ESI + professional tax +
    tds, each compared with Python's [==], and tds is 0. *)
Theorem balance_equations a bp hp pf pt st o :
  calculate_salary a bp hp pf pt st = Ok o ->
  balance_gross o = Ok true /\
  balance_net o = Ok true /\
  balance_deductions o = Ok true /\
  tds o = PInt 0.
Proof.
  intros H. apply calculate_salary_inv in H. destruct H as (l & Hl & ->).
  pose proof (calculate_locals_shape _ _ _ _ _ _ _ Hl) as
    (m & sr & s1 & b & h & epf & eesi & ppf & pesi & ptx & _ & _ & _ & _ & _ & _ &
     _ & _ & _ & _ & _ & _ & _ & _ & _ & _ & Htds & Htd & _ & _ & Hgn & Hnn).
  apply calculate_locals_inv in Hl.
  destruct Hl as (_ & _ & _ & _ & _ & _ & _ & _ & _ & _ & _ & _ & Hg & _ & _ &
                  _ & _ & Hd & Hn).
  unfold balance_gross, balance_net, balance_deductions, return_dict.
  cbn [basic hra special_allowance gross_salary employee_pf employee_esi
       professional_tax tds total_deductions net_salary].
  rewrite Hg, Hn, Hd. cbn [bind].
  rewrite !py_eq_refl; auto.
  rewrite Htd. exact I.
Qed.

Lemma balance_equations_witness :
  exists o, calculate_salary_default (PInt 300000) = Ok o /\
            balance_gross o = Ok true /\ balance_net o = Ok true /\
            balance_deductions o = Ok true /\ tds o = PInt 0.
Proof.
  eexists. split.
  - vm_compute. reflexivity.
  - apply (balance_equations (PInt 300000) (PInt 40) (PInt 50) true true "Karnataka").
    vm_compute. reflexivity.
Defined.

(** ** C3: ESI eligibility is decided on basic + hra *)

Lemma py_le_ints a b : py_le (PInt a) (PInt b) = (a <=? b).
Proof.
  unfold py_le, py_compare. destruct (Z.compare_spec a b), (Z.leb_spec a b);
    try reflexivity; lia.
Qed.

(** The preliminary gross does not depend on the two switches. *)
Lemma esi_applicable_flags a bp hp pf pt st pf' pt' st' l l' :
  calculate_locals a bp hp pf pt st = Ok l ->
  calculate_locals a bp hp pf' pt' st' = Ok l' ->
  l_basic l' = l_basic l /\ l_hra l' = l_hra l /\
  l_esi_applicable l' = l_esi_applicable l.
Proof.
  intros H H'. apply calculate_locals_inv in H, H'.
  destruct H as (Hm & (bf & Hbf & Hb) & (hf & Hhf & Hh) & _ & _ & Hpg & Hea & _).
  destruct H' as (Hm' & (bf' & Hbf' & Hb') & (hf' & Hhf' & Hh') & _ & _ & Hpg' & Hea' & _).
  assert (l_monthly_ctc l' = l_monthly_ctc l) as Em by congruence.
  assert (bf' = bf) as -> by congruence.
  assert (hf' = hf) as -> by congruence.
  assert (l_basic l' = l_basic l) as Eb by congruence.
  assert (l_hra l' = l_hra l) as Eh by congruence.
  assert (l_preliminary_gross l' = l_preliminary_gross l) by congruence.
  repeat split; congruence.
Qed.

(** C3. ESI eligibility is the single test basic + hra <= 21000; it does not
    depend on the PF and PT switches, and both ESI amounts follow it:
    employee ESI is round(final gross * 0.0075) when the test holds and 0
    when basic + hra exceeds 21000, whatever the final gross is; employer ESI
    is round(pass-1 gross * 0.0325) or 0 by the same test. *)
Theorem esi_decided_on_preliminary_gross a bp hp pf pt st l :
  calculate_locals a bp hp pf pt st = Ok l ->
  exists b h,
    l_basic l = PInt b /\ l_hra l = PInt h /\
    l_preliminary_gross l = PInt (b + h) /\
    l_esi_applicable l = (b + h <=? 21000) /\
    (b + h <= 21000 ->
       round_mul (l_gross_salary l) ESI_EMPLOYEE_RATE = Ok (l_employee_esi l) /\
       round_mul (l_gross_salary_pass1 l) ESI_EMPLOYER_RATE = Ok (l_employer_esi l)) /\
    (21000 < b + h ->
       l_employee_esi l = PInt 0 /\ l_employer_esi l = PInt 0) /\
    (forall pf' pt' l',
       calculate_locals a bp hp pf' pt' st = Ok l' ->
       l_basic l' = PInt b /\ l_hra l' = PInt h /\
       l_esi_applicable l' = l_esi_applicable l).
Proof.
  intros H.
  pose proof (calculate_locals_shape _ _ _ _ _ _ _ H) as
    (m & sr & s1 & b & h & epf & eesi & ppf & pesi & ptx & _ & _ & Eb & Eh & _ & _ &
     Epg & _).
  pose proof (calculate_locals_inv _ _ _ _ _ _ _ H) as
    (_ & _ & _ & _ & _ & _ & Hea & _ & _ & Heesi & _ & _ & _ & _ & Hpesi & _).
  rewrite Epg in Hea. unfold ESI_GROSS_LIMIT in Hea. rewrite py_le_ints in Hea.
  exists b, h. repeat match goal with |- _ /\ _ => split end; auto.
  - intros Hle. apply Z.leb_le in Hle. rewrite Hle in Hea. rewrite Hea in *. auto.
  - intros Hgt. apply Z.leb_gt in Hgt. rewrite Hgt in Hea. rewrite Hea in *. auto.
  - intros pf' pt' l' H'.
    destruct (esi_applicable_flags _ _ _ _ _ _ _ _ _ _ _ H H') as (E1 & E2 & E3).
    repeat split; congruence.
Qed.

Lemma esi_decided_on_preliminary_gross_witness :
  exists l, calculate_locals (PInt 300000) (PInt 40) (PInt 50) true true "Karnataka" = Ok l /\
  exists b h,
    l_basic l = PInt b /\ l_hra l = PInt h /\
    l_preliminary_gross l = PInt (b + h) /\
    l_esi_applicable l = (b + h <=? 21000) /\
    (b + h <= 21000 ->
       round_mul (l_gross_salary l) ESI_EMPLOYEE_RATE = Ok (l_employee_esi l) /\
       round_mul (l_gross_salary_pass1 l) ESI_EMPLOYER_RATE = Ok (l_employer_esi l)) /\
    (21000 < b + h ->
       l_employee_esi l = PInt 0 /\ l_employer_esi l = PInt 0) /\
    (forall pf' pt' l',
       calculate_locals (PInt 300000) (PInt 40) (PInt 50) pf' pt' "Karnataka" = Ok l' ->
       l_basic l' = PInt b /\ l_hra l' = PInt h /\
       l_esi_applicable l' = l_esi_applicable l).
Proof.
  eexists. split.
  - vm_compute. reflexivity.
  - apply (esi_decided_on_preliminary_gross
             (PInt 300000) (PInt 40) (PInt 50) true true "Karnataka").
    vm_compute. reflexivity.
Defined.

(** At 300,000 a year the final gross is above the ceiling and ESI is still
    charged, because basic + hra = 15,000 is below it. *)
Example esi_charged_above_ceiling :
  exists o, calculate_salary_default (PInt 300000) = Ok o /\
            py_gt (gross_salary o) ESI_GROSS_LIMIT = true /\
            employee_esi o = PInt 173.
Proof. eexists. split; [vm_compute; reflexivity | split; vm_compute; reflexivity]. Qed.

(** ** C4: the PF cap and the two switches *)

(** C4. With PF enabled, employee PF is
    min(round(min(basic, 15000) * 0.12), 1800) and so at most 1800; with PF
    disabled both PF amounts are 0; with PT disabled the professional tax
    is 0. *)
Theorem pf_cap_and_switches a bp hp pf pt st o :
  calculate_salary a bp hp pf pt st = Ok o ->
  (pf = true ->
     (exists x, round_mul (py_min (basic o) PF_BASIC_CAP) PF_EMPLOYEE_RATE = Ok x /\
                employee_pf o = py_min x PF_MAX_EMPLOYEE) /\
     py_le (employee_pf o) (PInt 1800) = true) /\
  (pf = false -> employee_pf o = PInt 0 /\ employer_pf o = PInt 0) /\
  (pt = false -> professional_tax o = PInt 0).
Proof.
  intros H. apply calculate_salary_inv in H. destruct H as (l & Hl & ->).
  apply calculate_locals_inv in Hl.
  destruct Hl as (_ & _ & _ & Hpb & Hepf & _ & _ & _ & _ & _ & _ & _ & _ & Hppf & _ &
                  Hpt & _).
  unfold return_dict. cbn [basic employee_pf employer_pf professional_tax].
  repeat split.
  - subst pf. rewrite <- Hpb. exact Hppf.
  - subst pf. destruct Hppf as (x & Hx & ->).
    destruct (round_mul_int _ _ _ Hx) as (n & ->).
    unfold PF_MAX_EMPLOYEE. rewrite py_min_ints, py_le_ints. apply Z.leb_le. lia.
  - subst pf. exact Hppf.
  - subst pf. exact Hepf.
  - intros ->. exact Hpt.
Qed.

Lemma pf_cap_and_switches_witness :
  exists o, calculate_salary (PInt 3000000) (PInt 40) (PInt 50) true false "Delhi" = Ok o /\
  (true = true ->
     (exists x, round_mul (py_min (basic o) PF_BASIC_CAP) PF_EMPLOYEE_RATE = Ok x /\
                employee_pf o = py_min x PF_MAX_EMPLOYEE) /\
     py_le (employee_pf o) (PInt 1800) = true) /\
  (true = false -> employee_pf o = PInt 0 /\ employer_pf o = PInt 0) /\
  (false = false -> professional_tax o = PInt 0).
Proof.
  eexists. split.
  - vm_compute. reflexivity.
  - apply (pf_cap_and_switches (PInt 3000000) (PInt 40) (PInt 50) true false "Delhi").
    vm_compute. reflexivity.
Defined.

(** ** C6: which amounts are rounded *)

(** C6 fails as stated: at 100,000 a year the special allowance, the gross
    and the net salary all carry the third of a unit of the monthly CTC. *)
Lemma unrounded_amounts_at_100000 :
  exists o, calculate_salary_default (PInt 100000) = Ok o /\
            is_whole (special_allowance o) = false /\
            is_whole (gross_salary o) = false /\
            is_whole (net_salary o) = false.
Proof.
  eexists. split; [vm_compute; reflexivity|].
  repeat split; vm_compute; reflexivity.
Qed.

(** C6, amended. The amounts produced by [round] or made of rounded amounts
    (basic, hra, employer and employee PF and ESI, professional tax, tds and
    total deductions) are ints.  The special allowance is not rounded: it is
    the float monthly_ctc - basic - hra - employer_pf - employer_esi, or the
    int 0 when that is negative; gross and net salary are computed from it
    without rounding. *)
Theorem rounded_amounts_are_ints a bp hp pf pt st o :
  calculate_salary a bp hp pf pt st = Ok o ->
  (is_int (basic o) /\ is_int (hra o) /\
   is_int (employer_pf o) /\ is_int (employer_esi o) /\
   is_int (employee_pf o) /\ is_int (employee_esi o) /\
   is_int (professional_tax o) /\ is_int (tds o) /\
   is_int (total_deductions o)) /\
  (exists r raw,
     residual (monthly_ctc o) (basic o) (hra o) (employer_pf o) = Ok r /\
     py_sub r (employer_esi o) = Ok (PFloat raw) /\
     special_allowance o =
       (if py_lt (PFloat raw) (PInt 0) then PInt 0 else PFloat raw)) /\
  gross_of (basic o) (hra o) (special_allowance o) = Ok (gross_salary o) /\
  py_sub (gross_salary o) (total_deductions o) = Ok (net_salary o).
Proof.
  intros H. apply calculate_salary_inv in H. destruct H as (l & Hl & ->).
  pose proof (calculate_locals_shape _ _ _ _ _ _ _ Hl) as
    (m & sr & s1 & b & h & epf & eesi & ppf & pesi & ptx & _ & _ & Eb & Eh & _ &
     Eepf & _ & _ & _ & Eeesi & Esr & _ & Eppf & Epesi & Eptx & _ & Etds & Etd & _).
  apply calculate_locals_inv in Hl.
  destruct Hl as (_ & _ & _ & _ & _ & _ & _ & _ & _ & _ & (r & Hr & Hsr) & Hs & Hg &
                  _ & _ & _ & _ & _ & Hn).
  unfold return_dict, is_int.
  cbn [basic hra special_allowance gross_salary employer_pf employer_esi
       employee_pf employee_esi professional_tax tds total_deductions net_salary
       monthly_ctc].
  repeat match goal with |- _ /\ _ => split end; eauto.
  exists r, sr. rewrite <- Esr. auto.
Qed.

Lemma rounded_amounts_are_ints_witness :
  exists o, calculate_salary_default (PInt 100000) = Ok o /\
  (is_int (basic o) /\ is_int (hra o) /\
   is_int (employer_pf o) /\ is_int (employer_esi o) /\
   is_int (employee_pf o) /\ is_int (employee_esi o) /\
   is_int (professional_tax o) /\ is_int (tds o) /\
   is_int (total_deductions o)) /\
  (exists r raw,
     residual (monthly_ctc o) (basic o) (hra o) (employer_pf o) = Ok r /\
     py_sub r (employer_esi o) = Ok (PFloat raw) /\
     special_allowance o =
       (if py_lt (PFloat raw) (PInt 0) then PInt 0 else PFloat raw)) /\
  gross_of (basic o) (hra o) (special_allowance o) = Ok (gross_salary o) /\
  py_sub (gross_salary o) (total_deductions o) = Ok (net_salary o).
Proof.
  eexists. split.
  - vm_compute. reflexivity.
  - apply (rounded_amounts_are_ints (PInt 100000) (PInt 40) (PInt 50) true true "Karnataka").
    vm_compute. reflexivity.
Defined.

(** ** C8: the 300,000 scenario *)

(** C8. For annual CTC 300,000 with every default: basic = 10,000,
    hra = 5,000, employee PF = 1,200, employee ESI is positive (basic + hra =
    15,000 is not above the ceiling 21,000) and professional tax = 200. *)
Theorem scenario_300000 :
  exists o, calculate_salary_default (PInt 300000) = Ok o /\
            basic o = PInt 10000 /\
            hra o = PInt 5000 /\
            employee_pf o = PInt 1200 /\
            py_gt (employee_esi o) (PInt 0) = true /\
            py_add (basic o) (hra o) = Ok (PInt 15000) /\
            py_le (PInt 15000) ESI_GROSS_LIMIT = true /\
            professional_tax o = PInt 200.
Proof.
  eexists. split; [vm_compute; reflexivity|].
  repeat split; vm_compute; reflexivity.
Qed.

(** The same amounts when the caller passes the float 300000.0. *)
Example scenario_300000_float :
  calculate_salary_default (PFloat (B64.of_Z 300000)) =
  calculate_salary_default (PInt 300000).
Proof. vm_compute. reflexivity. Qed.

(** The other rows of [TEST_CASES]. *)
Example scenario_600000 :
  exists o, calculate_salary_default (PInt 600000) = Ok o /\
            basic o = PInt 20000 /\ hra o = PInt 10000 /\
            employee_pf o = PInt 1800 /\ employee_esi o = PInt 0 /\
            professional_tax o = PInt 200.
Proof.
  eexists. split; [vm_compute; reflexivity|].
  repeat split; vm_compute; reflexivity.
Qed.

Example scenario_1500000 :
  exists o, calculate_salary_default (PInt 1500000) = Ok o /\
            basic o = PInt 50000 /\ hra o = PInt 25000 /\
            employee_pf o = PInt 1800 /\ employee_esi o = PInt 0 /\
            professional_tax o = PInt 200.
Proof.
  eexists. split; [vm_compute; reflexivity|].
  repeat split; vm_compute; reflexivity.
Qed.

Example scenario_3000000 :
  exists o, calculate_salary_default (PInt 3000000) = Ok o /\
            basic o = PInt 100000 /\ hra o = PInt 50000 /\
            employee_pf o = PInt 1800 /\ employee_esi o = PInt 0 /\
            professional_tax o = PInt 200.
Proof.
  eexists. split; [vm_compute; reflexivity|].
  repeat split; vm_compute; reflexivity.
Qed.

(** ** C9: unknown jurisdictions *)

Lemma dict_get_absent {V : Type} (d : list (string * V)) key (v : V) :
  ~ In key (map fst d) -> dict_get d key v = v.
Proof.
  induction d as [|[k x] d IH]; cbn [dict_get map fst In]; intros H; [reflexivity|].
  destruct (String.eqb_spec k key) as [->|_]; [tauto|].
  apply IH. tauto.
Qed.

Lemma bind_ext {A B : Type} (r : result A) (k k' : A -> result B) :
  (forall a, k a = k' a) -> bind r k = bind r k'.
Proof. intros H. destruct r; cbn; auto. Qed.

(** The result depends on the state only through the slab function. *)
Lemma calculate_locals_state a bp hp pf pt st st' :
  dict_get PT_RATES st pt_karnataka = dict_get PT_RATES st' pt_karnataka ->
  calculate_locals a bp hp pf pt st = calculate_locals a bp hp pf pt st'.
Proof.
  intros H. unfold calculate_locals.
  change (dict_item PT_RATES "Karnataka") with (Ok pt_karnataka).
  cbn [bind]. rewrite H. reflexivity.
Qed.

(** C9. For a state outside the known jurisdictions the lookup takes the
    default, Karnataka's slab function, instead of failing: the call returns
    (or raises) exactly what it does for state = "Karnataka". *)
Theorem unknown_state_is_karnataka a bp hp pf pt st :
  ~ In st known_states ->
  dict_get PT_RATES st pt_karnataka = pt_karnataka /\
  calculate_salary a bp hp pf pt st = calculate_salary a bp hp pf pt "Karnataka".
Proof.
  intros H.
  assert (dict_get PT_RATES st pt_karnataka = pt_karnataka) as E
    by (apply dict_get_absent; exact H).
  split; [exact E|].
  unfold calculate_salary.
  rewrite (calculate_locals_state a bp hp pf pt st "Karnataka"); [reflexivity|].
  rewrite E. reflexivity.
Qed.

Lemma unknown_state_is_karnataka_witness :
  dict_get PT_RATES "Kerala" pt_karnataka = pt_karnataka /\
  calculate_salary (PInt 300000) (PInt 40) (PInt 50) true true "Kerala" =
  calculate_salary (PInt 300000) (PInt 40) (PInt 50) true true "Karnataka".
Proof.
  apply (unknown_state_is_karnataka (PInt 300000) (PInt 40) (PInt 50) true true "Kerala").
  cbn. intros [H|[H|[H|[H|[H|[]]]]]]; discriminate H.
Defined.

(** * Binary64 arithmetic *)

Ltac hide_pows :=
  repeat match goal with
         | H : context [Z.pow ?a ?b] |- _ =>
           let x := fresh "pw" in set (x := Z.pow a b) in *; clearbody x
         | |- context [Z.pow ?a ?b] =>
           let x := fresh "pw" in set (x := Z.pow a b) in *; clearbody x
         end.

Ltac plia := hide_pows; lia.
Ltac pnia := hide_pows; nia.

Lemma fexp_eq e : fexp B64.prec B64.emax e = Z.max (e - 53) (-1074).
Proof. reflexivity. Qed.

Lemma digits2_pos_bounds p :
  2 ^ (Zpos (digits2_pos p) - 1) <= Zpos p < 2 ^ Zpos (digits2_pos p).
Proof.
  induction p as [p IH|p IH|]; cbn [digits2_pos].
  - rewrite Pos2Z.inj_succ, (Pos2Z.inj_xI p).
    replace (Z.succ (Z.pos (digits2_pos p)) - 1) with (Z.succ (Z.pos (digits2_pos p) - 1)) by lia.
    rewrite !Z.pow_succ_r by lia. plia.
  - rewrite Pos2Z.inj_succ, (Pos2Z.inj_xO p).
    replace (Z.succ (Z.pos (digits2_pos p)) - 1) with (Z.succ (Z.pos (digits2_pos p) - 1)) by lia.
    rewrite !Z.pow_succ_r by lia. plia.
  - cbn. lia.
Qed.

Lemma Zdigits2_log2 m : 0 < m -> Zdigits2 m = Z.log2 m + 1.
Proof.
  intros H. destruct m as [|p|p]; try lia. cbn [Zdigits2].
  pose proof (digits2_pos_bounds p) as B.
  assert (Z.log2 (Zpos p) = Zpos (digits2_pos p) - 1) as ->; [|lia].
  apply Z.log2_unique; [lia|].
  replace (Z.succ (Z.pos (digits2_pos p) - 1)) with (Z.pos (digits2_pos p)) by lia.
  exact B.
Qed.

Lemma Zdigits2_bounds m : 0 < m -> 2 ^ (Zdigits2 m - 1) <= m < 2 ^ Zdigits2 m.
Proof.
  intros H. destruct m as [|p|p]; try lia. apply digits2_pos_bounds.
Qed.

Lemma Zdigits2_pos m : 0 < m -> 0 < Zdigits2 m.
Proof. intros H. destruct m; cbn; lia. Qed.

Lemma Zdigits2_le m d : 0 < m -> 0 <= d -> m < 2 ^ d -> Zdigits2 m <= d.
Proof.
  intros H Hd Hm. pose proof (Zdigits2_bounds m H) as [B _].
  pose proof (Zdigits2_pos m H).
  destruct (Z_le_gt_dec (Zdigits2 m) d) as [|G]; [assumption|].
  assert (2 ^ d <= 2 ^ (Zdigits2 m - 1)) by (apply Z.pow_le_mono_r; lia). lia.
Qed.

Lemma Zdigits2_ge m d : 0 < m -> 2 ^ (d - 1) <= m -> d <= Zdigits2 m.
Proof.
  intros H Hm. pose proof (Zdigits2_bounds m H) as [_ B].
  pose proof (Zdigits2_pos m H).
  destruct (Z_le_gt_dec d (Zdigits2 m)) as [|G]; [assumption|].
  assert (2 ^ (Zdigits2 m) <= 2 ^ (d - 1)) by (apply Z.pow_le_mono_r; lia). lia.
Qed.

(* iter_pos *)
Lemma iter_pos_nat {A : Type} (f : A -> A) p x :
  iter_pos f p x = Nat.iter (Pos.to_nat p) f x.
Proof.
  revert x. induction p as [p IH|p IH|]; intros x; cbn [iter_pos].
  - rewrite !IH, Pos2Nat.inj_xI.
    replace (S (2 * Pos.to_nat p))%nat with (Pos.to_nat p + (Pos.to_nat p + 1))%nat by lia.
    rewrite !Nat.iter_add. reflexivity.
  - rewrite !IH, Pos2Nat.inj_xO.
    replace (2 * Pos.to_nat p)%nat with (Pos.to_nat p + Pos.to_nat p)%nat by lia.
    rewrite Nat.iter_add. reflexivity.
  - reflexivity.
Qed.

Lemma shr_1_spec m r s :
  0 <= m ->
  shr_1 (Build_shr_record m r s) = Build_shr_record (m / 2) (Z.odd m) (r || s).
Proof.
  intros H. destruct m as [|[p|p|]|]; try lia; cbn [shr_1].
  - reflexivity.
  - f_equal; try reflexivity.
    rewrite (Pos2Z.inj_xI p). apply (Z.div_unique _ _ _ 1); lia.
  - f_equal; try reflexivity.
    rewrite (Pos2Z.inj_xO p). apply (Z.div_unique _ _ _ 0); lia.
  - reflexivity.
Qed.

Lemma shr_iter_m k m r s :
  0 <= m ->
  shr_m (Nat.iter k shr_1 (Build_shr_record m r s)) = m / 2 ^ Z.of_nat k.
Proof.
  intros H. induction k as [|k IH].
  - cbn. rewrite Z.div_1_r. reflexivity.
  - rewrite Nat.iter_succ.
    destruct (Nat.iter k shr_1 _) as [m' r' s'] eqn:E. cbn [shr_m] in IH.
    assert (0 <= m') by (subst m'; apply Z.div_pos; lia).
    rewrite shr_1_spec by assumption. cbn [shr_m]. subst m'.
    rewrite Nat2Z.inj_succ, Z.pow_succ_r by lia.
    rewrite Z.div_div by lia. f_equal. lia.
Qed.

Lemma shr_iter_exact k m :
  0 <= m -> m mod 2 ^ Z.of_nat k = 0 ->
  Nat.iter k shr_1 (Build_shr_record m false false)
  = Build_shr_record (m / 2 ^ Z.of_nat k) false false.
Proof.
  intros H. induction k as [|k IH]; intros Hm.
  - cbn. rewrite Z.div_1_r. reflexivity.
  - rewrite Nat2Z.inj_succ, Z.pow_succ_r in Hm by lia.
    assert (0 < 2 ^ Z.of_nat k) as Hp by (apply Z.pow_pos_nonneg; lia).
    assert (m mod 2 ^ Z.of_nat k = 0) as Hk.
    { apply Z.mod_divide; try lia. apply Z.mod_divide in Hm; try lia.
      destruct Hm as [c Hc]. exists (c * 2). lia. }
    rewrite Nat.iter_succ, IH by assumption.
    rewrite shr_1_spec by (apply Z.div_pos; lia).
    rewrite Nat2Z.inj_succ, Z.pow_succ_r by lia.
    f_equal.
    + rewrite Z.div_div by lia. f_equal. lia.
    + apply Z.mod_divide in Hm; try lia. destruct Hm as [c Hc].
      replace m with ((c * 2) * 2 ^ Z.of_nat k) by lia.
      rewrite Z.div_mul by lia. rewrite Z.odd_mul. cbn. apply andb_false_r.
Qed.

Lemma target_ge M E : E <= target M E /\ -1074 <= target M E.
Proof. unfold target. rewrite fexp_eq. lia. Qed.

Lemma pow2_pos e : 0 <= e -> 0 < 2 ^ e.
Proof. intros. apply Z.pow_pos_nonneg; lia. Qed.

Lemma shr_record_of_loc_m m l : shr_m (shr_record_of_loc m l) = m.
Proof. destruct l as [|[]]; reflexivity. Qed.

Lemma shr_fexp_spec M E l :
  0 <= M ->
  exists mrs,
    shr_fexp B64.prec B64.emax M E l = (mrs, target M E) /\
    shr_m mrs = M / 2 ^ (target M E - E) /\
    (l = loc_Exact -> M mod 2 ^ (target M E - E) = 0 ->
     loc_of_shr_record mrs = loc_Exact).
Proof.
  intros HM. unfold shr_fexp, target.
  set (F := fexp B64.prec B64.emax (Zdigits2 M + E)).
  unfold shr. destruct (F - E) as [|p|p] eqn:En.
  - exists (shr_record_of_loc M l).
    replace (Z.max E F) with E by lia. rewrite Z.sub_diag, Z.pow_0_r, Z.div_1_r.
    repeat split; [apply shr_record_of_loc_m|]. intros -> _. reflexivity.
  - exists (iter_pos shr_1 p (shr_record_of_loc M l)).
    replace (Z.max E F) with (E + Z.pos p) by lia.
    replace (E + Z.pos p - E) with (Z.pos p) by lia.
    rewrite iter_pos_nat.
    rewrite <- (positive_nat_Z p).
    repeat split.
    + destruct l as [|[]]; cbn [shr_record_of_loc]; apply shr_iter_m; assumption.
    + intros -> Hm. cbn [shr_record_of_loc].
      rewrite shr_iter_exact by assumption. reflexivity.
  - exists (shr_record_of_loc M l).
    replace (Z.max E F) with E by lia. rewrite Z.sub_diag, Z.pow_0_r, Z.div_1_r.
    repeat split; [apply shr_record_of_loc_m|]. intros -> _. reflexivity.
Qed.

Lemma round_nearest_even_bounds q l :
  q <= round_nearest_even q l <= q + 1 /\
  (l = loc_Exact -> round_nearest_even q l = q).
Proof.
  destruct l as [|[]]; cbn [round_nearest_even].
  - split; [lia|reflexivity].
  - destruct (Z.even q); split; try lia; discriminate.
  - split; [lia|discriminate].
  - split; [lia|discriminate].
Qed.

Lemma div_lt_pow2 M d k :
  0 <= M -> 0 <= k -> 0 <= d -> M < 2 ^ (d + k) -> M / 2 ^ k < 2 ^ d.
Proof.
  intros HM Hk Hd H. apply Z.div_lt_upper_bound; [apply pow2_pos; lia|].
  rewrite <- Z.pow_add_r by lia. rewrite Z.add_comm. exact H.
Qed.

(** The first shift leaves at most 53 bits. *)
Lemma first_shift_small M E :
  0 <= M -> M / 2 ^ (target M E - E) < 2 ^ 53.
Proof.
  intros HM. destruct (Z.eq_dec M 0) as [->|Hne].
  - rewrite Z.div_0_l; [lia|]. pose proof (target_ge 0 E).
    pose proof (pow2_pos (target 0 E - E)). lia.
  - assert (0 < M) as Hpos by lia.
    pose proof (Zdigits2_bounds M Hpos) as [_ Hd].
    pose proof (Zdigits2_pos M Hpos).
    pose proof (target_ge M E) as [H1 _].
    apply div_lt_pow2; try lia.
    eapply Z.lt_le_trans; [exact Hd|].
    apply Z.pow_le_mono_r; [lia|].
    unfold target. rewrite fexp_eq. lia.
Qed.

Lemma shr_fexp_small m F :
  0 <= m < 2 ^ 53 -> -1074 <= F ->
  shr_fexp B64.prec B64.emax m F loc_Exact = (Build_shr_record m false false, F).
Proof.
  intros Hm HF. unfold shr_fexp. cbn [shr_record_of_loc].
  assert (fexp B64.prec B64.emax (Zdigits2 m + F) - F <= 0) as Hn.
  { rewrite fexp_eq. destruct (Z.eq_dec m 0) as [->|Hne]; [cbn; lia|].
    assert (Zdigits2 m <= 53) by (apply Zdigits2_le; lia). lia. }
  unfold shr. destruct (fexp _ _ _ - F); try reflexivity. lia.
Qed.

Lemma shr_fexp_carry F :
  -1074 <= F ->
  shr_fexp B64.prec B64.emax (2 ^ 53) F loc_Exact
  = (Build_shr_record (2 ^ 52) false false, F + 1).
Proof.
  intros HF. unfold shr_fexp. cbn [shr_record_of_loc].
  change (Zdigits2 (2 ^ 53)) with 54. rewrite fexp_eq.
  replace (Z.max (54 + F - 53) (-1074) - F) with 1 by lia.
  reflexivity.
Qed.

(** The result of [binary_round_aux] in terms of the mantissa [m1] after
    the first shift and rounding. *)
Lemma binary_round_aux_pack s M E l :
  0 <= M ->
  exists m1,
    binary_round_aux B64.prec B64.emax s M E l = pack s m1 (target M E) /\
    M / 2 ^ (target M E - E) <= m1 <= M / 2 ^ (target M E - E) + 1 /\
    m1 <= 2 ^ 53 /\
    (l = loc_Exact -> M mod 2 ^ (target M E - E) = 0 ->
     m1 = M / 2 ^ (target M E - E)).
Proof.
  intros HM. unfold binary_round_aux.
  destruct (shr_fexp_spec M E l HM) as (mrs & -> & Hq & Hex).
  set (F := target M E) in *.
  set (m1 := round_nearest_even (shr_m mrs) (loc_of_shr_record mrs)).
  pose proof (round_nearest_even_bounds (shr_m mrs) (loc_of_shr_record mrs)) as [Hb Hb'].
  fold m1 in Hb, Hb'. rewrite Hq in Hb.
  pose proof (first_shift_small M E HM) as Hsmall. fold F in Hsmall.
  pose proof (target_ge M E) as [HF1 HF2]. fold F in HF1, HF2.
  assert (0 <= M / 2 ^ (F - E)) as Hq0 by (apply Z.div_pos; [lia | apply pow2_pos; lia]).
  exists m1. repeat split; try lia.
  - destruct (Z.eq_dec m1 (2 ^ 53)) as [E53|N53].
    + rewrite E53, shr_fexp_carry by lia. cbn [shr_m].
      unfold pack. change (2 ^ 53 <? 2 ^ 53) with false. cbn.
      reflexivity.
    + rewrite shr_fexp_small by lia. cbn [shr_m].
      unfold pack. destruct m1 as [|p|p]; try reflexivity; try lia.
      replace (Z.pos p <? 2 ^ 53) with true by (symmetry; apply Z.ltb_lt; lia).
      reflexivity.
  - intros Hl Hm. specialize (Hex Hl Hm). rewrite <- Hq. apply Hb'. exact Hex.
Qed.

Lemma Zdigits2_mul_pow2 m k :
  0 < m -> 0 <= k -> Zdigits2 (m * 2 ^ k) = Zdigits2 m + k.
Proof.
  intros Hm Hk.
  pose proof (Zdigits2_bounds m Hm) as [B1 B2].
  pose proof (Zdigits2_pos m Hm) as Hd.
  pose proof (pow2_pos k Hk) as Hp.
  assert (0 < m * 2 ^ k) as Hmk by nia.
  apply Z.le_antisymm.
  - apply Zdigits2_le; try lia.
    rewrite Z.pow_add_r by lia. nia.
  - apply Zdigits2_ge; try lia.
    replace (Zdigits2 m + k - 1) with (Zdigits2 m - 1 + k) by lia.
    rewrite Z.pow_add_r by lia. nia.
Qed.

Lemma Pos_iter_xO m d : Zpos (Pos.iter xO m d) = Zpos m * 2 ^ Zpos d.
Proof.
  rewrite <- Z.shiftl_mul_pow2 by lia. cbn [Z.shiftl].
  apply (Pos.iter_swap_gen _ _ Zpos xO (Z.mul 2)). intros a. reflexivity.
Qed.

Lemma shl_align_spec mx ex ex' :
  snd (shl_align mx ex ex') = Z.min ex ex' /\
  Zpos (fst (shl_align mx ex ex')) = Zpos mx * 2 ^ (ex - Z.min ex ex').
Proof.
  unfold shl_align. destruct (ex' - ex) as [|p|p] eqn:E; cbn [fst snd].
  - replace (Z.min ex ex') with ex by lia. rewrite Z.sub_diag. cbn. lia.
  - replace (Z.min ex ex') with ex by lia. rewrite Z.sub_diag. cbn. lia.
  - replace (Z.min ex ex') with ex' by lia. split; [reflexivity|].
    rewrite Pos_iter_xO. f_equal. f_equal. lia.
Qed.

(** [binary_round]: the mantissa is first aligned to the exponent of the
    format, then rounded. *)
Lemma binary_round_pack s mx ex :
  let F := fexp B64.prec B64.emax (Zdigits2 (Zpos mx) + ex) in
  exists m1,
    binary_round B64.prec B64.emax s mx ex = pack s m1 F /\
    m1 <= 2 ^ 53 /\
    (F <= ex -> m1 = Zpos mx * 2 ^ (ex - F)) /\
    (ex < F ->
     Zpos mx / 2 ^ (F - ex) <= m1 <= Zpos mx / 2 ^ (F - ex) + 1 /\
     (Zpos mx mod 2 ^ (F - ex) = 0 -> m1 = Zpos mx / 2 ^ (F - ex))) /\
    0 <= m1 /\
    (F = -1074 \/ 2 ^ 52 <= m1) /\
    (-1074 <= ex -> 0 < m1).
Proof.
  intros F. unfold binary_round.
  change (Z.pos (digits2_pos mx)) with (Zdigits2 (Zpos mx)). fold F.
  pose proof (shl_align_spec mx ex F) as [He Hm].
  destruct (shl_align mx ex F) as [mz ez]. cbn [fst snd] in He, Hm.
  assert (Zdigits2 (Zpos mz) + ez = Zdigits2 (Zpos mx) + ex) as Hd.
  { rewrite Hm, Zdigits2_mul_pow2 by lia. lia. }
  assert (target (Zpos mz) ez = F) as Ht.
  { unfold target. rewrite Hd. fold F. lia. }
  destruct (binary_round_aux_pack s (Zpos mz) ez loc_Exact ltac:(lia))
    as (m1 & Hr & Hb & H53 & Hex).
  rewrite Ht in *.
  set (d := Zdigits2 (Zpos mx)) in *.
  pose proof (Zdigits2_bounds (Zpos mx) ltac:(lia)) as [B1 B2]. fold d in B1, B2.
  pose proof (Zdigits2_pos (Zpos mx) ltac:(lia)) as Hd0. fold d in Hd0.
  assert (F = Z.max (d + ex - 53) (-1074)) as HF by (unfold F; apply fexp_eq).
  assert (F <= ex -> m1 = Zpos mx * 2 ^ (ex - F)) as Hge.
  { intros Hle. replace (Z.min ex F) with F in * by lia. subst ez.
    rewrite Z.sub_diag, Z.pow_0_r, Z.div_1_r, Z.mod_1_r in Hex.
    rewrite <- Hm. apply Hex; reflexivity. }
  assert (ex < F ->
          Zpos mx / 2 ^ (F - ex) <= m1 <= Zpos mx / 2 ^ (F - ex) + 1 /\
          (Zpos mx mod 2 ^ (F - ex) = 0 -> m1 = Zpos mx / 2 ^ (F - ex))) as Hlt.
  { intros Hlt. replace (Z.min ex F) with ex in * by lia. subst ez.
    rewrite Z.sub_diag, Z.pow_0_r, Z.mul_1_r in Hm. rewrite <- Hm.
    split; [exact Hb|]. intros Hmod. apply Hex; [reflexivity | assumption]. }
  assert (0 <= m1 /\ (F = -1074 \/ 2 ^ 52 <= m1) /\ (-1074 <= ex -> 0 < m1)) as Hcan.
  { clearbody F. clear Hr Hb Hex Ht Hd Hm He.
    destruct (Z_le_gt_dec F ex) as [Hle|Hgt].
    - specialize (Hge Hle). pose proof (pow2_pos (ex - F) ltac:(lia)).
      split; [nia|]. split; [|nia].
      destruct (Z.eq_dec F (-1074)); [left; assumption | right].
      assert (F = d + ex - 53) as HF' by lia.
      subst m1. replace (ex - F) with (53 - d) by lia.
      assert (2 ^ 52 = 2 ^ (d - 1) * 2 ^ (53 - d)) as ->.
      { rewrite <- Z.pow_add_r by lia. f_equal. lia. }
      apply Z.mul_le_mono_nonneg_r; [|assumption].
      apply Z.lt_le_incl, pow2_pos. lia.
    - assert (ex < F) as Hx by lia. destruct (Hlt Hx) as [Hb _].
      pose proof (pow2_pos (F - ex) ltac:(lia)).
      assert (0 <= Zpos mx / 2 ^ (F - ex)) by (apply Z.div_pos; lia).
      assert (F <> -1074 -> 2 ^ 52 <= m1) as H52.
      { intros Hne. assert (F = d + ex - 53) as HF' by lia.
        eapply Z.le_trans; [|apply Hb].
        replace (F - ex) with (d - 53) by lia.
        apply Z.div_le_lower_bound; [apply pow2_pos; lia|].
        rewrite <- Z.pow_add_r by lia.
        replace (d - 53 + 52) with (d - 1) by lia. exact B1. }
      split; [lia|]. split.
      + destruct (Z.eq_dec F (-1074)); [left; assumption | right; auto].
      + intros Hex'. assert (2 ^ 52 <= m1) by (apply H52; lia). lia. }
  exists m1. tauto.
Qed.

Lemma valid_finite_iff s m e :
  valid (S754_finite s m e) <->
  fexp B64.prec B64.emax (Zdigits2 (Zpos m) + e) = e /\ e <= 971.
Proof.
  unfold valid, valid_binary, bounded, canonical_mantissa.
  change (Z.pos (digits2_pos m)) with (Zdigits2 (Zpos m)).
  rewrite andb_true_iff, Z.eqb_eq, Z.leb_le. reflexivity.
Qed.

Lemma valid_finite_bounds s m e :
  valid (S754_finite s m e) ->
  -1074 <= e <= 971 /\ Zpos m < 2 ^ 53 /\ (e = -1074 \/ 2 ^ 52 <= Zpos m).
Proof.
  intros H. apply valid_finite_iff in H. destruct H as [H1 H2].
  rewrite fexp_eq in H1.
  pose proof (Zdigits2_bounds (Zpos m) ltac:(lia)) as [B1 B2].
  pose proof (Zdigits2_pos (Zpos m) ltac:(lia)).
  repeat split; try lia.
  - eapply Z.lt_le_trans; [exact B2|]. apply Z.pow_le_mono_r; lia.
  - destruct (Z.eq_dec e (-1074)); [left; assumption|right].
    eapply Z.le_trans; [|exact B1]. apply Z.pow_le_mono_r; lia.
Qed.

Lemma pack_valid s m1 F :
  0 <= m1 <= 2 ^ 53 -> -1074 <= F -> (F = -1074 \/ 2 ^ 52 <= m1) ->
  valid (pack s m1 F).
Proof.
  intros Hm HF Hc. unfold pack.
  destruct m1 as [|p|p]; try reflexivity.
  destruct (Z.ltb_spec (Zpos p) (2 ^ 53)) as [Hlt|Hge].
  - destruct (Z.leb_spec F 971); [|reflexivity].
    apply valid_finite_iff. split; [|assumption]. rewrite fexp_eq.
    assert (Zdigits2 (Zpos p) <= 53) by (apply Zdigits2_le; lia).
    destruct Hc as [->|Hc]; [lia|].
    assert (53 <= Zdigits2 (Zpos p)) by (apply Zdigits2_ge; [lia | exact Hc]).
    lia.
  - destruct (Z.leb_spec (F + 1) 971); [|reflexivity].
    apply valid_finite_iff. split; [|assumption]. rewrite fexp_eq.
    change (Zdigits2 4503599627370496) with 53. lia.
Qed.

Lemma pack_quanta s m1 F :
  0 <= m1 <= 2 ^ 53 -> -1074 <= F -> is_number (pack s m1 F) ->
  quanta (pack s m1 F) = cond_Zopp s (m1 * 2 ^ (F + 1074)).
Proof.
  intros Hm HF. unfold pack.
  destruct m1 as [|p|p]; try lia.
  - intros _. cbn. destruct s; reflexivity.
  - destruct (Z.ltb_spec (Zpos p) (2 ^ 53)) as [Hlt|Hge].
    + destruct (Z.leb_spec F 971); [|contradiction]. intros _. reflexivity.
    + destruct (Z.leb_spec (F + 1) 971); [|contradiction]. intros _.
      assert (Zpos p = 2 ^ 53) as -> by lia. cbn [quanta]. f_equal.
      replace (F + 1 + 1074) with (Z.succ (F + 1074)) by lia.
      rewrite Z.pow_succ_r by lia. change (2 ^ 53) with (4503599627370496 * 2). lia.
Qed.

Lemma pack_number s m1 F :
  0 <= m1 < 2 ^ 53 -> F <= 971 -> is_number (pack s m1 F).
Proof.
  intros Hm HF. unfold pack. destruct m1 as [|p|p]; try exact I.
  replace (Z.pos p <? 2 ^ 53) with true by (symmetry; apply Z.ltb_lt; lia).
  replace (F <=? 971) with true by (symmetry; apply Z.leb_le; lia).
  exact I.
Qed.

Lemma binary_round_valid s mx ex : valid (binary_round B64.prec B64.emax s mx ex).
Proof.
  destruct (binary_round_pack s mx ex) as (m1 & -> & H53 & _ & _ & H0 & Hc & _).
  apply pack_valid; try lia; try assumption.
  rewrite fexp_eq. lia.
Qed.

Lemma binary_normalize_valid m e sz : valid (binary_normalize B64.prec B64.emax m e sz).
Proof.
  destruct m; cbn [binary_normalize]; [reflexivity | apply binary_round_valid ..].
Qed.

Lemma pow2_split a b : 0 <= a -> 0 <= b -> 2 ^ (a + b) = 2 ^ a * 2 ^ b.
Proof. intros. apply Z.pow_add_r; assumption. Qed.

Lemma pow2_le a b : 0 <= a <= b -> 2 ^ a <= 2 ^ b.
Proof. intros. apply Z.pow_le_mono_r; lia. Qed.

Lemma pow2_lt_inv a b : 0 <= b -> 2 ^ a < 2 ^ b -> a < b.
Proof. intros Hb H. apply (Z.pow_lt_mono_r_iff 2); lia. Qed.

Lemma represents_zero s : represents (S754_zero s) 0.
Proof. repeat split. Qed.

(** Rounding is the identity on a value that fits the format: a multiple
    of [2 ^ g] quanta below [2 ^ (g + 53)]. *)
Lemma binary_round_exact s p E g :
  -1074 <= E -> 0 <= g <= 2045 ->
  (2 ^ g | Zpos p * 2 ^ (E + 1074)) ->
  Zpos p * 2 ^ (E + 1074) < 2 ^ (g + 53) ->
  represents (binary_round B64.prec B64.emax s p E)
             (cond_Zopp s (Zpos p * 2 ^ (E + 1074))).
Proof.
  intros HE Hg Hdiv Hlt.
  pose proof (binary_round_valid s p E) as Hvalid.
  destruct (binary_round_pack s p E) as (m1 & Hr & H53 & Hge & Hlow & _).
  rewrite Hr in *. clear Hr.
  set (d := Zdigits2 (Zpos p)) in *.
  pose proof (Zdigits2_bounds (Zpos p) ltac:(lia)) as [B1 B2]. fold d in B1, B2.
  pose proof (Zdigits2_pos (Zpos p) ltac:(lia)) as Hd. fold d in Hd.
  set (F := fexp B64.prec B64.emax (d + E)) in *.
  assert (F = Z.max (d + E - 53) (-1074)) as HF by (unfold F; apply fexp_eq).
  clearbody F.
  assert (d + E + 1073 < g + 53) as Hmag.
  { apply pow2_lt_inv; [lia|].
    eapply Z.le_lt_trans; [|exact Hlt].
    replace (d + E + 1073) with ((d - 1) + (E + 1074)) by lia.
    rewrite pow2_split by lia.
    apply Z.mul_le_mono_nonneg_r; [apply Z.lt_le_incl, pow2_pos; lia | exact B1]. }
  assert (m1 * 2 ^ (F + 1074) = Zpos p * 2 ^ (E + 1074) /\ 0 <= m1 < 2 ^ 53) as [Hval Hm1].
  { destruct (Z_le_gt_dec F E) as [Hle|Hgt].
    - rewrite (Hge Hle). split.
      + rewrite <- Z.mul_assoc, <- pow2_split by lia. do 2 f_equal. lia.
      + pose proof (pow2_pos (E - F) ltac:(lia)). split; [nia|].
        apply Z.lt_le_trans with (2 ^ d * 2 ^ (E - F)); [nia|].
        rewrite <- pow2_split by lia. apply pow2_le. lia.
    - assert (E < F) as Hx by lia. destruct (Hlow Hx) as [Hb Hex].
      assert (Zpos p mod 2 ^ (F - E) = 0) as Hmod.
      { destruct Hdiv as [c Hc].
        apply Z.mod_divide; [pose proof (pow2_pos (F - E)); lia|].
        exists (c * 2 ^ (g - (F + 1074))).
        assert (2 ^ g = 2 ^ (g - (F + 1074)) * 2 ^ (F - E) * 2 ^ (E + 1074)) as Eg.
        { rewrite <- !pow2_split by lia. f_equal. lia. }
        rewrite Eg in Hc.
        pose proof (pow2_pos (E + 1074) ltac:(lia)).
        apply (Z.mul_cancel_r _ _ (2 ^ (E + 1074))); [lia|]. rewrite Hc. ring. }
      specialize (Hex Hmod). split.
      + rewrite Hex.
        replace (F + 1074) with ((F - E) + (E + 1074)) by lia.
        rewrite pow2_split, Z.mul_assoc by lia. f_equal.
        pose proof (Z.div_mod (Zpos p) (2 ^ (F - E))) as Hdm.
        pose proof (pow2_pos (F - E) ltac:(lia)).
        rewrite Hmod in Hdm. lia.
      + rewrite Hex. pose proof (pow2_pos (F - E) ltac:(lia)). split.
        * apply Z.div_pos; lia.
        * apply div_lt_pow2; try lia.
          eapply Z.lt_le_trans; [exact B2|]. apply pow2_le. lia. }
  assert (is_number (pack s m1 F)) as Hnum by (apply pack_number; lia).
  repeat split; try assumption.
  rewrite pack_quanta by (try assumption; lia). rewrite Hval. reflexivity.
Qed.

Lemma binary_normalize_exact S E sz g :
  -1074 <= E -> 0 <= g <= 2045 ->
  (2 ^ g | S * 2 ^ (E + 1074)) ->
  Z.abs (S * 2 ^ (E + 1074)) < 2 ^ (g + 53) ->
  represents (binary_normalize B64.prec B64.emax S E sz) (S * 2 ^ (E + 1074)).
Proof.
  intros HE Hg Hdiv Hlt. pose proof (pow2_pos (E + 1074) ltac:(lia)) as Hp.
  destruct S as [|p|p]; cbn [binary_normalize].
  - apply represents_zero.
  - apply (binary_round_exact false p E g); try assumption. lia.
  - replace (Z.neg p * 2 ^ (E + 1074)) with (cond_Zopp true (Zpos p * 2 ^ (E + 1074)))
      by (cbn [cond_Zopp]; lia).
    apply (binary_round_exact true p E g); try assumption.
    + destruct Hdiv as [c Hc]. exists (- c). lia.
    + lia.
Qed.

(** Conversion of an int below [2 ^ 53] is exact. *)
Lemma of_Z_exact n :
  Z.abs n < 2 ^ 53 -> represents (B64.of_Z n) (n * 2 ^ 1074).
Proof.
  intros H. unfold B64.of_Z.
  apply (binary_normalize_exact n 0 false 1074); [lia | lia | |].
  - exists n. reflexivity.
  - change (0 + 1074) with 1074. change (1074 + 53) with (53 + 1074).
    rewrite (pow2_split 53 1074) by lia.
    pose proof (pow2_pos 1074 ltac:(lia)). rewrite Z.abs_mul.
    rewrite (Z.abs_eq (2 ^ 1074)) by lia. nia.
Qed.

Lemma int_to_float_exact n :
  Z.abs n < 2 ^ 53 ->
  exists x, int_to_float n = Ok x /\ represents x (n * 2 ^ 1074).
Proof.
  intros H. pose proof (of_Z_exact n H) as (Hv & Hn & Hq).
  exists (B64.of_Z n). split; [|repeat split; assumption].
  unfold int_to_float. destruct (B64.of_Z n); try reflexivity; contradiction.
Qed.

Lemma aligned_quanta s m e ez :
  -1074 <= ez <= e ->
  cond_Zopp s (Zpos (fst (shl_align m e ez))) * 2 ^ (ez + 1074)
  = quanta (S754_finite s m e).
Proof.
  intros H. pose proof (shl_align_spec m e ez) as [_ Hm]. rewrite Hm.
  replace (Z.min e ez) with ez by lia. cbn [quanta].
  replace (e + 1074) with ((e - ez) + (ez + 1074)) by lia.
  rewrite (pow2_split (e - ez) (ez + 1074)) by lia.
  destruct s; cbn [cond_Zopp]; ring.
Qed.

Lemma add_exact x y vx vy g :
  represents x vx -> represents y vy ->
  0 <= g <= 2045 -> (2 ^ g | vx + vy) -> Z.abs (vx + vy) < 2 ^ (g + 53) ->
  represents (B64.add x y) (vx + vy).
Proof.
  intros (Hxv & Hxn & Hxq) (Hyv & Hyn & Hyq) Hg Hdiv Hlt.
  destruct x as [sx|sx| |sx mx ex], y as [sy|sy| |sy my ey];
    try contradiction; cbn [quanta] in Hxq, Hyq.
  - subst. destruct sx, sy; apply represents_zero.
  - subst vx. cbn [B64.add SFadd]. rewrite Z.add_0_l. repeat split; assumption.
  - subst vy. cbn [B64.add SFadd]. rewrite Z.add_0_r. repeat split; assumption.
  - pose proof (valid_finite_bounds _ _ _ Hxv) as (Hex & _).
    pose proof (valid_finite_bounds _ _ _ Hyv) as (Hey & _).
    unfold B64.add, SFadd. fold B64.prec B64.emax.
    set (ez := Z.min ex ey).
    set (S := _ + _).
    assert (S * 2 ^ (ez + 1074) = vx + vy) as HS.
    { unfold S. rewrite Z.mul_add_distr_r.
      rewrite !aligned_quanta by (unfold ez; lia). cbn [quanta]. congruence. }
    rewrite <- HS in *.
    apply (binary_normalize_exact S ez false g); try assumption. unfold ez; lia.
Qed.

Lemma sub_exact x y vx vy g :
  represents x vx -> represents y vy ->
  0 <= g <= 2045 -> (2 ^ g | vx - vy) -> Z.abs (vx - vy) < 2 ^ (g + 53) ->
  represents (B64.sub x y) (vx - vy).
Proof.
  intros (Hxv & Hxn & Hxq) (Hyv & Hyn & Hyq) Hg Hdiv Hlt.
  destruct x as [sx|sx| |sx mx ex], y as [sy|sy| |sy my ey];
    try contradiction; cbn [quanta] in Hxq, Hyq.
  - subst. destruct sx, sy; apply represents_zero.
  - subst vx vy. cbn [B64.sub SFsub]. rewrite Z.sub_0_l. repeat split; try assumption.
    cbn [quanta]. destruct sy; cbn [cond_Zopp negb]; lia.
  - subst vy. cbn [B64.sub SFsub]. rewrite Z.sub_0_r. repeat split; assumption.
  - pose proof (valid_finite_bounds _ _ _ Hxv) as (Hex & _).
    pose proof (valid_finite_bounds _ _ _ Hyv) as (Hey & _).
    unfold B64.sub, SFsub. fold B64.prec B64.emax.
    set (ez := Z.min ex ey).
    set (S := _ - _).
    assert (S * 2 ^ (ez + 1074) = vx - vy) as HS.
    { unfold S. rewrite Z.mul_sub_distr_r.
      rewrite !aligned_quanta by (unfold ez; lia). cbn [quanta]. congruence. }
    rewrite <- HS in *.
    apply (binary_normalize_exact S ez false g); try assumption. unfold ez; lia.
Qed.

(** ** Comparisons read the value *)

Lemma mul_compare_r n m p : 0 < p -> (n * p ?= m * p) = (n ?= m).
Proof. intros H. symmetry. apply Zmult_compare_compat_r. lia. Qed.

Lemma compare_Z_quanta n x :
  valid x -> is_number x ->
  B64.compare_Z n x = Some (n * 2 ^ 1074 ?= quanta x).
Proof.
  intros Hv Hn. pose proof (pow2_pos 1074 ltac:(lia)) as HU.
  destruct x as [s|s| |s m e]; try contradiction; cbn [B64.compare_Z quanta].
  - f_equal. rewrite <- (Z.mul_0_l (2 ^ 1074)).
    symmetry. apply mul_compare_r. assumption.
  - pose proof (valid_finite_bounds _ _ _ Hv) as (He & _). f_equal.
    destruct (Z.leb_spec 0 e) as [H0|H0].
    + replace (cond_Zopp s (Z.pos m * 2 ^ (e + 1074)))
        with (cond_Zopp s (Z.pos m) * 2 ^ e * 2 ^ 1074).
      * symmetry. apply mul_compare_r. assumption.
      * rewrite (pow2_split e 1074) by lia. destruct s; cbn [cond_Zopp]; ring.
    + pose proof (pow2_pos (e + 1074) ltac:(lia)) as Hp.
      rewrite <- (mul_compare_r _ _ (2 ^ (e + 1074))) by assumption.
      f_equal.
      * rewrite <- Z.mul_assoc, <- pow2_split by lia. do 2 f_equal. lia.
      * destruct s; cbn [cond_Zopp]; ring.
Qed.

Lemma canonical_lt s1 m1 e1 s2 m2 e2 :
  valid (S754_finite s1 m1 e1) -> valid (S754_finite s2 m2 e2) -> e1 < e2 ->
  Zpos m1 * 2 ^ (e1 + 1074) < Zpos m2 * 2 ^ (e2 + 1074).
Proof.
  intros H1 H2 Hlt.
  pose proof (valid_finite_bounds _ _ _ H1) as (He1 & Hm1 & _).
  pose proof (valid_finite_bounds _ _ _ H2) as (He2 & _ & Hc2).
  destruct Hc2 as [->|Hc2]; [lia|].
  pose proof (pow2_pos (e1 + 1074) ltac:(lia)) as Hp.
  apply Z.lt_le_trans with (2 ^ 53 * 2 ^ (e1 + 1074)).
  - apply Z.mul_lt_mono_pos_r; assumption.
  - apply Z.le_trans with (2 ^ 52 * 2 ^ (e2 + 1074)).
    + change (2 ^ 53) with (2 ^ 52 * 2 ^ 1). rewrite <- Z.mul_assoc.
      apply Z.mul_le_mono_nonneg_l; [lia|].
      rewrite <- pow2_split by lia. apply pow2_le. lia.
    + apply Z.mul_le_mono_nonneg_r; [apply Z.lt_le_incl, pow2_pos; lia | assumption].
Qed.

Lemma SFcompare_quanta x y :
  valid x -> is_number x -> valid y -> is_number y ->
  SFcompare x y = Some (quanta x ?= quanta y).
Proof.
  intros Hxv Hxn Hyv Hyn.
  destruct x as [sx|sx| |sx mx ex], y as [sy|sy| |sy my ey];
    try contradiction; cbn [SFcompare quanta].
  - reflexivity.
  - pose proof (valid_finite_bounds _ _ _ Hyv) as (He & _).
    pose proof (pow2_pos (ey + 1074) ltac:(lia)).
    f_equal. destruct sy; cbn [cond_Zopp]; symmetry;
      [apply Z.compare_gt_iff | apply Z.compare_lt_iff]; lia.
  - pose proof (valid_finite_bounds _ _ _ Hxv) as (He & _).
    pose proof (pow2_pos (ex + 1074) ltac:(lia)).
    f_equal. destruct sx; cbn [cond_Zopp]; symmetry;
      [apply Z.compare_lt_iff | apply Z.compare_gt_iff]; lia.
  - pose proof (valid_finite_bounds _ _ _ Hxv) as (Hex & _).
    pose proof (valid_finite_bounds _ _ _ Hyv) as (Hey & _).
    pose proof (pow2_pos (ex + 1074) ltac:(lia)) as Hpx.
    pose proof (pow2_pos (ey + 1074) ltac:(lia)) as Hpy.
    assert (match ex ?= ey with
            | Lt => Lt
            | Gt => Gt
            | Eq => Pos.compare_cont Eq mx my
            end = (Zpos mx * 2 ^ (ex + 1074) ?= Zpos my * 2 ^ (ey + 1074))) as Hpos.
    { destruct (Z.compare_spec ex ey) as [->|Hlt|Hgt].
      - rewrite mul_compare_r by assumption. reflexivity.
      - symmetry. apply Z.compare_lt_iff. eapply canonical_lt; eassumption.
      - symmetry. apply Z.compare_gt_iff. eapply canonical_lt; eassumption. }
    f_equal. destruct sx, sy; cbn [cond_Zopp].
    + rewrite Z.compare_opp, (Z.compare_antisym (Zpos mx * _)), <- Hpos.
      destruct (ex ?= ey); reflexivity.
    + symmetry. apply Z.compare_lt_iff. lia.
    + symmetry. apply Z.compare_gt_iff. lia.
    + exact Hpos.
Qed.

(** ** Quotients are valid floats *)

Lemma binary_round_aux_valid s M E l :
  0 <= M -> E <= fexp B64.prec B64.emax (Zdigits2 M + E) ->
  valid (binary_round_aux B64.prec B64.emax s M E l).
Proof.
  intros HM HE.
  destruct (binary_round_aux_pack s M E l HM) as (m1 & -> & Hb & H53 & _).
  assert (target M E = fexp B64.prec B64.emax (Zdigits2 M + E)) as Ht
    by (unfold target; lia).
  rewrite Ht in *. rewrite fexp_eq in *.
  set (F := Z.max (Zdigits2 M + E - 53) (-1074)) in *.
  pose proof (pow2_pos (F - E) ltac:(lia)) as Hp.
  assert (0 <= M / 2 ^ (F - E)) by (apply Z.div_pos; lia).
  apply pack_valid; try lia.
  destruct (Z.eq_dec F (-1074)) as [|Hne]; [left; assumption | right].
  assert (0 < M) as Hpos.
  { destruct (Z.eq_dec M 0) as [->|]; [|lia]. cbn in F. lia. }
  pose proof (Zdigits2_bounds M Hpos) as [B1 _].
  eapply Z.le_trans; [|apply Hb].
  replace (F - E) with (Zdigits2 M - 53) by lia.
  apply Z.div_le_lower_bound; [apply pow2_pos; lia|].
  rewrite <- pow2_split by lia.
  replace (Zdigits2 M - 53 + 52) with (Zdigits2 M - 1) by lia. exact B1.
Qed.

Lemma div_core_valid s m1 e1 m2 e2 :
  0 < m1 -> 0 < m2 ->
  valid (let '(q, e, l) := SFdiv_core_binary B64.prec B64.emax m1 e1 m2 e2 in
         binary_round_aux B64.prec B64.emax s q e l).
Proof.
  intros H1 H2. unfold SFdiv_core_binary.
  set (d1 := Zdigits2 m1). set (d2 := Zdigits2 m2).
  set (e' := Z.min _ _).
  set (m' := match e1 - e2 - e' with Z.pos _ => _ | _ => _ end).
  assert (e' <= fexp B64.prec B64.emax (d1 + e1 - (d2 + e2)) /\ e' <= e1 - e2)
    as [He1 He2] by (unfold e'; lia).
  assert (m' = m1 * 2 ^ (e1 - e2 - e')) as Hm'.
  { unfold m'. destruct (e1 - e2 - e') as [|p|p] eqn:Es; try lia.
    rewrite Z.shiftl_mul_pow2 by lia. reflexivity. }
  clearbody m'. clearbody e'.
  pose proof (pow2_pos (e1 - e2 - e') ltac:(lia)) as Hps.
  pose proof (Z.div_eucl_eq m' m2 ltac:(lia)) as Hdm.
  pose proof (Z.mod_pos_bound m' m2 H2) as Hr.
  unfold Z.modulo in Hr.
  destruct (Z.div_eucl m' m2) as [q r].
  assert (0 <= q) as Hq by nia.
  apply binary_round_aux_valid; [assumption|].
  rewrite fexp_eq in *.
  destruct (Z_le_gt_dec e' (-1074)) as [|Hgt]; [lia|].
  assert (e' <= d1 + e1 - (d2 + e2) - 53) as He by lia.
  pose proof (Zdigits2_bounds m1 H1) as [B1 _]. fold d1 in B1.
  pose proof (Zdigits2_bounds m2 H2) as [_ B2]. fold d2 in B2.
  pose proof (Zdigits2_pos m1 H1) as Hd1. fold d1 in Hd1.
  pose proof (Zdigits2_pos m2 H2) as Hd2. fold d2 in Hd2.
  assert (2 ^ 52 <= q) as Hq52.
  { assert (2 ^ (d2 + 52) <= m') as Hbig.
    { subst m'. apply Z.le_trans with (2 ^ (d1 - 1) * 2 ^ (e1 - e2 - e')).
      - rewrite <- pow2_split by lia. apply pow2_le. lia.
      - apply Z.mul_le_mono_nonneg_r; lia. }
    rewrite pow2_split in Hbig by lia.
    assert (m2 * 2 ^ 52 <= m2 * q + r) as Hx by nia.
    destruct (Z_le_gt_dec (2 ^ 52) q); [assumption|]. nia. }
  assert (53 <= Zdigits2 q) by (apply Zdigits2_ge; [lia | exact Hq52]).
  lia.
Qed.

Lemma div_valid x y : valid (B64.div x y).
Proof.
  destruct x as [sx|sx| |sx mx ex], y as [sy|sy| |sy my ey]; try reflexivity.
  unfold B64.div, SFdiv. apply div_core_valid; lia.
Qed.

Lemma of_quotient_valid a b : b <> 0 -> valid (B64.of_quotient a b).
Proof.
  intros Hb. unfold B64.of_quotient. destruct a as [|p|p]; try reflexivity;
    apply div_core_valid; lia.
Qed.

Lemma py_truediv_valid a n x :
  py_truediv a (PInt n) = Ok (PFloat x) -> valid x.
Proof.
  unfold py_truediv. destruct a as [k|y].
  - destruct (Z.eqb_spec n 0) as [|Hn]; [discriminate|].
    pose proof (of_quotient_valid k n Hn) as Hv.
    destruct (B64.of_quotient k n); intros H; try discriminate;
      injection H as <-; exact Hv.
  - cbn [as_float bind]. intros H. inv_bind H.
    destruct (B64.is_zero v); [discriminate|]. injection H as <-. apply div_valid.
Qed.

Lemma pack_positive s m1 F :
  0 < m1 ->
  pack s m1 F = S754_infinity s \/ exists m e, pack s m1 F = S754_finite s m e.
Proof.
  intros H. unfold pack. destruct m1 as [|p|p]; try lia.
  destruct (_ <? _); [destruct (_ <=? _) | destruct (_ <=? _)]; eauto.
Qed.

Lemma binary_round_nonzero s p E :
  -1074 <= E ->
  binary_round B64.prec B64.emax s p E = S754_infinity s \/
  exists m e, binary_round B64.prec B64.emax s p E = S754_finite s m e.
Proof.
  intros HE.
  destruct (binary_round_pack s p E) as (m1 & -> & _ & _ & _ & _ & _ & Hpos).
  apply pack_positive. auto.
Qed.

Lemma normalize_negative S E sz :
  S < 0 -> -1074 <= E -> is_negative (binary_normalize B64.prec B64.emax S E sz).
Proof.
  intros HS HE. destruct S as [|p|p]; try lia. cbn [binary_normalize].
  destruct (binary_round_nonzero true p E HE) as [-> | (m & e & ->)]; exact I.
Qed.

Lemma quanta_sign_false m e : -1074 <= e -> 0 < quanta (S754_finite false m e).
Proof.
  intros H. cbn [quanta cond_Zopp].
  apply Z.mul_pos_pos; [lia | apply pow2_pos; lia].
Qed.

Lemma quanta_sign_true m e : -1074 <= e -> quanta (S754_finite true m e) < 0.
Proof.
  intros H. cbn [quanta cond_Zopp].
  assert (0 < Zpos m * 2 ^ (e + 1074))
    by (apply Z.mul_pos_pos; [lia | apply pow2_pos; lia]).
  lia.
Qed.

Lemma sub_valid x y : valid x -> valid y -> valid (B64.sub x y).
Proof.
  intros Hx Hy. destruct x as [sx|sx| |sx mx ex], y as [sy|sy| |sy my ey];
    try reflexivity; try assumption.
  - destruct sx, sy; reflexivity.
  - destruct sx, sy; reflexivity.
  - apply binary_normalize_valid.
Qed.

Lemma add_valid x y : valid x -> valid y -> valid (B64.add x y).
Proof.
  intros Hx Hy. destruct x as [sx|sx| |sx mx ex], y as [sy|sy| |sy my ey];
    try reflexivity; try assumption.
  - destruct sx, sy; reflexivity.
  - destruct sx, sy; reflexivity.
  - apply binary_normalize_valid.
Qed.

Lemma is_negative_cases x :
  valid x -> is_negative x ->
  x = S754_infinity true \/ (is_number x /\ quanta x < 0).
Proof.
  intros Hv Hn. destruct x as [?|[]| |[] m e]; cbn in Hn; try contradiction; auto.
  right. split; [exact I|]. apply quanta_sign_true.
  apply (valid_finite_bounds _ _ _ Hv).
Qed.

(** Subtracting more than there is gives a negative float. *)
Lemma sub_negative x y :
  valid x -> valid y -> is_number y ->
  x = S754_infinity true \/ (is_number x /\ quanta x < quanta y) ->
  is_negative (B64.sub x y).
Proof.
  intros Hxv Hyv Hyn [->|[Hxn Hlt]].
  - destruct y; try contradiction; exact I.
  - destruct x as [sx|sx| |sx mx ex], y as [sy|sy| |sy my ey]; try contradiction.
    + cbn in Hlt. lia.
    + pose proof (valid_finite_bounds _ _ _ Hyv) as (He & _).
      destruct sy; [|exact I].
      pose proof (quanta_sign_true my ey ltac:(lia)).
      change (quanta (S754_zero sx)) with 0 in Hlt. lia.
    + pose proof (valid_finite_bounds _ _ _ Hxv) as (He & _).
      destruct sx; [exact I|].
      pose proof (quanta_sign_false mx ex ltac:(lia)).
      change (quanta (S754_zero sy)) with 0 in Hlt. lia.
    + pose proof (valid_finite_bounds _ _ _ Hxv) as (Hex & _).
      pose proof (valid_finite_bounds _ _ _ Hyv) as (Hey & _).
      unfold B64.sub, SFsub. fold B64.prec B64.emax.
      set (ez := Z.min ex ey).
      set (S := _ - _).
      assert (S * 2 ^ (ez + 1074) = quanta (S754_finite sx mx ex)
                                    - quanta (S754_finite sy my ey)) as HS.
      { unfold S. rewrite Z.mul_sub_distr_r.
        rewrite !aligned_quanta by (unfold ez; lia). reflexivity. }
      pose proof (pow2_pos (ez + 1074) ltac:(unfold ez; lia)) as Hp.
      apply normalize_negative; [|unfold ez; lia].
      destruct (Z_lt_ge_dec S 0); [assumption|]. nia.
Qed.

Lemma py_lt_negative x : is_negative x -> py_lt (PFloat x) (PInt 0) = true.
Proof.
  destruct x as [?|[]| |[] m e]; cbn [is_negative]; try contradiction; intros _.
  - reflexivity.
  - unfold py_lt, py_compare, B64.compare_Z. cbn [cond_Zopp option_map].
    destruct (Z.leb_spec 0 e).
    + pose proof (pow2_pos e ltac:(lia)).
      assert ((0 ?= - Z.pos m * 2 ^ e) = Gt) as -> by (apply Z.compare_gt_iff; nia).
      reflexivity.
    + reflexivity.
Qed.

(** Conversion of a non-negative int: exact below [2 ^ 53], and at least
    [2 ^ 53] from there on. *)
Lemma int_to_float_nonneg n y :
  0 <= n -> int_to_float n = Ok y ->
  valid y /\ is_number y /\
  (n < 2 ^ 53 -> quanta y = n * 2 ^ 1074) /\
  (2 ^ 53 <= n -> 2 ^ 53 * 2 ^ 1074 <= quanta y).
Proof.
  intros Hn H. pose proof (int_to_float_number _ _ H) as Hnum.
  assert (y = B64.of_Z n) as ->.
  { unfold int_to_float in H. destruct (B64.of_Z n); congruence. }
  split; [apply binary_normalize_valid|]. split; [assumption|]. split.
  - intros Hlt. apply of_Z_exact. lia.
  - intros Hge. unfold B64.of_Z in *.
    destruct n as [|p|p]; try lia. cbn [binary_normalize] in *.
    destruct (binary_round_pack false p 0) as (m1 & Hr & H53 & _ & _ & H0 & Hc & _).
    rewrite Hr in *. rewrite fexp_eq in *.
    pose proof (Zdigits2_ge (Zpos p) 54 ltac:(lia) Hge) as Hd.
    set (F := Z.max (Zdigits2 (Z.pos p) + 0 - 53) (-1074)) in *.
    assert (1 <= F) as HF by lia.
    destruct Hc as [Hc|Hc]; [lia|].
    rewrite pack_quanta by (try assumption; lia). cbn [cond_Zopp].
    assert (2 ^ 52 * 2 ^ 1 * 2 ^ 1074 <= m1 * 2 ^ F * 2 ^ 1074) as Hx.
    { apply Z.mul_le_mono_nonneg_r; [apply Z.lt_le_incl, pow2_pos; lia|].
      apply Z.mul_le_mono_nonneg; try lia. apply pow2_le. lia. }
    change (2 ^ 53) with (2 ^ 52 * 2 ^ 1).
    rewrite (pow2_split F 1074) by lia. lia.
Qed.

(** ** Exact arithmetic inside a window *)

Lemma window_of m :
  valid m -> is_number m -> 0 <= quanta m < 2 ^ 53 * 2 ^ 1074 ->
  exists g, in_window (quanta m) g.
Proof.
  intros Hv Hn Hq. destruct m as [s|s| |s mm em]; try contradiction.
  - exists 1074. cbn [quanta]. split; [lia|]. split; [apply Z.divide_0_r|].
    split; [lia | apply pow2_pos; lia].
  - pose proof (valid_finite_bounds _ _ _ Hv) as (He & Hm & _).
    destruct s; [pose proof (quanta_sign_true mm em ltac:(lia)); lia|].
    cbn [quanta cond_Zopp] in *.
    destruct (Z_le_gt_dec 0 em) as [Hpos|Hneg].
    + exists 1074. split; [lia|]. split.
      * exists (Zpos mm * 2 ^ em). rewrite (pow2_split em 1074) by lia. ring.
      * change (1074 + 53) with (53 + 1074). rewrite (pow2_split 53 1074); lia.
    + exists (em + 1074). split; [lia|]. split.
      * exists (Zpos mm). reflexivity.
      * split; [lia|].
        replace (em + 1074 + 53) with (53 + (em + 1074)) by lia.
        rewrite (pow2_split 53 (em + 1074)) by lia.
        apply Z.mul_lt_mono_pos_r; [apply pow2_pos; lia | assumption].
Qed.

Lemma window_unit vm g n : in_window vm g -> (2 ^ g | n * 2 ^ 1074).
Proof.
  intros (Hg & _). exists (n * 2 ^ (1074 - g)).
  rewrite <- Z.mul_assoc, <- pow2_split by lia. do 2 f_equal. lia.
Qed.

Lemma window_small vm g n :
  in_window vm g -> 0 <= n -> n * 2 ^ 1074 <= vm -> n < 2 ^ 53.
Proof.
  intros (Hg & _ & Hvm) Hn Hle.
  pose proof (pow2_pos 1074 ltac:(lia)) as HU.
  assert (2 ^ (g + 53) <= 2 ^ 53 * 2 ^ 1074) as Hb.
  { rewrite <- pow2_split by lia. apply pow2_le. lia. }
  destruct (Z_lt_ge_dec n (2 ^ 53)); [assumption|]. nia.
Qed.

Lemma running_step vm g x v n r :
  in_window vm g -> running vm g x v -> 0 <= n ->
  py_sub (PFloat x) (PInt n) = Ok r ->
  exists y, r = PFloat y /\ running vm g y (v - n * 2 ^ 1074).
Proof.
  intros Hw Hrun Hn. unfold py_sub. cbn [as_float bind]. intros H.
  inv_bind H. injection H as <-. rename v0 into y.
  destruct (int_to_float_nonneg n y Hn E) as (Hyv & Hyn & Hsmall & Hbig).
  pose proof (pow2_pos 1074 ltac:(lia)) as HU.
  exists (B64.sub x y). split; [reflexivity|].
  destruct Hrun as [((Hxv & Hxn & Hxq) & Hv & Hdiv) | (Hneg & Hxv & Hxn)].
  - destruct (Z_le_gt_dec (n * 2 ^ 1074) v) as [Hle|Hgt].
    + left. assert (n < 2 ^ 53) as Hn53 by (eapply window_small; eauto; lia).
      specialize (Hsmall Hn53).
      assert (2 ^ g | v - n * 2 ^ 1074) as Hdiv'
        by (apply Z.divide_sub_r; [assumption | eapply window_unit; eassumption]).
      split; [|split; [lia | assumption]].
      destruct Hw as (Hg & _ & Hvm).
      apply (sub_exact x y v (n * 2 ^ 1074) g);
        [ repeat split; assumption | repeat split; assumption | lia | assumption
        | rewrite Z.abs_eq by lia; lia ].
    + right. split; [lia|]. split; [apply sub_valid; assumption|].
      apply sub_negative; try assumption. right. split; [assumption|].
      rewrite Hxq. destruct (Z_lt_ge_dec n (2 ^ 53)) as [Hlt|Hge].
      * rewrite (Hsmall Hlt). lia.
      * specialize (Hbig ltac:(lia)). destruct Hw as (Hg & _ & Hvm).
        assert (2 ^ (g + 53) <= 2 ^ 53 * 2 ^ 1074) as Hb.
        { rewrite <- pow2_split by lia. apply pow2_le. lia. }
        lia.
  - right. split; [nia|]. split; [apply sub_valid; assumption|].
    apply sub_negative; try assumption.
    destruct (is_negative_cases x Hxv Hxn) as [->|[Hnum Hq]]; [left; reflexivity|].
    right. split; [assumption|].
    assert (0 <= quanta y).
    { destruct (Z_lt_ge_dec n (2 ^ 53)) as [Hlt|Hge].
      - rewrite (Hsmall Hlt). nia.
      - specialize (Hbig ltac:(lia)). nia. }
    lia.
Qed.

Lemma running_start m :
  valid m -> is_number m -> quanta m < 2 ^ 53 * 2 ^ 1074 ->
  exists vm g, in_window vm g /\ running vm g m (quanta m) /\
               (0 <= quanta m -> vm = quanta m).
Proof.
  intros Hv Hn Hq. destruct (Z_lt_ge_dec (quanta m) 0) as [Hneg|Hpos].
  - exists 0, 1074. split; [|split; [|lia]].
    + split; [lia|]. split; [apply Z.divide_0_r|].
      split; [lia | apply pow2_pos; lia].
    + right. split; [assumption|]. split; [assumption|].
      destruct m as [s|s| |[] mm em]; try contradiction; try exact I.
      * cbn in Hneg. lia.
      * pose proof (valid_finite_bounds _ _ _ Hv) as (He & _).
        pose proof (quanta_sign_false mm em ltac:(lia)). lia.
  - destruct (window_of m Hv Hn ltac:(lia)) as (g & Hw).
    exists (quanta m), g. split; [assumption|]. split; [|reflexivity].
    left. destruct Hw as (Hg & Hdiv & Hvm).
    repeat split; try assumption; lia.
Qed.

Lemma window_grid vm g k : in_window vm g -> (2 ^ g | vm - k * 2 ^ 1074).
Proof.
  intros Hw. apply Z.divide_sub_r; [apply Hw | eapply window_unit; eassumption].
Qed.

Lemma py_add_int_float_exact vm g n x vx :
  in_window vm g -> represents x vx -> (2 ^ g | vx) ->
  0 <= n -> 0 <= vx -> n * 2 ^ 1074 + vx <= vm ->
  exists y, py_add (PInt n) (PFloat x) = Ok (PFloat y) /\
            represents y (n * 2 ^ 1074 + vx).
Proof.
  intros Hw Hx Hdiv Hn Hvx Hle.
  pose proof (pow2_pos 1074 ltac:(lia)) as HU.
  assert (n < 2 ^ 53) as Hn53 by (eapply window_small; eauto; nia).
  destruct (int_to_float_exact n ltac:(lia)) as (y & Ey & Hy).
  unfold py_add. cbn [as_float bind]. rewrite Ey. cbn [bind].
  eexists. split; [reflexivity|].
  pose proof Hw as (Hg & Hdm & Hvm).
  assert (0 <= n * 2 ^ 1074) by nia.
  apply (add_exact y x _ _ g);
    [ exact Hy | exact Hx | lia
    | apply Z.divide_add_r; [apply (window_unit vm g n) |]; assumption
    | rewrite Z.abs_eq by lia; lia ].
Qed.

Lemma py_add_float_int_exact vm g n x vx :
  in_window vm g -> represents x vx -> (2 ^ g | vx) ->
  0 <= n -> 0 <= vx -> vx + n * 2 ^ 1074 <= vm ->
  exists y, py_add (PFloat x) (PInt n) = Ok (PFloat y) /\
            represents y (vx + n * 2 ^ 1074).
Proof.
  intros Hw Hx Hdiv Hn Hvx Hle.
  pose proof (pow2_pos 1074 ltac:(lia)) as HU.
  assert (n < 2 ^ 53) as Hn53 by (eapply window_small; eauto; nia).
  destruct (int_to_float_exact n ltac:(lia)) as (y & Ey & Hy).
  unfold py_add. cbn [as_float bind]. rewrite Ey. cbn [bind].
  eexists. split; [reflexivity|].
  pose proof Hw as (Hg & Hdm & Hvm).
  assert (0 <= n * 2 ^ 1074) by nia.
  apply (add_exact x y _ _ g);
    [ exact Hx | exact Hy | lia
    | apply Z.divide_add_r; [| apply (window_unit vm g n)]; assumption
    | rewrite Z.abs_eq by lia; lia ].
Qed.

Lemma py_lt_float_int x k :
  valid x -> is_number x ->
  py_lt (PFloat x) (PInt k) = (quanta x <? k * 2 ^ 1074).
Proof.
  intros Hv Hn. unfold py_lt, py_compare.
  rewrite (compare_Z_quanta k x Hv Hn). cbn [option_map].
  rewrite Z.ltb_compare, (Z.compare_antisym (k * 2 ^ 1074)).
  destruct (k * 2 ^ 1074 ?= quanta x); reflexivity.
Qed.

Lemma py_le_int_float k x :
  valid x -> is_number x ->
  py_le (PInt k) (PFloat x) = (k * 2 ^ 1074 <=? quanta x).
Proof.
  intros Hv Hn. unfold py_le, py_compare.
  rewrite (compare_Z_quanta k x Hv Hn).
  rewrite Z.leb_compare. destruct (k * 2 ^ 1074 ?= quanta x); reflexivity.
Qed.


Lemma py_eq_floats x y :
  valid x -> is_number x -> valid y -> is_number y ->
  py_eq (PFloat x) (PFloat y) = (quanta x =? quanta y).
Proof.
  intros. unfold py_eq, py_compare. rewrite SFcompare_quanta by assumption.
  rewrite Z.eqb_compare. destruct (quanta x ?= quanta y); reflexivity.
Qed.

(** The three subtractions of [residual]. *)
Lemma residual_running vm g m v b h p r :
  in_window vm g -> running vm g m v ->
  0 <= b -> 0 <= h -> 0 <= p ->
  residual (PFloat m) (PInt b) (PInt h) (PInt p) = Ok r ->
  exists y, r = PFloat y /\ running vm g y (v - (b + h + p) * 2 ^ 1074).
Proof.
  intros Hw Hrun Hb Hh Hp. unfold residual. intros H. inv_binds H.
  destruct (running_step _ _ _ _ _ _ Hw Hrun Hb E) as (y1 & -> & H1).
  destruct (running_step _ _ _ _ _ _ Hw H1 Hh E0) as (y2 & -> & H2).
  destruct (running_step _ _ _ _ _ _ Hw H2 Hp H) as (y3 & -> & H3).
  exists y3. split; [reflexivity|].
  replace (v - (b + h + p) * 2 ^ 1074)
    with (v - b * 2 ^ 1074 - h * 2 ^ 1074 - p * 2 ^ 1074) by ring.
  exact H3.
Qed.

Lemma running_exact vm g x v :
  running vm g x v -> py_lt (PFloat x) (PInt 0) = false ->
  represents x v /\ 0 <= v <= vm /\ (2 ^ g | v).
Proof.
  intros [H|(_ & _ & Hneg)] Hlt; [assumption|].
  rewrite py_lt_negative in Hlt by assumption. discriminate.
Qed.

Lemma running_nonneg vm g x v :
  running vm g x v -> 0 <= v -> represents x v /\ 0 <= v <= vm /\ (2 ^ g | v).
Proof. intros [H|(Hneg & _)] Hv; [assumption | lia]. Qed.

(** A run whose amounts are non-negative, whose monthly CTC is below
    [2 ^ 53] and whose special allowance is not floored computes every
    difference and sum exactly. *)
Lemma exact_run a bp hp pf pt st l m b h p e :
  calculate_locals a bp hp pf pt st = Ok l ->
  l_monthly_ctc l = PFloat m -> l_basic l = PInt b -> l_hra l = PInt h ->
  l_employer_pf l = PInt p -> l_employer_esi l = PInt e ->
  0 <= b -> 0 <= h -> 0 <= p -> 0 <= e ->
  py_lt (PFloat m) (PInt (2 ^ 53)) = true ->
  py_lt (l_special_allowance_raw l) (PInt 0) = false ->
  exists g s gr,
    in_window (quanta m) g /\ valid m /\ is_number m /\
    (b + h + p + e) * 2 ^ 1074 <= quanta m /\
    l_special_allowance l = PFloat s /\
    represents s (quanta m - (b + h + p + e) * 2 ^ 1074) /\
    l_gross_salary l = PFloat gr /\
    represents gr (quanta m - (p + e) * 2 ^ 1074).
Proof.
  intros Hl Em Eb Eh Ep Ee Hb Hh Hp He Hm53 Hraw.
  pose proof (calculate_locals_shape _ _ _ _ _ _ _ Hl) as
    (m' & sr & s1 & b' & h' & epf' & eesi' & ppf & pesi & ptx & Em' & Hnum & _).
  assert (m' = m) as -> by congruence. clear Em'.
  pose proof (calculate_locals_inv _ _ _ _ _ _ _ Hl) as
    (Hdiv & _ & _ & _ & _ & _ & _ & _ & _ & _ & (r & Hr & Hsr) & Hs & Hg & _).
  rewrite Em, Eb, Eh, Ep in *. rewrite Ee in Hsr.
  pose proof (py_truediv_valid _ _ _ Hdiv) as Hvalid.
  rewrite (py_lt_float_int m _ Hvalid Hnum) in Hm53. apply Z.ltb_lt in Hm53.
  destruct (running_start m Hvalid Hnum Hm53) as (vm & g & Hw & Hrun & Hvm).
  pose proof (pow2_pos 1074 ltac:(lia)) as HU.
  destruct (residual_running _ _ _ _ _ _ _ _ Hw Hrun Hb Hh Hp Hr) as (y & -> & Hy).
  destruct (running_step _ _ _ _ _ _ Hw Hy He Hsr) as (raw & Eraw & Hrawrun).
  rewrite Eraw in *.
  destruct (running_exact _ _ _ _ Hrawrun Hraw) as (Hrep & Hv & Hdv).
  set (v := quanta m - (b + h + p) * 2 ^ 1074 - e * 2 ^ 1074) in *.
  assert (0 <= quanta m) as Hm0 by (unfold v in Hv; nia).
  specialize (Hvm Hm0). subst vm.
  assert (v = quanta m - (b + h + p + e) * 2 ^ 1074) as Hv' by (unfold v; ring).
  rewrite Hraw in Hs.
  unfold gross_of in Hg. inv_bind Hg. cbn [py_add] in E. injection E as <-.
  rewrite Hs in Hg.
  destruct (py_add_int_float_exact (quanta m) g (b + h) raw v Hw Hrep Hdv
              ltac:(lia) ltac:(lia) ltac:(nia)) as (gr & Egr & Hgr).
  rewrite Egr in Hg. injection Hg as Hg.
  exists g, raw, gr.
  split; [assumption|]. split; [assumption|]. split; [assumption|].
  split; [lia|]. split; [assumption|]. split; [rewrite <- Hv'; assumption|].
  split; [auto|].
  replace (quanta m - (p + e) * 2 ^ 1074) with ((b + h) * 2 ^ 1074 + v)
    by (unfold v; ring).
  assumption.
Qed.

(** ** C10: conservation of the monthly CTC *)

(** C10 fails as stated: at 10^18 a year with every default the special
    allowance is not floored, and gross + employer PF + employer ESI differs
    from the monthly CTC, which is above 2^53 where floats are 16 apart. *)
Lemma conservation_fails_at_1e18 :
  exists l,
    calculate_locals (PInt (10 ^ 18)) (PInt 40) (PInt 50) true true "Karnataka" = Ok l /\
    py_lt (l_special_allowance_raw l) (PInt 0) = false /\
    conservation_check (return_dict l) = Ok false.
Proof.
  eexists. split; [vm_compute; reflexivity|].
  split; vm_compute; reflexivity.
Qed.

(** C10, amended. When basic, hra, employer PF and employer ESI are
    non-negative, the monthly CTC is below 2^53 and the pass-2 special
    allowance is not floored (it is not negative), then
    gross + employer PF + employer ESI == monthly CTC holds exactly. *)
Theorem ctc_conservation a bp hp pf pt st l b h p e :
  calculate_locals a bp hp pf pt st = Ok l ->
  l_basic l = PInt b -> l_hra l = PInt h ->
  l_employer_pf l = PInt p -> l_employer_esi l = PInt e ->
  0 <= b -> 0 <= h -> 0 <= p -> 0 <= e ->
  py_lt (l_monthly_ctc l) (PInt (2 ^ 53)) = true ->
  py_lt (l_special_allowance_raw l) (PInt 0) = false ->
  conservation_check (return_dict l) = Ok true.
Proof.
  intros Hl Eb Eh Ep Ee Hb Hh Hp He Hm53 Hraw.
  pose proof (calculate_locals_shape _ _ _ _ _ _ _ Hl) as (m & _ & _ & _ & _ & _ & _ & _ & _ & _ & Em & _).
  rewrite Em in Hm53.
  destruct (exact_run _ _ _ _ _ _ _ _ _ _ _ _ Hl Em Eb Eh Ep Ee Hb Hh Hp He Hm53 Hraw)
    as (g & s & gr & Hw & Hvalid & Hnum & Hsum & _ & _ & Egr & Hgr).
  pose proof (pow2_pos 1074 ltac:(lia)) as HU.
  unfold conservation_check, return_dict.
  cbn [gross_salary employer_pf employer_esi monthly_ctc].
  rewrite Egr, Ep, Ee, Em.
  destruct (py_add_float_int_exact (quanta m) g p gr _ Hw Hgr
              (window_grid _ _ _ Hw) Hp ltac:(nia) ltac:(nia)) as (x & -> & Hx).
  cbn [bind].
  assert (2 ^ g | quanta m - (p + e) * 2 ^ 1074 + p * 2 ^ 1074) as Hdx.
  { replace (quanta m - (p + e) * 2 ^ 1074 + p * 2 ^ 1074)
      with (quanta m - e * 2 ^ 1074) by ring. apply window_grid. assumption. }
  destruct (py_add_float_int_exact (quanta m) g e x _ Hw Hx Hdx He
              ltac:(nia) ltac:(nia)) as (y & -> & Hy).
  cbn [bind]. f_equal.
  destruct Hy as (Hyv & Hyn & Hyq).
  rewrite py_eq_floats by assumption. apply Z.eqb_eq. rewrite Hyq. ring.
Qed.

Lemma ctc_conservation_witness :
  exists l,
    calculate_locals (PInt 300000) (PInt 40) (PInt 50) true true "Karnataka" = Ok l /\
    conservation_check (return_dict l) = Ok true.
Proof.
  eexists. split.
  - vm_compute. reflexivity.
  - apply (ctc_conservation (PInt 300000) (PInt 40) (PInt 50) true true "Karnataka"
             _ 10000 5000 1200 774);
      try reflexivity; try lia.
Defined.

(** ** C2: the two passes *)

(** C2 fails as stated: at 7 a year with both percentages at 100 the
    pass-1 gross is 0.5833333333333335 while monthly CTC - employer PF is
    0.5833333333333334; the subtraction 0.58... - 1 - 1 is rounded. *)
Lemma pass1_gross_differs_at_7 :
  exists l d,
    calculate_locals (PInt 7) (PInt 100) (PInt 100) true true "Karnataka" = Ok l /\
    py_sub (l_monthly_ctc l) (l_employer_pf l) = Ok d /\
    py_eq (l_gross_salary_pass1 l) d = false.
Proof.
  eexists. eexists. split; [vm_compute; reflexivity|].
  split; [vm_compute; reflexivity | vm_compute; reflexivity].
Qed.

(** Pass-1 gross is monthly CTC - employer PF when nothing is rounded. *)
Lemma pass1_gross_exact a bp hp pf pt st l b h p :
  calculate_locals a bp hp pf pt st = Ok l ->
  l_basic l = PInt b -> l_hra l = PInt h -> l_employer_pf l = PInt p ->
  0 <= b -> 0 <= h -> 0 <= p ->
  py_le (PInt (b + h + p)) (l_monthly_ctc l) = true ->
  py_lt (l_monthly_ctc l) (PInt (2 ^ 53)) = true ->
  exists d, py_sub (l_monthly_ctc l) (l_employer_pf l) = Ok d /\
            py_eq (l_gross_salary_pass1 l) d = true.
Proof.
  intros Hl Eb Eh Ep Hb Hh Hp Hsum Hm53.
  pose proof (calculate_locals_shape _ _ _ _ _ _ _ Hl) as
    (m & sr & s1 & b' & h' & epf' & eesi' & ppf & pesi & ptx & Em & Hnum & _).
  pose proof (calculate_locals_inv _ _ _ _ _ _ _ Hl) as
    (Hdiv & _ & _ & _ & _ & _ & _ & Hs1 & Hg1 & _).
  rewrite Em, Eb, Eh, Ep in *.
  pose proof (py_truediv_valid _ _ _ Hdiv) as Hvalid.
  rewrite (py_lt_float_int m _ Hvalid Hnum) in Hm53. apply Z.ltb_lt in Hm53.
  rewrite (py_le_int_float _ m Hvalid Hnum) in Hsum. apply Z.leb_le in Hsum.
  pose proof (pow2_pos 1074 ltac:(lia)) as HU.
  assert (0 <= quanta m) as Hm0 by nia.
  destruct (running_start m Hvalid Hnum Hm53) as (vm & g & Hw & Hrun & Hvm).
  specialize (Hvm Hm0). subst vm.
  destruct (residual_running _ _ _ _ _ _ _ _ Hw Hrun Hb Hh Hp Hs1) as (y & Ey & Hy).
  rewrite Ey in *.
  destruct (running_nonneg _ _ _ _ Hy ltac:(lia)) as (Hrep & Hv & Hdv).
  unfold gross_of in Hg1. inv_bind Hg1. cbn [py_add] in E. injection E as <-.
  destruct (py_add_int_float_exact (quanta m) g (b + h) y _ Hw Hrep Hdv
              ltac:(lia) ltac:(lia) ltac:(nia)) as (g1 & Eg1 & Hrep1).
  rewrite Eg1 in Hg1. injection Hg1 as Hg1. rewrite <- Hg1.
  assert (exists d, py_sub (PFloat m) (PInt p) = Ok d) as (d & Ed).
  { unfold py_sub. cbn [as_float bind].
    destruct (int_to_float_exact p) as (x & -> & _); [|cbn [bind]; eauto].
    assert (p < 2 ^ 53) by (eapply window_small; eauto; nia). lia. }
  exists d. split; [assumption|].
  destruct (running_step _ _ _ _ _ _ Hw Hrun Hp Ed) as (dx & -> & Hd).
  destruct (running_nonneg _ _ _ _ Hd ltac:(nia)) as (Hrepd & _).
  destruct Hrep1 as (V1 & N1 & Q1). destruct Hrepd as (V2 & N2 & Q2).
  rewrite py_eq_floats by assumption. apply Z.eqb_eq. rewrite Q1, Q2. ring.
Qed.

(** C2, amended. The circular dependency is resolved by exactly two passes:
    pass-1 special allowance = monthly CTC - basic - hra - employer PF and
    pass-1 gross = basic + hra + that; employer ESI is round(pass-1 gross *
    0.0325) when ESI applies and 0 otherwise; the final special allowance is
    monthly CTC - basic - hra - employer PF - employer ESI, replaced by 0
    when negative, and the final gross = basic + hra + the final special
    allowance is what the call returns.  Pass-1 gross equals monthly CTC -
    employer PF when basic, hra and employer PF are non-negative, their sum
    does not exceed the monthly CTC and the monthly CTC is below 2^53;
    otherwise the two can differ by the rounding of the float
    subtractions. *)
Theorem two_pass_resolution a bp hp pf pt st l :
  calculate_locals a bp hp pf pt st = Ok l ->
  residual (l_monthly_ctc l) (l_basic l) (l_hra l) (l_employer_pf l)
    = Ok (l_special_allowance_pass1 l) /\
  gross_of (l_basic l) (l_hra l) (l_special_allowance_pass1 l)
    = Ok (l_gross_salary_pass1 l) /\
  (if l_esi_applicable l
   then round_mul (l_gross_salary_pass1 l) ESI_EMPLOYER_RATE = Ok (l_employer_esi l)
   else l_employer_esi l = PInt 0) /\
  (exists r, residual (l_monthly_ctc l) (l_basic l) (l_hra l) (l_employer_pf l) = Ok r /\
             py_sub r (l_employer_esi l) = Ok (l_special_allowance_raw l)) /\
  l_special_allowance l =
    (if py_lt (l_special_allowance_raw l) (PInt 0) then PInt 0
     else l_special_allowance_raw l) /\
  gross_of (l_basic l) (l_hra l) (l_special_allowance l) = Ok (l_gross_salary l) /\
  (exists o, calculate_salary a bp hp pf pt st = Ok o /\
             special_allowance o = l_special_allowance l /\
             gross_salary o = l_gross_salary l) /\
  (forall b h p,
     l_basic l = PInt b -> l_hra l = PInt h -> l_employer_pf l = PInt p ->
     0 <= b -> 0 <= h -> 0 <= p ->
     py_le (PInt (b + h + p)) (l_monthly_ctc l) = true ->
     py_lt (l_monthly_ctc l) (PInt (2 ^ 53)) = true ->
     exists d, py_sub (l_monthly_ctc l) (l_employer_pf l) = Ok d /\
               py_eq (l_gross_salary_pass1 l) d = true).
Proof.
  intros Hl.
  pose proof (calculate_locals_inv _ _ _ _ _ _ _ Hl) as
    (_ & _ & _ & _ & _ & _ & _ & Hs1 & Hg1 & Heesi & Hraw & Hs & Hg & _).
  repeat (split; [assumption|]).
  split.
  - exists (return_dict l). unfold calculate_salary. rewrite Hl. auto.
  - intros b h p. apply pass1_gross_exact with (1 := Hl).
Qed.

Lemma two_pass_resolution_witness :
  exists l,
    calculate_locals (PInt 300000) (PInt 40) (PInt 50) true true "Karnataka" = Ok l /\
    l_special_allowance_pass1 l = PFloat (B64.of_Z 8800) /\
    l_gross_salary_pass1 l = PFloat (B64.of_Z 23800) /\
    l_employer_esi l = PInt 774 /\
    l_special_allowance l = PFloat (B64.of_Z 8026) /\
    l_gross_salary l = PFloat (B64.of_Z 23026) /\
    exists d, py_sub (l_monthly_ctc l) (l_employer_pf l) = Ok d /\
              py_eq (l_gross_salary_pass1 l) d = true.
Proof.
  eexists. split; [vm_compute; reflexivity|].
  repeat (split; [vm_compute; reflexivity|]).
  refine (proj2 (proj2 (proj2 (proj2 (proj2 (proj2 (proj2
            (two_pass_resolution (PInt 300000) (PInt 40) (PInt 50) true true
               "Karnataka" _ _))))))) 10000 5000 1200 _ _ _ _ _ _ _ _);
    try (vm_compute; reflexivity); try lia.
Defined.

(** ** Signs *)

Lemma pack_nonneg m F : is_nonneg (pack false m F).
Proof.
  unfold pack. destruct m; try exact I.
  destruct (_ <? _); destruct (_ <=? _); exact I.
Qed.

Lemma binary_round_aux_nonneg M E l :
  0 <= M -> is_nonneg (binary_round_aux B64.prec B64.emax false M E l).
Proof.
  intros HM. destruct (binary_round_aux_pack false M E l HM) as (m1 & -> & _).
  apply pack_nonneg.
Qed.

Lemma of_Z_nonneg n : 0 <= n -> is_nonneg (B64.of_Z n).
Proof.
  intros Hn. unfold B64.of_Z. destruct n as [|p|p]; try lia; cbn [binary_normalize].
  - exact I.
  - destruct (binary_round_pack false p 0) as (m1 & -> & _). apply pack_nonneg.
Qed.

Lemma of_Z_positive n :
  0 < n -> B64.of_Z n = S754_infinity false \/
           exists m e, B64.of_Z n = S754_finite false m e.
Proof.
  intros Hn. unfold B64.of_Z. destruct n as [|p|p]; try lia; cbn [binary_normalize].
  apply binary_round_nonzero. lia.
Qed.

Lemma div_core_nonneg m1 e1 m2 e2 :
  0 < m1 -> 0 < m2 ->
  is_nonneg (let '(q, e, l) := SFdiv_core_binary B64.prec B64.emax m1 e1 m2 e2 in
             binary_round_aux B64.prec B64.emax false q e l).
Proof.
  intros H1 H2. unfold SFdiv_core_binary.
  set (e' := Z.min _ _).
  set (m' := match e1 - e2 - e' with Z.pos _ => _ | _ => _ end).
  assert (0 <= m') as Hm'.
  { unfold m'. destruct (e1 - e2 - e') as [|p|p]; try lia.
    rewrite Z.shiftl_mul_pow2 by lia. pose proof (pow2_pos (Zpos p) ltac:(lia)). nia. }
  pose proof (Z.div_eucl_eq m' m2 ltac:(lia)) as Hdm.
  pose proof (Z.mod_pos_bound m' m2 H2) as Hr. unfold Z.modulo in Hr.
  destruct (Z.div_eucl m' m2) as [q r].
  apply binary_round_aux_nonneg. nia.
Qed.

Lemma py_le_zero_float x : py_le (PInt 0) (PFloat x) = true -> is_nonneg x.
Proof.
  unfold py_le, py_compare, B64.compare_Z.
  destruct x as [s|[]| |[] m e]; cbn [is_nonneg cond_Zopp]; try discriminate; auto.
  destruct (Z.leb_spec 0 e).
  - pose proof (pow2_pos e ltac:(lia)).
    assert ((0 ?= - Z.pos m * 2 ^ e) = Gt) as -> by (apply Z.compare_gt_iff; nia).
    discriminate.
  - cbn. discriminate.
Qed.

Lemma is_nonneg_py_le x : is_nonneg x -> py_le (PInt 0) (PFloat x) = true.
Proof.
  unfold py_le, py_compare, B64.compare_Z.
  destruct x as [s|[]| |[] m e]; cbn [is_nonneg cond_Zopp]; try contradiction;
    intros _; try reflexivity.
  destruct (Z.leb_spec 0 e).
  - pose proof (pow2_pos e ltac:(lia)).
    assert ((0 ?= Z.pos m * 2 ^ e) = Lt) as -> by (apply Z.compare_lt_iff; nia).
    reflexivity.
  - reflexivity.
Qed.

(** A division of a value that is not below zero by a positive int. *)
Lemma py_truediv_nonneg a k v :
  0 < k -> py_le (PInt 0) a = true -> py_truediv a (PInt k) = Ok v ->
  exists x, v = PFloat x /\ is_nonneg x.
Proof.
  intros Hk Ha. unfold py_truediv. destruct a as [n|x].
  - rewrite py_le_ints in Ha. apply Z.leb_le in Ha.
    destruct (Z.eqb_spec k 0); [lia|].
    assert (is_nonneg (B64.of_quotient n k)) as Hq.
    { unfold B64.of_quotient. destruct n as [|p|p]; try lia.
      - replace (k <? 0) with false by (symmetry; apply Z.ltb_ge; lia). exact I.
      - replace (k <? 0) with false by (symmetry; apply Z.ltb_ge; lia).
        cbn [xorb Z.ltb Z.compare]. apply div_core_nonneg; lia. }
    destruct (B64.of_quotient n k); intros H; try discriminate;
      injection H as <-; eauto.
  - apply py_le_zero_float in Ha. cbn [as_float bind]. intros H. inv_bind H.
    destruct (B64.is_zero v0) eqn:Ez; [discriminate|]. injection H as <-.
    eexists; split; [reflexivity|].
    assert (exists m e, v0 = S754_finite false m e) as (my & ey & ->).
    { unfold int_to_float in E.
      destruct (of_Z_positive k Hk) as [Hi|(m & e & Hf)].
      - rewrite Hi in E. discriminate.
      - rewrite Hf in E. injection E as <-. eauto. }
    destruct x as [s|[]| |[] mx ex]; try contradiction; try exact I.
    unfold B64.div, SFdiv. cbn [xorb]. apply div_core_nonneg; lia.
Qed.

Lemma mul_nonneg x y :
  is_nonneg x -> is_nonneg y -> is_number (B64.mul x y) -> is_nonneg (B64.mul x y).
Proof.
  destruct x as [sx|[]| |[] mx ex], y as [sy|[]| |[] my ey];
    cbn [is_nonneg]; try contradiction; intros _ _; try (intros []; fail);
    try (intros _; exact I).
  intros _. unfold B64.mul, SFmul. cbn [xorb]. apply binary_round_aux_nonneg. lia.
Qed.

Lemma round_half_even_nonneg m e : 0 <= B64.round_half_even m e.
Proof.
  unfold B64.round_half_even. destruct (Z.leb_spec 0 e).
  - pose proof (pow2_pos e ltac:(lia)). nia.
  - pose proof (pow2_pos (- e) ltac:(lia)) as Hd.
    assert (0 <= Zpos m / 2 ^ (- e)) by (apply Z.div_pos; lia).
    destruct (_ ?= _); [destruct (Z.even _)| |]; lia.
Qed.

Lemma py_round_nonneg x v :
  is_nonneg x -> py_round (PFloat x) = Ok v -> exists n, v = PInt n /\ 0 <= n.
Proof.
  destruct x as [s|[]| |[] m e]; cbn [is_nonneg py_round]; try contradiction;
    intros _ H; try discriminate; injection H as <-; eexists; split;
    try reflexivity; try lia.
  cbn [cond_Zopp]. apply round_half_even_nonneg.
Qed.

Lemma int_to_float_is_nonneg n y : 0 <= n -> int_to_float n = Ok y -> is_nonneg y.
Proof.
  intros Hn H. unfold int_to_float in H. pose proof (of_Z_nonneg n Hn) as Hz.
  destruct (B64.of_Z n); try discriminate; injection H as <-; exact Hz.
Qed.

(** [round(a * f)] of two values that are not below zero. *)
Lemma round_mul_nonneg a f v :
  py_le (PInt 0) a = true -> (exists y, f = PFloat y /\ is_nonneg y) ->
  round_mul a f = Ok v -> exists n, v = PInt n /\ 0 <= n.
Proof.
  intros Ha (y & -> & Hy). unfold round_mul, py_mul. intros H. inv_bind H.
  assert (exists x, as_float a = Ok x /\ is_nonneg x /\ v0 = PFloat (B64.mul x y))
    as (x & _ & Hx & ->).
  { destruct a as [n|x]; cbn [as_float bind] in E.
    - rewrite py_le_ints in Ha. apply Z.leb_le in Ha. inv_bind E. injection E as <-.
      exists v1. cbn [as_float]. eauto using int_to_float_is_nonneg.
    - injection E as <-. exists x. eauto using py_le_zero_float. }
  apply py_round_nonneg with (x := B64.mul x y); [|assumption].
  apply mul_nonneg; try assumption. eapply py_round_number; eassumption.
Qed.

(** ** Bounds on rounded results *)

Lemma pack_grounded s m1 F : -1074 <= F -> grounded (pack s m1 F).
Proof.
  intros HF. unfold pack. destruct m1; try exact I.
  destruct (_ <? _); destruct (_ <=? _); cbn [grounded]; try exact I; lia.
Qed.

Lemma valid_grounded x : valid x -> grounded x.
Proof.
  destruct x as [| | |s m e]; try (intros; exact I).
  intros H. apply (valid_finite_bounds _ _ _ H).
Qed.

(** The value of a product exceeds the exact product by at most one part
    in [2 ^ 52], or by one quantum. *)
Lemma mul_upper mx ex mc ec :
  -1074 <= ex -> -1074 <= ec ->
  let y := B64.mul (S754_finite false mx ex) (S754_finite false mc ec) in
  is_number y ->
  grounded y /\
  quanta y * 2 ^ 1074 * 2 ^ 52
  <= (2 ^ 52 + 1) * (quanta (S754_finite false mx ex) * quanta (S754_finite false mc ec))
     + 2 ^ 52 * 2 ^ 1074.
Proof.
  intros Hex Hec y Hnum. unfold y, B64.mul, SFmul in *. cbn [xorb] in *.
  fold B64.prec B64.emax in *.
  change (Z.pos (mx * mc)) with (Zpos mx * Zpos mc) in *.
  set (M := Zpos mx * Zpos mc) in *. set (E := ex + ec) in *.
  assert (0 < M) as HM by (unfold M; lia).
  destruct (binary_round_aux_pack false M E loc_Exact ltac:(lia))
    as (m1 & Hr & Hb & H53 & Hexact).
  rewrite Hr in *.
  pose proof (target_ge M E) as [HF1 HF2].
  assert (target M E = Z.max E (Z.max (Zdigits2 M + E - 53) (-1074))) as HFdef
    by (unfold target; rewrite fexp_eq; reflexivity).
  set (F := target M E) in *.
  pose proof (pow2_pos (F - E) ltac:(lia)) as Hk.
  assert (0 <= M / 2 ^ (F - E)) as Hq0 by (apply Z.div_pos; lia).
  split; [apply pack_grounded; assumption|].
  rewrite pack_quanta by (try assumption; lia). cbn [cond_Zopp quanta].
  assert (Zpos mx * 2 ^ (ex + 1074) * (Zpos mc * 2 ^ (ec + 1074))
          = M * 2 ^ (E + 2148)) as ->.
  { unfold M, E. replace (ex + ec + 2148) with ((ex + 1074) + (ec + 1074)) by lia.
    rewrite (pow2_split (ex + 1074) (ec + 1074)) by lia. ring. }
  assert (m1 * 2 ^ (F + 1074) * 2 ^ 1074 = m1 * 2 ^ (F - E) * 2 ^ (E + 2148)) as ->.
  { rewrite <- !Z.mul_assoc. f_equal.
    rewrite <- !pow2_split by (unfold E; lia). f_equal. lia. }
  pose proof (pow2_pos (E + 2148) ltac:(unfold E; lia)) as HpE.
  pose proof (pow2_pos 1074 ltac:(lia)) as HU.
  set (c := 2 ^ 52) in *. assert (0 < c) as Hc by (unfold c; lia).
  destruct (Z.eq_dec F E) as [HFE|HFE].
  - rewrite HFE, Z.sub_diag, Z.pow_0_r, Z.div_1_r, Z.mod_1_r in *.
    rewrite (Hexact eq_refl eq_refl). nia.
  - assert (m1 * 2 ^ (F - E) <= M + 2 ^ (F - E)) as Hm1.
    { pose proof (Z.mul_div_le M (2 ^ (F - E)) Hk). nia. }
    pose proof (Zdigits2_bounds M HM) as [B1 _].
    pose proof (Zdigits2_pos M HM) as Hd.
    destruct (Z.eq_dec F (-1074)) as [HFm|HFm].
    + assert (2 ^ (F - E) * 2 ^ (E + 2148) = 2 ^ 1074) as Hx.
      { rewrite <- pow2_split by (unfold E; lia). f_equal. lia. }
      assert (m1 * 2 ^ (F - E) * 2 ^ (E + 2148)
              <= M * 2 ^ (E + 2148) + 2 ^ 1074) as Hy.
      { rewrite <- Hx. rewrite <- Z.mul_add_distr_r.
        apply Z.mul_le_mono_nonneg_r; lia. }
      assert (0 <= M * 2 ^ (E + 2148)) by nia.
      nia.
    + assert (F = Zdigits2 M + E - 53) as HFn by lia.
      assert (c * 2 ^ (F - E) <= M) as Hx.
      { eapply Z.le_trans; [|exact B1]. unfold c.
        rewrite <- pow2_split by lia. apply pow2_le. lia. }
      assert (m1 * 2 ^ (F - E) * c <= (c + 1) * M) as Hy by nia.
      apply (Z.mul_le_mono_nonneg_r _ _ (2 ^ (E + 2148))) in Hy; [|lia].
      assert (0 <= 2 ^ 1074 * c) by nia.
      nia.
Qed.

(** [round] goes up by at most half a unit. *)
Lemma round_half_even_upper m e :
  -1074 <= e ->
  2 * (B64.round_half_even m e * 2 ^ 1074) <= 2 * (Zpos m * 2 ^ (e + 1074)) + 2 ^ 1074.
Proof.
  intros He. unfold B64.round_half_even.
  pose proof (pow2_pos 1074 ltac:(lia)) as HU.
  destruct (Z.leb_spec 0 e).
  - rewrite (pow2_split e 1074) by lia. nia.
  - set (d := 2 ^ (- e)).
    assert (0 < d) as Hd by (apply pow2_pos; lia).
    assert (d * 2 ^ (e + 1074) = 2 ^ 1074) as HdU.
    { unfold d. rewrite <- pow2_split by lia. f_equal. lia. }
    pose proof (pow2_pos (e + 1074) ltac:(lia)) as Hp.
    pose proof (Z.div_mod (Zpos m) d ltac:(lia)) as Hdm.
    pose proof (Z.mod_pos_bound (Zpos m) d Hd) as Hr.
    set (q := Zpos m / d) in *. set (r := Zpos m mod d) in *.
    assert (forall n, 2 * n * d <= 2 * Zpos m + d ->
                      2 * (n * 2 ^ 1074) <= 2 * (Zpos m * 2 ^ (e + 1074)) + 2 ^ 1074)
      as Hgoal.
    { intros n Hn. rewrite <- HdU. nia. }
    destruct (Z.compare_spec (2 * r) d); [destruct (Z.even q)| |];
      apply Hgoal; nia.
Qed.

Lemma py_round_upper y n :
  grounded y -> is_nonneg y -> py_round (PFloat y) = Ok (PInt n) ->
  0 <= n /\ 2 * (n * 2 ^ 1074) <= 2 * quanta y + 2 ^ 1074.
Proof.
  intros Hg Hy H.
  pose proof (pow2_pos 1074 ltac:(lia)) as HU.
  destruct y as [s|[]| |[] m e]; cbn [is_nonneg] in Hy; try contradiction;
    cbn [py_round] in H; try discriminate; injection H as <-.
  - cbn [quanta]. lia.
  - cbn [cond_Zopp quanta grounded] in *. split.
    + apply round_half_even_nonneg.
    + apply round_half_even_upper. assumption.
Qed.

(** The sum of two floats that are not below zero is at least half the
    exact sum. *)
Lemma add_lower x y :
  valid x -> valid y -> is_number x -> is_number y ->
  0 <= quanta x -> 0 <= quanta y ->
  B64.add x y = S754_infinity false \/
  (is_number (B64.add x y) /\ quanta x + quanta y <= 2 * quanta (B64.add x y)).
Proof.
  intros Hxv Hyv Hxn Hyn Hx Hy.
  destruct x as [sx|sx| |sx mx ex], y as [sy|sy| |sy my ey]; try contradiction.
  - right. destruct sx, sy; cbn; split; try exact I; lia.
  - right. cbn [B64.add SFadd]. split; [exact I|]. cbn [quanta] in *. lia.
  - right. cbn [B64.add SFadd]. split; [exact I|]. cbn [quanta] in *. lia.
  - pose proof (valid_finite_bounds _ _ _ Hxv) as (Hex & _).
    pose proof (valid_finite_bounds _ _ _ Hyv) as (Hey & _).
    destruct sx; [pose proof (quanta_sign_true mx ex ltac:(lia)); lia|].
    destruct sy; [pose proof (quanta_sign_true my ey ltac:(lia)); lia|].
    unfold B64.add, SFadd. fold B64.prec B64.emax.
    set (ez := Z.min ex ey).
    set (S := _ + _).
    assert (S * 2 ^ (ez + 1074) = quanta (S754_finite false mx ex)
                                  + quanta (S754_finite false my ey)) as HS.
    { unfold S. rewrite Z.mul_add_distr_r.
      rewrite !aligned_quanta by (unfold ez; lia). reflexivity. }
    rewrite <- HS.
    assert (0 < S) as HSpos by (unfold S; cbn [cond_Zopp]; lia).
    assert (-1074 <= ez) as Hez by (unfold ez; lia).
    clearbody S ez. clear HS.
    destruct S as [|p|p]; try lia. cbn [binary_normalize].
    destruct (binary_round_pack false p ez) as (m1 & Hr & H53 & Hge & Hlt & H0 & Hc & Hpos).
    rewrite Hr. rewrite fexp_eq in *. specialize (Hpos Hez).
    set (F := Z.max (Zdigits2 (Z.pos p) + ez - 53) (-1074)) in *.
    assert (-1074 <= F) as HF by (unfold F; lia).
    assert (Zpos p * 2 ^ (ez + 1074) <= 2 * (m1 * 2 ^ (F + 1074))) as Hbound.
    { destruct (Z_le_gt_dec F ez) as [Hle|Hgt].
      - rewrite (Hge Hle). rewrite <- Z.mul_assoc, <- pow2_split by lia.
        replace (ez - F + (F + 1074)) with (ez + 1074) by lia.
        pose proof (pow2_pos (ez + 1074) ltac:(lia)). nia.
      - destruct Hc as [Hc|Hc]; [unfold F in *; lia|].
        pose proof (Zdigits2_bounds (Zpos p) ltac:(lia)) as [_ B2].
        assert (F = Zdigits2 (Zpos p) + ez - 53) as HFn by (unfold F in *; lia).
        assert (Zpos p < 2 ^ 53 * 2 ^ (F - ez)) as Hp.
        { rewrite <- pow2_split by lia.
          replace (53 + (F - ez)) with (Zdigits2 (Zpos p)) by lia. exact B2. }
        replace (F + 1074) with ((F - ez) + (ez + 1074)) by lia.
        rewrite (pow2_split (F - ez) (ez + 1074)) by lia.
        pose proof (pow2_pos (ez + 1074) ltac:(lia)).
        pose proof (pow2_pos (F - ez) ltac:(lia)).
        change (2 ^ 53) with (2 * 2 ^ 52) in Hp.
        assert (2 ^ 52 * 2 ^ (F - ez) <= m1 * 2 ^ (F - ez)) as Hm
          by (apply Z.mul_le_mono_nonneg_r; lia).
        assert (Z.pos p <= 2 * (m1 * 2 ^ (F - ez))) as Hp' by lia.
        apply (Z.mul_le_mono_nonneg_r _ _ (2 ^ (ez + 1074))) in Hp'; lia. }
    destruct (pack_positive false m1 F Hpos) as [Hinf|(m & e & Hfin)];
      [left; exact Hinf | right].
    assert (is_number (pack false m1 F)) as Hn by (rewrite Hfin; exact I).
    split; [exact Hn|]. rewrite pack_quanta by (try assumption; lia).
    cbn [cond_Zopp]. exact Hbound.
Qed.

(** ** Conversions and differences that are not below zero *)

(** The float of an int that is not below zero exceeds it by at most one
    part in [2 ^ 52]. *)
Lemma int_to_float_upper n y :
  0 <= n -> int_to_float n = Ok y ->
  quanta y * (2 ^ 52 - 1) <= 2 ^ 52 * (n * 2 ^ 1074).
Proof.
  intros Hn H. pose proof (pow2_pos 1074 ltac:(lia)) as HU.
  destruct (int_to_float_nonneg n y Hn H) as (_ & Hnum & Hex & _).
  destruct (Z_lt_ge_dec n (2 ^ 53)) as [Hlt|Hge].
  - rewrite (Hex Hlt). nia.
  - assert (y = B64.of_Z n) as ->.
    { unfold int_to_float in H. destruct (B64.of_Z n); congruence. }
    unfold B64.of_Z in *.
    destruct n as [|p|p]; try lia. cbn [binary_normalize] in *.
    destruct (binary_round_pack false p 0) as (m1 & Hr & H53 & _ & Hlt & H0 & Hc & _).
    rewrite Hr in *. rewrite fexp_eq in *.
    pose proof (Zdigits2_ge (Zpos p) 54 ltac:(lia) ltac:(lia)) as Hd.
    set (F := Z.max (Zdigits2 (Z.pos p) + 0 - 53) (-1074)) in *.
    assert (1 <= F) as HF by lia.
    destruct Hc as [Hc|Hc]; [lia|].
    destruct (Hlt ltac:(lia)) as [[_ Hup] _].
    rewrite pack_quanta by (try assumption; lia). cbn [cond_Zopp].
    rewrite (pow2_split F 1074) by lia.
    replace (F - 0) with F in Hup by lia.
    pose proof (pow2_pos F ltac:(lia)) as HpF.
    pose proof (Z.mul_div_le (Zpos p) (2 ^ F) HpF) as Hdiv.
    assert (m1 * 2 ^ F <= Zpos p + 2 ^ F) as Hv by nia.
    assert (2 ^ 52 * 2 ^ F <= m1 * 2 ^ F) as Hw
      by (apply Z.mul_le_mono_nonneg_r; lia).
    assert (m1 * 2 ^ F * (2 ^ 52 - 1) <= 2 ^ 52 * Zpos p) as Hx by lia.
    apply (Z.mul_le_mono_nonneg_r _ _ (2 ^ 1074)) in Hx; lia.
Qed.

Lemma quanta_nonneg x : valid x -> is_nonneg x -> 0 <= quanta x.
Proof.
  intros Hv Hx. destruct x as [s|[]| |[] m e]; cbn [is_nonneg] in Hx;
    try contradiction; cbn [quanta]; try lia.
  pose proof (valid_finite_bounds _ _ _ Hv) as (He & _).
  pose proof (quanta_sign_false m e ltac:(lia)). cbn [quanta] in *. lia.
Qed.

Lemma nonneg_of_quanta x : valid x -> is_number x -> 0 <= quanta x -> is_nonneg x.
Proof.
  intros Hv Hn Hq. destruct x as [s|s| |[] m e]; try contradiction; try exact I.
  pose proof (valid_finite_bounds _ _ _ Hv) as (He & _).
  pose proof (quanta_sign_true m e ltac:(lia)). lia.
Qed.

Lemma normalize_nonneg S E sz :
  0 <= S -> is_nonneg (binary_normalize B64.prec B64.emax S E sz).
Proof.
  intros HS. destruct S as [|p|p]; try lia; cbn [binary_normalize].
  - exact I.
  - destruct (binary_round_pack false p E) as (m1 & -> & _). apply pack_nonneg.
Qed.

(** A difference whose first operand is the larger is not below zero. *)
Lemma sub_nonneg x y :
  valid x -> valid y -> is_number y ->
  x = S754_infinity false \/ (is_number x /\ quanta y <= quanta x) ->
  is_nonneg (B64.sub x y).
Proof.
  intros Hxv Hyv Hyn [->|[Hxn Hle]].
  - destruct y; try contradiction; exact I.
  - destruct x as [sx|sx| |sx mx ex], y as [sy|sy| |sy my ey]; try contradiction.
    + destruct sx, sy; exact I.
    + pose proof (valid_finite_bounds _ _ _ Hyv) as (He & _).
      destruct sy; [exact I|].
      pose proof (quanta_sign_false my ey ltac:(lia)).
      change (quanta (S754_zero sx)) with 0 in Hle. lia.
    + pose proof (valid_finite_bounds _ _ _ Hxv) as (He & _).
      destruct sx; [|exact I].
      pose proof (quanta_sign_true mx ex ltac:(lia)).
      change (quanta (S754_zero sy)) with 0 in Hle. lia.
    + pose proof (valid_finite_bounds _ _ _ Hxv) as (Hex & _).
      pose proof (valid_finite_bounds _ _ _ Hyv) as (Hey & _).
      unfold B64.sub, SFsub. fold B64.prec B64.emax.
      set (ez := Z.min ex ey).
      set (S := _ - _).
      assert (S * 2 ^ (ez + 1074) = quanta (S754_finite sx mx ex)
                                    - quanta (S754_finite sy my ey)) as HS.
      { unfold S. rewrite Z.mul_sub_distr_r.
        rewrite !aligned_quanta by (unfold ez; lia). reflexivity. }
      pose proof (pow2_pos (ez + 1074) ltac:(unfold ez; lia)) as Hp.
      apply normalize_nonneg.
      destruct (Z_lt_ge_dec S 0); [nia | lia].
Qed.

Lemma py_lt_le a b : py_lt a b = true -> py_le a b = true.
Proof.
  unfold py_lt, py_le. destruct (py_compare a b) as [[]|]; congruence.
Qed.

(** A float that is neither NaN nor below zero. *)
Lemma not_lt_zero_nonneg x :
  x <> S754_nan -> py_lt (PFloat x) (PInt 0) = false -> is_nonneg x.
Proof.
  intros Hn H. destruct x as [s|[]| |[] m e]; try exact I; try congruence.
  - discriminate.
  - rewrite py_lt_negative in H by exact I. discriminate.
Qed.

Lemma py_sub_float_int_valid x n v :
  valid x -> py_sub (PFloat x) (PInt n) = Ok v -> exists y, v = PFloat y /\ valid y.
Proof.
  intros Hx H. cbn [py_sub as_float bind] in H. inv_bind H. injection H as <-.
  eexists; split; [reflexivity|]. apply sub_valid; [assumption|].
  unfold int_to_float in E. pose proof (binary_normalize_valid n 0 false) as Hv.
  fold (B64.of_Z n) in Hv. destruct (B64.of_Z n); congruence.
Qed.

Lemma residual_valid x b h p v :
  valid x -> residual (PFloat x) (PInt b) (PInt h) (PInt p) = Ok v ->
  exists y, v = PFloat y /\ valid y.
Proof.
  intros Hx H. unfold residual in H. inv_bind H. inv_bind H.
  destruct (py_sub_float_int_valid _ _ _ Hx E) as (y1 & -> & H1).
  destruct (py_sub_float_int_valid _ _ _ H1 E0) as (y2 & -> & H2).
  eapply py_sub_float_int_valid; eassumption.
Qed.

(** ** Bounds on the deductions *)

Lemma py_gt_int_mono g a b :
  a <= b -> py_gt g (PInt b) = true -> py_gt g (PInt a) = true.
Proof.
  intros Hab. unfold py_gt, py_lt, py_compare. destruct g as [n|x].
  - destruct (Z.compare_spec b n); try discriminate. intros _.
    destruct (Z.compare_spec a n); try reflexivity; lia.
  - unfold B64.compare_Z. destruct x as [s|s| |s m e]; try discriminate.
    + destruct (Z.compare_spec b 0); try discriminate. intros _.
      destruct (Z.compare_spec a 0); try reflexivity; lia.
    + trivial.
    + destruct (Z.leb_spec 0 e).
      * destruct (Z.compare_spec b (cond_Zopp s (Z.pos m) * 2 ^ e)); try discriminate.
        intros _.
        destruct (Z.compare_spec a (cond_Zopp s (Z.pos m) * 2 ^ e));
          try reflexivity; lia.
      * pose proof (pow2_pos (- e) ltac:(lia)) as Hp.
        destruct (Z.compare_spec (b * 2 ^ (- e)) (cond_Zopp s (Z.pos m)));
          try discriminate. intros _.
        destruct (Z.compare_spec (a * 2 ^ (- e)) (cond_Zopp s (Z.pos m)));
          try reflexivity; nia.
Qed.

(** Professional tax is charged only on a salary above 7,500. *)
Lemma pt_lookup_bound st g :
  exists n, dict_get PT_RATES st pt_karnataka g = PInt n /\ 0 <= n <= 208 /\
            (0 < n -> py_gt g (PInt 7500) = true).
Proof.
  destruct (pt_lookup_cases st) as [-> | [-> | [-> | ->]]].
  - unfold pt_karnataka. destruct (py_gt g (PInt 15000)) eqn:E.
    + exists 200. repeat split; try lia. intros _.
      apply (py_gt_int_mono g 7500 15000); [lia | exact E].
    + exists 0. repeat split; lia.
  - unfold pt_maharashtra. destruct (py_gt g (PInt 10000)) eqn:E.
    + exists 200. repeat split; try lia. intros _.
      apply (py_gt_int_mono g 7500 10000); [lia | exact E].
    + destruct (py_gt g (PInt 7500)) eqn:E'.
      * exists 175. repeat split; lia.
      * exists 0. repeat split; lia.
  - unfold pt_tamil_nadu. destruct (py_gt g (PInt 21000)) eqn:E.
    + exists 208. repeat split; try lia. intros _.
      apply (py_gt_int_mono g 7500 21000); [lia | exact E].
    + destruct (py_gt g (PInt 15000)) eqn:E'.
      * exists 180. repeat split; try lia. intros _.
        apply (py_gt_int_mono g 7500 15000); [lia | exact E'].
      * destruct (py_gt g (PInt 12500)) eqn:E''.
        -- exists 115. repeat split; try lia. intros _.
           apply (py_gt_int_mono g 7500 12500); [lia | exact E''].
        -- exists 0. repeat split; lia.
  - exists 0. unfold pt_none. repeat split; lia.
Qed.

Lemma py_gt_float_int x k :
  valid x -> is_number x ->
  py_gt (PFloat x) (PInt k) = true -> k * 2 ^ 1074 < quanta x.
Proof.
  intros Hv Hn. unfold py_gt, py_lt, py_compare.
  rewrite (compare_Z_quanta k x Hv Hn).
  destruct (Z.compare_spec (k * 2 ^ 1074) (quanta x)); try discriminate. trivial.
Qed.

(** [round(x * c)] is at most the exact product, one part in [2 ^ 52],
    one quantum and half a unit. *)
Lemma round_mul_upper x mc ec v :
  valid x -> is_nonneg x -> -1074 <= ec ->
  round_mul (PFloat x) (PFloat (S754_finite false mc ec)) = Ok v ->
  exists n, v = PInt n /\ 0 <= n /\
    2 * (n * 2 ^ 1074) * (2 ^ 1074 * 2 ^ 52)
    <= 2 * ((2 ^ 52 + 1) * (quanta x * quanta (S754_finite false mc ec))
            + 2 ^ 52 * 2 ^ 1074)
       + 2 ^ 1074 * (2 ^ 1074 * 2 ^ 52).
Proof.
  intros Hv Hx Hec H. unfold round_mul in H. cbn [py_mul as_float bind] in H.
  pose proof (pow2_pos 1074 ltac:(lia)) as HU.
  pose proof (py_round_number _ _ H) as Hnum.
  destruct (py_round_int _ _ H) as (n & ->). exists n. split; [reflexivity|].
  destruct x as [s|[]| |[] mx ex]; cbn [is_nonneg] in Hx; try contradiction.
  - cbn in H. injection H as <-. split; [lia|].
    change (quanta (S754_zero s)) with 0. nia.
  - pose proof (valid_finite_bounds _ _ _ Hv) as (Hex & _).
    destruct (mul_upper mx ex mc ec ltac:(lia) Hec Hnum) as [Hg Hup].
    assert (is_nonneg (B64.mul (S754_finite false mx ex) (S754_finite false mc ec)))
      as Hnn by (apply mul_nonneg; [exact I | exact I | exact Hnum]).
    destruct (py_round_upper _ _ Hg Hnn H) as [Hn0 Hr].
    split; [assumption|].
    set (y := quanta (B64.mul _ _)) in *.
    set (P := quanta _ * quanta _) in *.
    set (U := 2 ^ 1074) in *. set (c := 2 ^ 52) in *.
    assert (0 < c) as Hc by (unfold c; lia).
    clearbody y P U c.
    assert (2 * (n * U) * (U * c) <= (2 * y + U) * (U * c)) as Ha
      by (apply Z.mul_le_mono_nonneg_r; nia).
    nia.
Qed.

Lemma round_mul_int_float n c v :
  round_mul (PInt n) (PFloat c) = Ok v ->
  exists x, int_to_float n = Ok x /\ round_mul (PFloat x) (PFloat c) = Ok v.
Proof.
  unfold round_mul. cbn [py_mul as_float bind]. intros H.
  destruct (int_to_float n) as [x|e]; [|discriminate]. exists x. split; [reflexivity|].
  exact H.
Qed.

(** The employee's provident fund is at most a fifth of the capped basic. *)
Lemma employee_pf_fifth pb v :
  0 <= pb <= 15000 -> round_mul (PInt pb) PF_EMPLOYEE_RATE = Ok v ->
  exists x, v = PInt x /\ 0 <= x /\ 5 * x <= pb.
Proof.
  intros Hpb H.
  destruct (Z_le_gt_dec pb 6) as [Hs|Hl].
  - assert (pb = 0 \/ pb = 1 \/ pb = 2 \/ pb = 3 \/ pb = 4 \/ pb = 5 \/ pb = 6)
      as Hc by lia.
    destruct Hc as [->|[->|[->|[->|[->|[->| ->]]]]]];
      vm_compute in H; injection H as <-; eexists; (split; [reflexivity|lia]).
  - unfold PF_EMPLOYEE_RATE in H.
    destruct (round_mul_int_float _ _ _ H) as (x & Hx & Hr).
    destruct (int_to_float_nonneg pb x ltac:(lia) Hx) as (Hv & Hn & Hq & _).
    specialize (Hq ltac:(lia)).
    assert (is_nonneg x) as Hnn.
    { apply nonneg_of_quanta; try assumption. rewrite Hq.
      pose proof (pow2_pos 1074 ltac:(lia)). nia. }
    assert (-1074 <= -56) as Hec by lia.
    destruct (round_mul_upper x _ _ v Hv Hnn Hec Hr) as (n & -> & Hn0 & Hup).
    exists n. split; [reflexivity|]. split; [assumption|].
    rewrite Hq in Hup. cbn [quanta cond_Zopp] in Hup.
    change (-56 + 1074) with 1018 in Hup.
    assert (2 ^ 1074 = 72057594037927936 * 2 ^ 1018) as HU by reflexivity.
    assert (9007199254740992 <= 2 ^ 1018) as HW
      by (change 9007199254740992 with (2 ^ 53); apply pow2_le; lia).
    change (2 ^ 52) with 4503599627370496 in Hup.
    set (W := 2 ^ 1018) in *. set (U := 2 ^ 1074) in *. clearbody W U.
    assert (0 < W) by lia. assert (0 < U) by lia.
    (* cancel [U] *)
    assert (2 * n * (U * 4503599627370496)
            <= 2 * (4503599627370497 * (pb * (8646911284551352 * W)))
               + 2 * 4503599627370496 + U * 4503599627370496) as Hcan.
    { apply (Z.mul_le_mono_pos_r _ _ U); [lia|]. lia. }
    rewrite HU in Hcan.
    assert (forall A B, A = n * W -> B = pb * W -> 5 * A <= B) as Hlin.
    { intros A B HA HB.
      assert (7 * W <= B) by nia.
      assert (2 * A * (72057594037927936 * 4503599627370496)
              <= 2 * (4503599627370497 * (8646911284551352 * B))
                 + 2 * 4503599627370496 + 72057594037927936 * 4503599627370496 * W)
        as Hlinr by (subst A B; nia).
      lia. }
    specialize (Hlin _ _ eq_refl eq_refl). nia.
Qed.

(** Employee ESI is at most 52% of the salary it is charged on. *)
Lemma employee_esi_share x v :
  valid x -> is_nonneg x ->
  round_mul (PFloat x) ESI_EMPLOYEE_RATE = Ok v ->
  exists n, v = PInt n /\ 0 <= n /\ 100 * (n * 2 ^ 1074) <= 52 * quanta x.
Proof.
  intros Hv Hnn H. unfold ESI_EMPLOYEE_RATE in H.
  pose proof (quanta_nonneg x Hv Hnn) as HQ.
  assert (-1074 <= -60) as Hec by lia.
  destruct (round_mul_upper x _ _ v Hv Hnn Hec H) as (n & -> & Hn0 & Hup).
  exists n. split; [reflexivity|]. split; [assumption|].
  cbn [quanta cond_Zopp] in Hup. fold (quanta x) in Hup.
  change (-60 + 1074) with 1014 in Hup.
  assert (2 ^ 1074 = 1152921504606846976 * 2 ^ 1014) as HU by reflexivity.
  assert (9007199254740992 <= 2 ^ 1014) as HW
    by (change 9007199254740992 with (2 ^ 53); apply pow2_le; lia).
  change (2 ^ 52) with 4503599627370496 in Hup.
  set (Q := quanta x) in *.
  set (W := 2 ^ 1014) in *. set (U := 2 ^ 1074) in *. clearbody W U Q.
  assert (0 < W) by lia. assert (0 < U) by lia.
  set (X := n * U) in *.
  assert (0 <= X) as HX0 by (unfold X; nia).
  assert (X = 0 \/ U <= X) as HX1.
  { unfold X. destruct (Z.eq_dec n 0) as [->|Hn]; [left; lia | right].
    assert (1 * U <= n * U) by (apply Z.mul_le_mono_nonneg_r; lia). lia. }
  clearbody X.
  (* cancel [W] *)
  assert (2 * X * (1152921504606846976 * 4503599627370496)
          <= 2 * (4503599627370497 * (Q * 8646911284551352))
             + 2 * 4503599627370496 * 1152921504606846976
             + U * (1152921504606846976 * 4503599627370496)) as Hcan.
  { apply (Z.mul_le_mono_pos_r _ _ W); [lia|]. subst U. lia. }
  assert (1152921504606846976 * 9007199254740992 <= U) by lia.
  destruct (Z_lt_ge_dec Q U) as [Hlt|Hge].
  - destruct HX1 as [->|HX1]; lia.
  - lia.
Qed.

(** ** The floor of the special allowance and the sign of the net salary *)

Lemma special_allowance_floored a bp hp pf pt st l :
  calculate_locals a bp hp pf pt st = Ok l ->
  py_lt (l_special_allowance l) (PInt 0) = false.
Proof.
  intros Hl.
  pose proof (calculate_locals_inv _ _ _ _ _ _ _ Hl) as
    (_ & _ & _ & _ & _ & _ & _ & _ & _ & _ & _ & Hs & _).
  rewrite Hs. destruct (py_lt (l_special_allowance_raw l) (PInt 0)) eqn:E.
  - reflexivity.
  - exact E.
Qed.

(** The deductions of an employee never exceed the gross salary when the
    CTC and both percentages are not below zero. *)
Lemma net_salary_nonneg a bp hp pf pt st l :
  calculate_locals a bp hp pf pt st = Ok l ->
  py_le (PInt 0) a = true -> py_le (PInt 0) bp = true -> py_le (PInt 0) hp = true ->
  py_le (PInt 0) (l_net_salary l) = true.
Proof.
  intros Hl Ha Hbp Hhp.
  pose proof (calculate_locals_shape _ _ _ _ _ _ _ Hl) as
    (m & sr & s1 & b & h & epf & eesi & ppf & pesi & ptx &
     Em & Hnum & Eb & Eh & Epb & Eepf & Epre & _ & _ & Eeesi & Esr & Hsrn &
     Eppf & Epesi & Eptx & Hptx & _ & Etot & _).
  pose proof (calculate_locals_inv _ _ _ _ _ _ _ Hl) as
    (Hdiv & (f1 & Hf1 & Hbasic) & (f2 & Hf2 & Hhra) & _ & _ & _ & Hesi & _ & _ & _ &
     (r & Hr & Hraw) & Hs & Hg & Hpf & Hpesi & Hpt & _ & _ & Hnet).
  rewrite Em, Eb, Eh, Epb, Eepf, Eeesi, Esr, Eppf, Epesi, Eptx, Etot, ?Epre in *.
  pose proof (pow2_pos 1074 ltac:(lia)) as HU.
  (* signs of the monthly CTC, basic and hra *)
  pose proof (py_truediv_valid _ _ _ Hdiv) as Hmv.
  destruct (py_truediv_nonneg a 12 _ ltac:(lia) Ha Hdiv) as (m' & Em' & Hm0).
  injection Em' as <-.
  destruct (py_truediv_nonneg bp 100 _ ltac:(lia) Hbp Hf1) as (y1 & -> & Hy1).
  destruct (round_mul_nonneg _ _ _ (is_nonneg_py_le m Hm0)
              (ex_intro _ y1 (conj eq_refl Hy1)) Hbasic) as (b' & Eb' & Hb).
  injection Eb' as <-.
  destruct (py_truediv_nonneg hp 100 _ ltac:(lia) Hhp Hf2) as (y2 & -> & Hy2).
  assert (py_le (PInt 0) (PInt b) = true) as Hbl
    by (rewrite py_le_ints; apply Z.leb_le; exact Hb).
  destruct (round_mul_nonneg _ _ _ Hbl
              (ex_intro _ y2 (conj eq_refl Hy2)) Hhra) as (h' & Eh' & Hh).
  injection Eh' as <-.
  (* the employee's provident fund *)
  assert (0 <= ppf <= 1800 /\ 5 * ppf <= b) as (Hppf & Hppf5).
  { destruct pf.
    - destruct Hpf as (x & Hx & Ex).
      destruct (employee_pf_fifth (Z.min b 15000) x ltac:(lia) Hx) as (n & -> & Hn0 & Hn5).
      unfold PF_MAX_EMPLOYEE in Ex. rewrite py_min_ints in Ex. injection Ex as ->. lia.
    - injection Hpf as ->. lia. }
  (* professional tax *)
  assert (ptx = 0 \/ py_gt (l_gross_salary l) (PInt 7500) = true) as Hptg.
  { destruct pt.
    - destruct (pt_lookup_bound st (l_gross_salary l)) as (n & En & _ & Hn).
      rewrite En in Hpt. injection Hpt as ->.
      destruct (Z.eq_dec n 0); [left; assumption | right; apply Hn; lia].
    - injection Hpt as ->. left; reflexivity. }
  rewrite Hesi in Hpesi. unfold ESI_GROSS_LIMIT in Hpesi. rewrite py_le_ints in Hpesi.
  (* validity of the running difference *)
  destruct (residual_valid _ _ _ _ _ Hmv Hr) as (yr & -> & Hyr).
  destruct (py_sub_float_int_valid _ _ _ Hyr Hraw) as (sr' & Esr' & Hsrv).
  injection Esr' as <-.
  unfold gross_of in Hg. cbn [py_add bind] in Hg.
  destruct (py_lt (PFloat sr) (PInt 0)) eqn:Hfloor; rewrite Hs in Hg.
  - (* floored: the gross salary is the int basic + hra *)
    cbn [py_add] in Hg. injection Hg as Hg. rewrite <- Hg in *.
    assert (0 <= pesi /\ 100 * pesi <= 52 * (b + h + 0)) as (Hpesi0 & Hpesi52).
    { destruct (Z.leb_spec (b + h) 21000) as [Hle|Hgt].
      - unfold ESI_EMPLOYEE_RATE in Hpesi.
        destruct (round_mul_int_float _ _ _ Hpesi) as (x & Hx & Hrx).
        destruct (int_to_float_nonneg (b + h + 0) x ltac:(lia) Hx) as (Hxv & Hxn & Hq & _).
        specialize (Hq ltac:(lia)).
        assert (is_nonneg x) as Hxnn
          by (apply nonneg_of_quanta; try assumption; rewrite Hq; nia).
        destruct (employee_esi_share x _ Hxv Hxnn Hrx) as (n & En & Hn0 & Hn52).
        injection En as <-. rewrite Hq in Hn52. split; [assumption|]. nia.
      - injection Hpesi as ->. lia. }
    assert (ptx = 0 \/ 7500 < b + h + 0) as Hptx'.
    { destruct Hptg as [->|Hgt]; [left; reflexivity | right].
      unfold py_gt, py_lt, py_compare in Hgt.
      destruct (Z.compare_spec 7500 (b + h + 0)); try discriminate. assumption. }
    cbn [py_sub] in Hnet. injection Hnet as <-.
    rewrite py_le_ints. apply Z.leb_le. lia.
  - (* not floored: the gross salary is a float *)
    pose proof (not_lt_zero_nonneg sr Hsrn Hfloor) as Hsr0.
    cbn [py_add as_float bind] in Hg. inv_bind Hg. rename v into y.
    injection Hg as Hg. rewrite <- Hg in *.
    destruct (int_to_float_nonneg (b + h) y ltac:(lia) E) as (Hyv & Hyn & Hyq & Hyq').
    pose proof (add_valid y sr Hyv Hsrv) as Hgv.
    set (gr := B64.add y sr) in *.
    assert (0 <= quanta y) as Hy0.
    { destruct (Z_lt_ge_dec (b + h) (2 ^ 53)) as [Hlt|Hge];
        [rewrite (Hyq Hlt); nia | specialize (Hyq' ltac:(lia)); nia]. }
    assert (5 * (ppf * 2 ^ 1074) <= quanta y) as Hpfy.
    { destruct (Z_lt_ge_dec (b + h) (2 ^ 53)) as [Hlt|Hge].
      - rewrite (Hyq Hlt). nia.
      - specialize (Hyq' ltac:(lia)). change (2 ^ 53) with 9007199254740992 in Hyq'. nia. }
    assert (gr = S754_infinity false \/
            (is_number gr /\ quanta y + quanta sr <= 2 * quanta gr)) as Hgr.
    { destruct sr as [s|[]| |[] ms es] eqn:Es; cbn [is_nonneg] in Hsr0;
        try contradiction.
      - apply add_lower; try assumption; try exact I. cbn [quanta]. lia.
      - left. unfold gr. destruct y; try contradiction; reflexivity.
      - apply add_lower; try assumption; try exact I.
        apply quanta_nonneg; [assumption | exact I]. }
    pose proof (quanta_nonneg sr Hsrv Hsr0) as Hsrq.
    assert (0 <= pesi /\
            (gr = S754_infinity false \/ 100 * (pesi * 2 ^ 1074) <= 52 * quanta gr))
      as (Hpesi0 & Hpesi52).
    { destruct (b + h <=? 21000).
      - destruct Hgr as [Hinf|[Hgn Hgq]].
        + rewrite Hinf in Hpesi. discriminate.
        + assert (is_nonneg gr) as Hg0
            by (apply nonneg_of_quanta; try assumption; lia).
          destruct (employee_esi_share gr _ Hgv Hg0 Hpesi) as (n & En & Hn0 & Hn52).
          injection En as <-. split; [assumption | right; assumption].
      - injection Hpesi as ->. split; [lia | right].
        destruct Hgr as [Hinf|[Hgn Hgq]]; [rewrite Hinf; cbn [quanta]|]; lia. }
    cbn [py_sub as_float bind] in Hnet. inv_bind Hnet. rename v into t.
    injection Hnet as <-.
    assert (0 <= ppf + pesi + ptx + 0) as HT by lia.
    destruct (int_to_float_nonneg _ t HT E0) as (Htv & Htn & _ & _).
    pose proof (int_to_float_upper _ t HT E0) as Htq.
    apply is_nonneg_py_le. apply sub_nonneg; try assumption.
    destruct Hgr as [Hinf|[Hgn Hgq]]; [left; assumption | right].
    split; [assumption|].
    destruct Hpesi52 as [Hinf|Hpesi52]; [rewrite Hinf in Hgn; contradiction|].
    assert (ptx = 0 \/ 36 * (ptx * 2 ^ 1074) <= quanta gr) as Hptx'.
    { destruct Hptg as [->|Hgt]; [left; reflexivity | right].
      apply (py_gt_float_int gr 7500 Hgv Hgn) in Hgt. nia. }
    change (2 ^ 52) with 4503599627370496 in Htq.
    set (U := 2 ^ 1074) in *. clearbody U.
    set (G := quanta gr) in *. clearbody G.
    destruct Hptx' as [->|Hptx']; lia.
Qed.

(** ** The error of a quotient *)

Lemma pack_number_carry s m1 F :
  0 <= m1 <= 2 ^ 53 -> F <= 970 -> is_number (pack s m1 F).
Proof.
  intros Hm HF. unfold pack. destruct m1 as [|p|p]; try exact I.
  destruct (Z.pos p <? 2 ^ 53).
  - replace (F <=? 971) with true by (symmetry; apply Z.leb_le; lia). exact I.
  - replace (F + 1 <=? 971) with true by (symmetry; apply Z.leb_le; lia). exact I.
Qed.

(** The quotient of two mantissas before it is rounded: [q] is the integer
    part of [m1 / m2] scaled to at least 53 bits. *)
Lemma div_core_bracket s m1 e1 m2 e2 :
  0 < m1 -> 0 < m2 ->
  let e' := Z.min (fexp B64.prec B64.emax (Zdigits2 m1 + e1 - (Zdigits2 m2 + e2)))
                  (e1 - e2) in
  exists q mr,
    (let '(q, e, l) := SFdiv_core_binary B64.prec B64.emax m1 e1 m2 e2 in
     binary_round_aux B64.prec B64.emax s q e l) = pack s mr (target q e') /\
    m2 * q <= m1 * 2 ^ (e1 - e2 - e') < m2 * q + m2 /\
    0 <= q /\
    q / 2 ^ (target q e' - e') <= mr <= q / 2 ^ (target q e' - e') + 1 /\
    mr <= 2 ^ 53.
Proof.
  intros H1 H2 e'. unfold SFdiv_core_binary. fold e'.
  set (m' := match e1 - e2 - e' with Z.pos _ => _ | _ => _ end).
  assert (e' <= e1 - e2) as He2 by (unfold e'; lia).
  assert (m' = m1 * 2 ^ (e1 - e2 - e')) as Hm'.
  { unfold m'. destruct (e1 - e2 - e') as [|p|p] eqn:Es; try lia.
    rewrite Z.shiftl_mul_pow2 by lia. reflexivity. }
  clearbody m'.
  pose proof (pow2_pos (e1 - e2 - e') ltac:(lia)) as Hps.
  pose proof (Z.div_eucl_eq m' m2 ltac:(lia)) as Hdm.
  pose proof (Z.mod_pos_bound m' m2 H2) as Hr.
  unfold Z.modulo in Hr.
  destruct (Z.div_eucl m' m2) as [q r].
  assert (0 <= q) as Hq by nia.
  destruct (binary_round_aux_pack s q e' (new_location m2 r) Hq)
    as (mr & Hpack & Hb & H53 & _).
  exists q, mr. split; [exact Hpack|]. split; [|split; [assumption|split; assumption]].
  rewrite <- Hm'. lia.
Qed.




(** ** C7: monotonicity *)




(** ** Magnitudes: no operation overflows on moderate values *)

Lemma small_mono K K' x : 0 <= K <= K' -> small K x -> small K' x.
Proof.
  intros HK (Hv & Hn & Hq). split; [assumption|]. split; [assumption|].
  pose proof (pow2_le K K' HK). pose proof (pow2_pos 1074 ltac:(lia)). nia.
Qed.

Lemma small_zero K s : 0 <= K -> small K (S754_zero s).
Proof.
  intros HK. split; [reflexivity|]. split; [exact I|]. cbn [quanta Z.abs].
  pose proof (pow2_pos K HK). pose proof (pow2_pos 1074 ltac:(lia)). nia.
Qed.

Lemma pack_small s m1 F K :
  0 <= m1 <= 2 ^ 53 -> -1074 <= F -> F + 53 <= K -> 0 <= K <= 1023 ->
  is_number (pack s m1 F) /\ Z.abs (quanta (pack s m1 F)) <= 2 ^ K * 2 ^ 1074.
Proof.
  intros Hm HF HK HK'.
  assert (is_number (pack s m1 F)) as Hn by (apply pack_number_carry; lia).
  split; [assumption|]. rewrite pack_quanta by assumption.
  assert (0 <= m1 * 2 ^ (F + 1074)) as H0
    by (apply Z.mul_nonneg_nonneg; [lia | apply Z.lt_le_incl, pow2_pos; lia]).
  replace (Z.abs (cond_Zopp s (m1 * 2 ^ (F + 1074)))) with (m1 * 2 ^ (F + 1074))
    by (destruct s; cbn [cond_Zopp]; lia).
  apply Z.le_trans with (2 ^ 53 * 2 ^ (F + 1074)).
  - apply Z.mul_le_mono_nonneg_r; [apply Z.lt_le_incl, pow2_pos; lia | lia].
  - rewrite <- (pow2_split 53 (F + 1074)), <- (pow2_split K 1074) by lia.
    apply pow2_le. lia.
Qed.

(** A value strictly below a power of two has at most that many digits. *)
Lemma digits_of_bound M E K :
  0 < M -> 0 <= E + 1074 -> 0 <= K + 1074 ->
  M * 2 ^ (E + 1074) < 2 ^ (K + 1074) -> Zdigits2 M + E <= K.
Proof.
  intros HM HE HK H.
  pose proof (pow2_pos (E + 1074) HE) as HpE.
  assert (E < K) as HEK.
  { apply Z.add_lt_mono_r with (p := 1074). apply pow2_lt_inv; [lia|]. nia. }
  assert (M < 2 ^ (K - E)) as HMb.
  { replace (K + 1074) with ((K - E) + (E + 1074)) in H by lia.
    rewrite (pow2_split (K - E) (E + 1074)) in H by lia.
    apply Z.mul_lt_mono_pos_r in H; assumption. }
  pose proof (Zdigits2_le M (K - E) HM ltac:(lia) HMb). lia.
Qed.

Lemma normalize_small S E sz K :
  -1074 <= E -> 0 <= K <= 1023 ->
  Z.abs S * 2 ^ (E + 1074) < 2 ^ (K + 1074) ->
  small K (binary_normalize B64.prec B64.emax S E sz).
Proof.
  intros HE HK H. split; [apply binary_normalize_valid|].
  assert (forall s p, Z.pos p * 2 ^ (E + 1074) < 2 ^ (K + 1074) ->
            is_number (binary_round B64.prec B64.emax s p E) /\
            Z.abs (quanta (binary_round B64.prec B64.emax s p E))
            <= 2 ^ K * 2 ^ 1074) as Hround.
  { intros s p Hp.
    destruct (binary_round_pack s p E) as (m1 & -> & H53 & _ & _ & H0 & _).
    rewrite fexp_eq.
    pose proof (digits_of_bound (Z.pos p) E K ltac:(lia) ltac:(lia) ltac:(lia) Hp).
    apply pack_small; lia. }
  destruct S as [|p|p]; cbn [binary_normalize].
  - split; [exact I|]. cbn [quanta Z.abs].
    apply Z.mul_nonneg_nonneg; apply Z.lt_le_incl, pow2_pos; lia.
  - apply Hround. exact H.
  - apply Hround. exact H.
Qed.

Lemma int_to_float_small K n :
  Z.abs n <= 2 ^ K -> 0 <= K -> K + 1 <= 1023 ->
  exists y, int_to_float n = Ok y /\ small (K + 1) y.
Proof.
  intros Hn HK HK'.
  assert (small (K + 1) (B64.of_Z n)) as Hs.
  { unfold B64.of_Z. apply normalize_small; try lia.
    change (0 + 1074) with 1074. rewrite (pow2_split (K + 1) 1074) by lia.
    rewrite (pow2_split K 1) by lia. change (2 ^ 1) with 2.
    pose proof (pow2_pos 1074 ltac:(lia)). pose proof (pow2_pos K HK). nia. }
  exists (B64.of_Z n). split; [|assumption].
  destruct Hs as (_ & Hnum & _). unfold int_to_float.
  destruct (B64.of_Z n); try contradiction; reflexivity.
Qed.

Lemma quanta_finite_abs s m e :
  Z.abs (quanta (S754_finite s m e)) = Z.pos m * 2 ^ (e + 1074).
Proof.
  cbn [quanta]. pose proof (Z.pow_nonneg 2 (e + 1074) ltac:(lia)).
  destruct s; cbn [cond_Zopp]; nia.
Qed.

Lemma add_sub_small K x y :
  small K x -> small K y -> 0 <= K -> K + 2 <= 1023 ->
  small (K + 2) (B64.add x y) /\ small (K + 2) (B64.sub x y).
Proof.
  intros (Hxv & Hxn & Hxq) (Hyv & Hyn & Hyq) HK HK'.
  pose proof (pow2_pos 1074 ltac:(lia)) as HU. pose proof (pow2_pos K HK) as HpK.
  assert (2 ^ (K + 2 + 1074) = 4 * (2 ^ K * 2 ^ 1074)) as Hpow.
  { rewrite (pow2_split (K + 2) 1074), (pow2_split K 2) by lia.
    change (2 ^ 2) with 4. ring. }
  destruct x as [sx|sx| |sx mx ex], y as [sy|sy| |sy my ey]; try contradiction.
  - split; destruct sx, sy; apply small_zero; lia.
  - split.
    + apply (small_mono K); [lia|]. repeat split; assumption.
    + apply (small_mono K); [lia|]. split; [exact Hyv|]. split; [exact I|].
      cbn [B64.sub SFsub]. rewrite quanta_finite_abs in *. assumption.
  - split; apply (small_mono K); try lia; repeat split; assumption.
  - pose proof (valid_finite_bounds _ _ _ Hxv) as (Hex & _).
    pose proof (valid_finite_bounds _ _ _ Hyv) as (Hey & _).
    unfold B64.add, B64.sub, SFadd, SFsub. fold B64.prec B64.emax.
    set (ez := Z.min ex ey).
    pose proof (aligned_quanta sx mx ex ez ltac:(unfold ez; lia)) as Ax.
    pose proof (aligned_quanta sy my ey ez ltac:(unfold ez; lia)) as Ay.
    pose proof (pow2_pos (ez + 1074) ltac:(unfold ez; lia)) as Hpz.
    split; (apply normalize_small; [unfold ez; lia | lia |]); rewrite Hpow.
    + rewrite <- (Z.abs_eq (2 ^ (ez + 1074))) at 1 by lia. rewrite <- Z.abs_mul.
      rewrite Z.mul_add_distr_r, Ax, Ay. lia.
    + rewrite <- (Z.abs_eq (2 ^ (ez + 1074))) at 1 by lia. rewrite <- Z.abs_mul.
      rewrite Z.mul_sub_distr_r, Ax, Ay. lia.
Qed.

(** The product of two moderate floats is a number, whatever its sign. *)
Lemma mul_small K J x y :
  small K x -> small J y -> 0 <= K -> 0 <= J -> K + J + 1 <= 1023 ->
  is_number (B64.mul x y) /\ grounded (B64.mul x y) /\
  Z.abs (quanta (B64.mul x y)) <= 2 ^ (K + J + 1) * 2 ^ 1074.
Proof.
  intros (Hxv & Hxn & Hxq) (Hyv & Hyn & Hyq) HK HJ HKJ.
  pose proof (pow2_pos 1074 ltac:(lia)) as HU.
  pose proof (pow2_pos (K + J + 1) ltac:(lia)) as HpKJ.
  destruct x as [sx|sx| |sx mx ex], y as [sy|sy| |sy my ey]; try contradiction;
    try (cbn [B64.mul SFmul quanta Z.abs is_number grounded];
         split; [exact I|]; split; [exact I|]; nia).
  pose proof (valid_finite_bounds _ _ _ Hxv) as (Hex & _ & Hcx).
  pose proof (valid_finite_bounds _ _ _ Hyv) as (Hey & _ & Hcy).
  rewrite quanta_finite_abs in Hxq, Hyq.
  unfold B64.mul, SFmul. fold B64.prec B64.emax.
  change (Z.pos (mx * my)) with (Z.pos mx * Z.pos my).
  set (M := Z.pos mx * Z.pos my). set (E := ex + ey).
  assert (0 < M) as HM by (unfold M; lia).
  destruct (binary_round_aux_pack (xorb sx sy) M E loc_Exact ltac:(lia))
    as (m1 & -> & Hb & H53 & _).
  pose proof (target_ge M E) as [HF1 HF2].
  assert (target M E = Z.max E (Z.max (Zdigits2 M + E - 53) (-1074))) as HFdef
    by (unfold target; rewrite fexp_eq; reflexivity).
  assert (0 <= m1) as Hm0.
  { assert (0 <= M / 2 ^ (target M E - E))
      by (apply Z.div_pos; [lia | apply pow2_pos; lia]). lia. }
  (* the exact product in quanta of quanta *)
  assert (M * 2 ^ (E + 2148) <= 2 ^ (K + J) * 2 ^ 2148) as Hprod.
  { replace (M * 2 ^ (E + 2148))
      with ((Z.pos mx * 2 ^ (ex + 1074)) * (Z.pos my * 2 ^ (ey + 1074))).
    2:{ unfold M, E. replace (ex + ey + 2148) with ((ex + 1074) + (ey + 1074)) by lia.
        rewrite (pow2_split (ex + 1074) (ey + 1074)) by lia. ring. }
    replace (2 ^ (K + J) * 2 ^ 2148) with ((2 ^ K * 2 ^ 1074) * (2 ^ J * 2 ^ 1074)).
    2:{ rewrite (pow2_split K J) by lia. change 2148 with (1074 + 1074).
        rewrite (pow2_split 1074 1074) by lia. ring. }
    apply Z.mul_le_mono_nonneg; try assumption;
      apply Z.mul_nonneg_nonneg; try lia; apply Z.lt_le_incl, pow2_pos; lia. }
  assert (-2148 <= E) as HE by (unfold E; lia).
  assert (Zdigits2 M + E <= K + J + 1) as Hdig.
  { assert (Zdigits2 M + (E + 1074) <= K + J + 1 + 1074); [|lia].
    apply digits_of_bound; try lia.
    replace (E + 1074 + 1074) with (E + 2148) by lia.
    replace (K + J + 1 + 1074 + 1074) with ((K + J) + 1 + 2148) by lia.
    rewrite (pow2_split (K + J + 1) 2148), (pow2_split (K + J) 1) by lia.
    change (2 ^ 1) with 2. pose proof (pow2_pos (K + J) ltac:(lia)).
    pose proof (pow2_pos 2148 ltac:(lia)). nia. }
  assert (E + 53 <= K + J + 1) as HE53.
  { destruct Hcx as [Hcx|Hcx]; [unfold E; lia|].
    destruct Hcy as [Hcy|Hcy]; [unfold E; lia|].
    assert (2 ^ 104 <= M) as HM104.
    { change (2 ^ 104) with (2 ^ 52 * 2 ^ 52). unfold M.
      apply Z.mul_le_mono_nonneg; lia. }
    pose proof (Zdigits2_ge M 105 HM ltac:(exact HM104)). lia. }
  destruct (pack_small (xorb sx sy) m1 (target M E) (K + J + 1)) as [Hn Hq]; try lia.
  split; [assumption|]. split; [apply pack_grounded; lia | assumption].
Qed.

(** [round] of a moderate number is an int of that magnitude. *)
Lemma round_small K y :
  is_number y -> grounded y -> Z.abs (quanta y) <= 2 ^ K * 2 ^ 1074 -> 0 <= K ->
  exists n, py_round (PFloat y) = Ok (PInt n) /\ Z.abs n <= 2 ^ K.
Proof.
  intros Hn Hg Hq HK. pose proof (pow2_pos K HK) as HpK.
  pose proof (pow2_pos 1074 ltac:(lia)) as HU.
  destruct y as [s|s| |s m e]; try contradiction.
  - exists 0. split; [reflexivity | cbn; lia].
  - cbn [grounded] in Hg. rewrite quanta_finite_abs in Hq.
    exists (cond_Zopp s (B64.round_half_even m e)). split; [reflexivity|].
    pose proof (round_half_even_nonneg m e) as H0.
    pose proof (round_half_even_upper m e Hg) as Hup.
    replace (Z.abs (cond_Zopp s (B64.round_half_even m e)))
      with (B64.round_half_even m e) by (destruct s; cbn [cond_Zopp]; lia).
    set (r := B64.round_half_even m e) in *. clearbody r.
    destruct (Z_le_gt_dec r (2 ^ K)) as [|Hgt]; [assumption|exfalso].
    assert ((2 ^ K + 1) * 2 ^ 1074 <= r * 2 ^ 1074)
      by (apply Z.mul_le_mono_nonneg_r; lia).
    lia.
Qed.

(** [round(a * f)] of moderate values returns. *)
Lemma round_mul_small K J x y :
  small K x -> small J y -> 0 <= K -> 0 <= J -> K + J + 1 <= 1023 ->
  exists n, round_mul (PFloat x) (PFloat y) = Ok (PInt n) /\
            Z.abs n <= 2 ^ (K + J + 1).
Proof.
  intros Hx Hy HK HJ HKJ.
  destruct (mul_small K J x y Hx Hy HK HJ HKJ) as (Hn & Hg & Hq).
  unfold round_mul. cbn [py_mul as_float bind].
  apply round_small; try assumption. lia.
Qed.

Lemma round_mul_int_small K J n y :
  Z.abs n <= 2 ^ K -> small J y -> 0 <= K -> 0 <= J -> K + J + 2 <= 1023 ->
  exists r, round_mul (PInt n) (PFloat y) = Ok (PInt r) /\
            Z.abs r <= 2 ^ (K + J + 2).
Proof.
  intros Hn Hy HK HJ HKJ.
  destruct (int_to_float_small K n Hn HK ltac:(lia)) as (x & Ex & Hx).
  destruct (round_mul_small (K + 1) J x y Hx Hy ltac:(lia) HJ ltac:(lia))
    as (r & Hr & Hrb).
  exists r. split.
  - unfold round_mul in *. cbn [py_mul as_float bind] in *. rewrite Ex.
    cbn [bind]. exact Hr.
  - replace (K + J + 2) with (K + 1 + J + 1) by lia. exact Hrb.
Qed.

(** The quotient of two ints of moderate size is a float of that size. *)
Lemma py_truediv_small K a b :
  0 <= a <= 2 ^ K -> 0 < b -> 52 <= K -> K + 1 <= 1023 ->
  exists x, py_truediv (PInt a) (PInt b) = Ok (PFloat x) /\
            small (K + 1) x /\ is_nonneg x.
Proof.
  intros Ha Hb HK HK'.
  assert (small (K + 1) (B64.of_quotient a b) /\ is_nonneg (B64.of_quotient a b))
    as [Hs Hnn].
  { split; [split; [apply of_quotient_valid; lia|] |].
    2:{ unfold B64.of_quotient. destruct a as [|p|p]; try lia.
        - exact I.
        - replace (b <? 0) with false by (symmetry; apply Z.ltb_ge; lia).
          cbn [xorb Z.ltb Z.compare]. apply div_core_nonneg; lia. }
    unfold B64.of_quotient. destruct a as [|p|p]; try lia.
    - split; [exact I|]. cbn [quanta Z.abs].
      apply Z.mul_nonneg_nonneg; apply Z.lt_le_incl, pow2_pos; lia.
    - rewrite (Z.abs_eq (Z.pos p)), (Z.abs_eq b) by lia.
      destruct (div_core_bracket (xorb (Z.pos p <? 0) (b <? 0)) (Z.pos p) 0 b 0
                  ltac:(lia) Hb) as (q & mr & -> & Hq & Hq0 & Hmr & H53).
      rewrite fexp_eq in *.
      set (e' := Z.min (Z.max (Zdigits2 (Z.pos p) + 0 - (Zdigits2 b + 0) - 53) (-1074))
                       (0 - 0)) in *.
      assert (-1074 <= e' <= 0) as He' by (unfold e'; lia).
      pose proof (target_ge q e') as [HF1 HF2].
      assert (target q e' = Z.max e' (Z.max (Zdigits2 q + e' - 53) (-1074))) as HFdef
        by (unfold target; rewrite fexp_eq; reflexivity).
      assert (0 <= mr) as Hmr0.
      { assert (0 <= q / 2 ^ (target q e' - e'))
          by (apply Z.div_pos; [lia | apply pow2_pos; lia]). lia. }
      assert (Zdigits2 q + e' <= K + 1) as Hdig.
      { destruct (Z.eq_dec q 0) as [->|Hq1]; [cbn; lia|].
        apply digits_of_bound; try lia.
        replace (0 - 0 - e') with (- e') in Hq by lia.
        pose proof (pow2_pos (- e') ltac:(lia)) as Hpe.
        assert (q <= 2 ^ K * 2 ^ (- e')) as Hqb.
        { apply Z.le_trans with (Z.pos p * 2 ^ (- e')); [nia|].
          apply Z.mul_le_mono_nonneg_r; lia. }
        apply (Z.mul_le_mono_nonneg_r _ _ (2 ^ (e' + 1074))) in Hqb;
          [|apply Z.lt_le_incl, pow2_pos; lia].
        rewrite <- Z.mul_assoc, <- (pow2_split (- e') (e' + 1074)) in Hqb by lia.
        replace (- e' + (e' + 1074)) with 1074 in Hqb by lia.
        rewrite (pow2_split (K + 1) 1074), (pow2_split K 1) by lia.
        change (2 ^ 1) with 2. pose proof (pow2_pos K ltac:(lia)).
        pose proof (pow2_pos 1074 ltac:(lia)). nia. }
      apply pack_small; lia. }
  exists (B64.of_quotient a b). split; [|split; assumption].
  cbn [py_truediv]. destruct (Z.eqb_spec b 0); [lia|].
  destruct Hs as (_ & Hn & _).
  destruct (B64.of_quotient a b); try contradiction; reflexivity.
Qed.

Lemma py_sub_float_int_small K x n :
  small K x -> Z.abs n <= 2 ^ (K - 1) -> 1 <= K -> K + 2 <= 1023 ->
  exists y, py_sub (PFloat x) (PInt n) = Ok (PFloat y) /\ small (K + 2) y.
Proof.
  intros Hx Hn HK HK'.
  destruct (int_to_float_small (K - 1) n Hn ltac:(lia) ltac:(lia)) as (y & Ey & Hy).
  replace (K - 1 + 1) with K in Hy by lia.
  exists (B64.sub x y). split.
  - cbn [py_sub as_float bind]. rewrite Ey. reflexivity.
  - apply add_sub_small; assumption || lia.
Qed.

Lemma py_add_int_float_small K n x :
  small K x -> Z.abs n <= 2 ^ (K - 1) -> 1 <= K -> K + 2 <= 1023 ->
  exists y, py_add (PInt n) (PFloat x) = Ok (PFloat y) /\ small (K + 2) y.
Proof.
  intros Hx Hn HK HK'.
  destruct (int_to_float_small (K - 1) n Hn ltac:(lia) ltac:(lia)) as (y & Ey & Hy).
  replace (K - 1 + 1) with K in Hy by lia.
  exists (B64.add y x). split.
  - cbn [py_add as_float bind]. rewrite Ey. reflexivity.
  - apply add_sub_small; assumption || lia.
Qed.

Lemma residual_small K x b h p :
  small K x -> Z.abs b <= 2 ^ (K - 1) -> Z.abs h <= 2 ^ (K - 1) ->
  Z.abs p <= 2 ^ (K - 1) -> 1 <= K -> K + 6 <= 1023 ->
  exists y, residual (PFloat x) (PInt b) (PInt h) (PInt p) = Ok (PFloat y) /\
            small (K + 6) y.
Proof.
  intros Hx Hb Hh Hp HK HK'.
  assert (forall n, Z.abs n <= 2 ^ (K - 1) -> Z.abs n <= 2 ^ (K + 2 - 1) /\
                                               Z.abs n <= 2 ^ (K + 4 - 1)) as Hup.
  { intros n Hn. pose proof (pow2_le (K - 1) (K + 2 - 1) ltac:(lia)).
    pose proof (pow2_le (K - 1) (K + 4 - 1) ltac:(lia)). lia. }
  destruct (py_sub_float_int_small K x b Hx Hb HK ltac:(lia)) as (y1 & E1 & H1).
  destruct (py_sub_float_int_small (K + 2) y1 h H1 (proj1 (Hup h Hh))
              ltac:(lia) ltac:(lia)) as (y2 & E2 & H2).
  destruct (py_sub_float_int_small (K + 4) y2 p
              ltac:(replace (K + 4) with (K + 2 + 2) by lia; exact H2)
              (proj2 (Hup p Hp)) ltac:(lia) ltac:(lia)) as (y3 & E3 & H3).
  exists y3. split.
  - unfold residual. rewrite E1. cbn [bind]. rewrite E2. cbn [bind]. exact E3.
  - replace (K + 6) with (K + 4 + 2) by lia. exact H3.
Qed.

Lemma rate_small :
  small 0 (S754_finite false 8646911284551352 (-56)) /\
  small 0 (S754_finite false 8646911284551352 (-60)) /\
  small 0 (S754_finite false 4683743612465316 (-57)) /\
  small 0 (B64.add (S754_finite false 5289027402383911 (-57))
                   (S754_finite false 6002397583359397 (-56))).
Proof.
  repeat split; try (apply Z.leb_le); vm_compute; reflexivity.
Qed.

Lemma abs_pow_le n K K' : Z.abs n <= 2 ^ K -> 0 <= K <= K' -> Z.abs n <= 2 ^ K'.
Proof. intros Hn HK. pose proof (pow2_le K K' HK). lia. Qed.

(** ** The computation returns *)

(** On whole inputs of moderate size, none of them negative, every step of
    [calculate_salary] succeeds: no conversion overflows and no product
    handed to [round] is infinite or NaN. *)
Lemma calculate_locals_returns a bp hp pf pt st :
  0 <= a <= 2 ^ 200 -> 0 <= bp <= 2 ^ 200 -> 0 <= hp <= 2 ^ 200 ->
  exists l, calculate_locals (PInt a) (PInt bp) (PInt hp) pf pt st = Ok l.
Proof.
  intros Ha Hbp Hhp.
  destruct rate_small as (Rpf & Resi & Resir & Rsum).
  (* monthly CTC, basic and hra *)
  destruct (py_truediv_small 200 a 12 Ha ltac:(lia) ltac:(lia) ltac:(lia))
    as (m & Em & Hm & Hm0).
  destruct (py_truediv_small 200 bp 100 Hbp ltac:(lia) ltac:(lia) ltac:(lia))
    as (f1 & Ef1 & Hf1 & Hf10).
  destruct (py_truediv_small 200 hp 100 Hhp ltac:(lia) ltac:(lia) ltac:(lia))
    as (f2 & Ef2 & Hf2 & Hf20).
  change (200 + 1) with 201 in *.
  destruct (round_mul_small 201 201 m f1 Hm Hf1 ltac:(lia) ltac:(lia) ltac:(lia))
    as (b & Eb & Hb).
  change (201 + 201 + 1) with 403 in Hb.
  destruct (round_mul_nonneg _ _ _ (is_nonneg_py_le m Hm0)
              (ex_intro _ f1 (conj eq_refl Hf10)) Eb) as (b' & Eb' & Hb0).
  injection Eb' as <-.
  destruct (round_mul_int_small 403 201 b f2 Hb Hf2 ltac:(lia) ltac:(lia) ltac:(lia))
    as (h & Eh & Hh).
  change (403 + 201 + 2) with 606 in Hh.
  (* employer PF *)
  assert (exists epf,
            (if pf then
               rate <- py_add PF_EMPLOYER_EPF_RATE PF_EMPLOYER_EPS_RATE ;;
               round_mul (PInt (Z.min b 15000)) rate
             else Ok (PInt 0)) = Ok (PInt epf) /\ Z.abs epf <= 2 ^ 16)
    as (epf & Eepf & Hepf).
  { destruct pf.
    - cbn [py_add PF_EMPLOYER_EPF_RATE PF_EMPLOYER_EPS_RATE as_float bind].
      apply (round_mul_int_small 14 0); try lia; try assumption.
    - exists 0. split; [reflexivity|]. cbn. lia. }
  (* the two passes *)
  pose proof (abs_pow_le b 403 699 Hb ltac:(lia)) as Hb'.
  pose proof (abs_pow_le h 606 699 Hh ltac:(lia)) as Hh'.
  pose proof (abs_pow_le epf 16 699 Hepf ltac:(lia)) as Hepf'.
  destruct (residual_small 700 m b h epf (small_mono 201 700 m ltac:(lia) Hm)
              Hb' Hh' Hepf' ltac:(lia) ltac:(lia)) as (s1 & Es1 & Hs1).
  change (700 + 6) with 706 in Hs1.
  assert (Z.abs (b + h) <= 2 ^ 705) as Hbh.
  { pose proof (abs_pow_le b 403 704 Hb ltac:(lia)).
    pose proof (abs_pow_le h 606 704 Hh ltac:(lia)).
    change (2 ^ 705) with (2 * 2 ^ 704). lia. }
  destruct (py_add_int_float_small 706 (b + h) s1 Hs1 Hbh ltac:(lia) ltac:(lia))
    as (g1 & Eg1 & Hg1).
  change (706 + 2) with 708 in Hg1.
  assert (gross_of (PInt b) (PInt h) (PFloat s1) = Ok (PFloat g1)) as Egr1
    by (unfold gross_of; cbn [py_add bind]; exact Eg1).
  assert (exists eesi,
            (if py_le (PInt (b + h)) ESI_GROSS_LIMIT
             then round_mul (PFloat g1) ESI_EMPLOYER_RATE
             else Ok (PInt 0)) = Ok (PInt eesi) /\ Z.abs eesi <= 2 ^ 709)
    as (eesi & Eeesi & Heesi).
  { destruct (py_le (PInt (b + h)) ESI_GROSS_LIMIT).
    - apply (round_mul_small 708 0); try lia; assumption.
    - exists 0. split; [reflexivity|]. cbn. lia. }
  destruct (py_sub_float_int_small 710 s1 eesi (small_mono 706 710 s1 ltac:(lia) Hs1)
              Heesi ltac:(lia) ltac:(lia)) as (raw & Eraw & Hraw).
  change (710 + 2) with 712 in Hraw.
  (* final gross salary *)
  set (special := if py_lt (PFloat raw) (PInt 0) then PInt 0 else PFloat raw).
  assert (exists gross,
            gross_of (PInt b) (PInt h) special = Ok gross /\
            (gross = PInt (b + h + 0) \/ exists g, gross = PFloat g /\ small 714 g))
    as (gross & Egross & Hgross).
  { unfold gross_of, special. cbn [py_add bind].
    destruct (py_lt (PFloat raw) (PInt 0)).
    - eexists. split; [reflexivity | left; reflexivity].
    - destruct (py_add_int_float_small 712 (b + h) raw Hraw
                  (abs_pow_le _ 705 711 Hbh ltac:(lia)) ltac:(lia) ltac:(lia))
        as (g & Eg & Hg).
      exists (PFloat g). split; [exact Eg | right; eauto]. }
  (* the deductions *)
  assert (exists ppf,
            (if pf then
               x <- round_mul (PInt (Z.min b 15000)) PF_EMPLOYEE_RATE ;;
               Ok (py_min x PF_MAX_EMPLOYEE)
             else Ok (PInt 0)) = Ok (PInt ppf) /\ Z.abs ppf <= 2 ^ 16)
    as (ppf & Eppf & Hppf).
  { destruct pf.
    - destruct (round_mul_int_small 14 0 (Z.min b 15000) _ ltac:(change (2 ^ 14) with 16384; lia)
                  Rpf ltac:(lia) ltac:(lia) ltac:(lia)) as (x & Ex & Hx).
      unfold PF_EMPLOYEE_RATE. rewrite Ex. cbn [bind].
      unfold PF_MAX_EMPLOYEE. rewrite py_min_ints.
      eexists. split; [reflexivity|]. change (14 + 0 + 2) with 16 in Hx.
      change (2 ^ 16) with 65536 in *. lia.
    - exists 0. split; [reflexivity|]. cbn. lia. }
  assert (exists pesi,
            (if py_le (PInt (b + h)) ESI_GROSS_LIMIT
             then round_mul gross ESI_EMPLOYEE_RATE
             else Ok (PInt 0)) = Ok (PInt pesi) /\ Z.abs pesi <= 2 ^ 715)
    as (pesi & Epesi & Hpesi).
  { destruct (py_le (PInt (b + h)) ESI_GROSS_LIMIT).
    - destruct Hgross as [->|(g & -> & Hg)].
      + destruct (round_mul_int_small 705 0 (b + h + 0) _
                    ltac:(replace (b + h + 0) with (b + h) by lia; exact Hbh)
                    Resi ltac:(lia) ltac:(lia) ltac:(lia)) as (x & Ex & Hx).
        exists x. split; [exact Ex|]. apply (abs_pow_le x (705 + 0 + 2)); [exact Hx | lia].
      + apply (round_mul_small 714 0); try lia; assumption.
    - exists 0. split; [reflexivity|]. cbn. lia. }
  destruct (pt_lookup_int st gross) as (ptn & Eptn & Hptn).
  set (ptx := if pt then dict_get PT_RATES st pt_karnataka gross else PInt 0).
  assert (exists n, ptx = PInt n /\ 0 <= n <= 208) as (tx & Etx & Htx).
  { unfold ptx. destruct pt; [eauto | exists 0; split; [reflexivity | lia]]. }
  assert (exists net, py_sub gross (PInt (ppf + pesi + tx + 0)) = Ok net)
    as (net & Enet).
  { destruct Hgross as [->|(g & -> & Hg)].
    - eexists. reflexivity.
    - assert (Z.abs (ppf + pesi + tx + 0) <= 2 ^ 716) as HT.
      { pose proof (abs_pow_le ppf 16 715 Hppf ltac:(lia)).
        change (2 ^ 716) with (2 * 2 ^ 715). pose proof (pow2_le 9 715 ltac:(lia)).
        change (2 ^ 9) with 512 in *. lia. }
      destruct (py_sub_float_int_small 717 g _ (small_mono 714 717 g ltac:(lia) Hg)
                  HT ltac:(lia) ltac:(lia)) as (y & Ey & _).
      eauto. }
  (* assembling the run *)
  unfold calculate_locals.
  rewrite Em. cbn [bind]. rewrite Ef1. cbn [bind]. rewrite Eb. cbn [bind].
  rewrite Ef2. cbn [bind]. rewrite Eh. cbn [bind].
  unfold PF_BASIC_CAP. rewrite py_min_ints.
  rewrite Eepf. cbn [bind py_add]. rewrite Es1. cbn [bind].
  rewrite Egr1. cbn [bind]. rewrite Eeesi. cbn [bind]. rewrite Eraw. cbn [bind].
  fold special. rewrite Egross. cbn [bind]. rewrite Eppf. cbn [bind].
  rewrite Epesi. cbn [bind dict_item String.eqb Ascii.eqb Bool.eqb PT_RATES].
  fold ptx. rewrite Etx. cbn [deductions_of py_add bind]. rewrite Enet. cbn [bind].
  eexists. reflexivity.
Qed.

(** ** C5: the special allowance and the net salary are not negative *)

(** C5 fails as stated: a positive annual CTC is not enough.  At 12,000 a
    year with a basic percentage of 1,500 and an HRA percentage of -100,
    basic is 15,000 and hra is -15,000; the special allowance is floored at
    0, the gross salary is 0 and the employee's provident fund of 1,800
    makes the net salary -1,800. *)
Lemma net_negative_at_negative_hra :
  exists o,
    calculate_salary (PInt 12000) (PInt 1500) (PInt (-100)) true true "Karnataka" = Ok o /\
    py_gt (PInt 12000) (PInt 0) = true /\
    gross_salary o = PInt 0 /\
    net_salary o = PInt (-1800) /\
    py_ge (net_salary o) (PInt 0) = false.
Proof.
  eexists. split; [vm_compute; reflexivity|].
  split; [vm_compute; reflexivity|]. split; [vm_compute; reflexivity|].
  split; [vm_compute; reflexivity | vm_compute; reflexivity].
Qed.

(** Beyond the range of binary64 the function does raise: the monthly CTC
    of 10^400 is not a float. *)
Example overflow_at_huge_ctc :
  calculate_salary_default (PInt (10 ^ 400)) = Raise OverflowError.
Proof. vm_compute. reflexivity. Qed.

(** C5 as amended.  Whenever [calculate_salary] returns, the special
    allowance of the output is not negative, whatever the inputs, and the
    net salary is not negative when the annual CTC is positive and neither
    percentage is negative.  And it does return, without raising, on whole
    inputs up to 2^200: a positive annual CTC and two percentages that are
    not negative. *)
Theorem special_allowance_and_net_nonneg a bp hp pf pt st :
  (forall o,
     calculate_salary a bp hp pf pt st = Ok o ->
     py_lt (special_allowance o) (PInt 0) = false /\
     (py_gt a (PInt 0) = true ->
      py_ge bp (PInt 0) = true -> py_ge hp (PInt 0) = true ->
      py_ge (net_salary o) (PInt 0) = true)) /\
  (forall n p q,
     a = PInt n -> bp = PInt p -> hp = PInt q ->
     0 < n <= 2 ^ 200 -> 0 <= p <= 2 ^ 200 -> 0 <= q <= 2 ^ 200 ->
     exists o,
       calculate_salary a bp hp pf pt st = Ok o /\
       py_lt (special_allowance o) (PInt 0) = false /\
       py_ge (net_salary o) (PInt 0) = true).
Proof.
  assert (forall o,
     calculate_salary a bp hp pf pt st = Ok o ->
     py_lt (special_allowance o) (PInt 0) = false /\
     (py_gt a (PInt 0) = true ->
      py_ge bp (PInt 0) = true -> py_ge hp (PInt 0) = true ->
      py_ge (net_salary o) (PInt 0) = true)) as Hcond.
  { intros o H. destruct (calculate_salary_inv _ _ _ _ _ _ _ H) as (l & Hl & ->).
    cbn [special_allowance net_salary return_dict]. split.
    - eapply special_allowance_floored; eassumption.
    - intros Ha Hbp Hhp. unfold py_ge, py_gt in *.
      eapply net_salary_nonneg; try eassumption. apply py_lt_le. assumption. }
  split; [exact Hcond|].
  intros n p q -> -> -> Hn Hp Hq.
  destruct (calculate_locals_returns n p q pf pt st ltac:(lia) Hp Hq) as (l & Hl).
  assert (calculate_salary (PInt n) (PInt p) (PInt q) pf pt st = Ok (return_dict l))
    as Ho by (unfold calculate_salary; rewrite Hl; reflexivity).
  exists (return_dict l). split; [exact Ho|].
  destruct (Hcond _ Ho) as [Hs Hnet]. split; [exact Hs|].
  apply Hnet.
  - unfold py_gt, py_lt, py_compare.
    destruct (Z.compare_spec 0 n); try reflexivity; lia.
  - unfold py_ge. rewrite py_le_ints. apply Z.leb_le. lia.
  - unfold py_ge. rewrite py_le_ints. apply Z.leb_le. lia.
Qed.

Lemma special_allowance_and_net_nonneg_witness :
  exists o, calculate_salary (PInt 300000) (PInt 40) (PInt 50) true true "Karnataka" = Ok o /\
            py_lt (special_allowance o) (PInt 0) = false /\
            py_ge (net_salary o) (PInt 0) = true.
Proof.
  apply (proj2 (special_allowance_and_net_nonneg
                  (PInt 300000) (PInt 40) (PInt 50) true true "Karnataka")
               300000 40 50 eq_refl eq_refl eq_refl); lia.
Defined.

(** ** Which exceptions can be raised *)

Lemma raises_only_Ok {A : Type} (P : pyerr -> Prop) (a : A) : raises_only P (Ok a).
Proof. intros e H. discriminate. Qed.

Lemma raises_only_bind {A B : Type} (P : pyerr -> Prop) (r : result A) (k : A -> result B) :
  raises_only P r -> (forall a, r = Ok a -> raises_only P (k a)) ->
  raises_only P (bind r k).
Proof.
  intros Hr Hk e H. destruct r as [a|e']; cbn [bind] in H.
  - exact (Hk a eq_refl e H).
  - apply Hr. injection H as <-. reflexivity.
Qed.

Lemma raises_only_weaken {A : Type} (P Q : pyerr -> Prop) (r : result A) :
  (forall e, P e -> Q e) -> raises_only P r -> raises_only Q r.
Proof. intros HPQ Hr e H. apply HPQ, Hr, H. Qed.

Lemma int_to_float_raises n : raises_only overflow (int_to_float n).
Proof.
  intros e. unfold int_to_float. destruct (B64.of_Z n); intros H; try discriminate.
  injection H as <-. reflexivity.
Qed.

Lemma as_float_raises v : raises_only overflow (as_float v).
Proof. destruct v; [apply int_to_float_raises | apply raises_only_Ok]. Qed.

Lemma py_add_raises a b : raises_only overflow (py_add a b).
Proof.
  destruct a, b; cbn [py_add]; try apply raises_only_Ok;
    (apply raises_only_bind; [apply as_float_raises | intros ? _]);
    (apply raises_only_bind; [apply as_float_raises | intros ? _]);
    apply raises_only_Ok.
Qed.

Lemma py_sub_raises a b : raises_only overflow (py_sub a b).
Proof.
  destruct a, b; cbn [py_sub]; try apply raises_only_Ok;
    (apply raises_only_bind; [apply as_float_raises | intros ? _]);
    (apply raises_only_bind; [apply as_float_raises | intros ? _]);
    apply raises_only_Ok.
Qed.

Lemma py_mul_raises a b : raises_only overflow (py_mul a b).
Proof.
  destruct a, b; cbn [py_mul]; try apply raises_only_Ok;
    (apply raises_only_bind; [apply as_float_raises | intros ? _]);
    (apply raises_only_bind; [apply as_float_raises | intros ? _]);
    apply raises_only_Ok.
Qed.

(** A division by a positive int constant never divides by zero. *)
Lemma py_truediv_raises a k : 0 < k -> raises_only overflow (py_truediv a (PInt k)).
Proof.
  intros Hk. destruct a as [n|x]; cbn [py_truediv].
  - destruct (Z.eqb_spec k 0); [lia|].
    intros e. destruct (B64.of_quotient n k); intros H; try discriminate.
    injection H as <-. reflexivity.
  - cbn [as_float bind].
    apply raises_only_bind; [apply int_to_float_raises | intros y Hy].
    destruct (of_Z_positive k Hk) as [Hi|(m & e & Hf)]; unfold int_to_float in Hy.
    + rewrite Hi in Hy. discriminate.
    + rewrite Hf in Hy. injection Hy as <-. cbn [B64.is_zero]. apply raises_only_Ok.
Qed.

Lemma py_round_raises v : raises_only overflow_or_value (py_round v).
Proof.
  intros e. destruct v as [n|[s|s| |s m ex]]; cbn [py_round]; intros H;
    try discriminate; injection H as <-; unfold overflow_or_value; auto.
Qed.

(** [round] raises [ValueError] on a NaN only. *)
Lemma py_round_not_nan_raises x :
  x <> S754_nan -> raises_only overflow (py_round (PFloat x)).
Proof.
  intros Hx e. destruct x as [s|s| |s m ex]; cbn [py_round]; intros H;
    try discriminate; try congruence.
Qed.

Lemma round_mul_raises a b : raises_only overflow_or_value (round_mul a b).
Proof.
  unfold round_mul. apply raises_only_bind.
  - eapply raises_only_weaken; [|apply py_mul_raises]. intros e ->. left; reflexivity.
  - intros v _. apply py_round_raises.
Qed.

Lemma residual_raises m b h p : raises_only overflow (residual m b h p).
Proof.
  unfold residual. repeat (apply raises_only_bind; [apply py_sub_raises | intros ? _]).
  apply py_sub_raises.
Qed.

Lemma gross_of_raises b h s : raises_only overflow (gross_of b h s).
Proof.
  unfold gross_of. apply raises_only_bind; [apply py_add_raises | intros ? _].
  apply py_add_raises.
Qed.

Lemma deductions_of_raises a b c d : raises_only overflow (deductions_of a b c d).
Proof.
  unfold deductions_of. repeat (apply raises_only_bind; [apply py_add_raises | intros ? _]).
  apply py_add_raises.
Qed.

Lemma overflow_weaken {A : Type} (r : result A) :
  raises_only overflow r -> raises_only overflow_or_value r.
Proof. apply raises_only_weaken. intros e ->. left; reflexivity. Qed.

Lemma calculate_locals_raises a bp hp pf pt st :
  raises_only overflow_or_value (calculate_locals a bp hp pf pt st).
Proof.
  unfold calculate_locals.
  apply raises_only_bind; [apply overflow_weaken, py_truediv_raises; lia | intros ? _].
  apply raises_only_bind; [apply overflow_weaken, py_truediv_raises; lia | intros ? _].
  apply raises_only_bind; [apply round_mul_raises | intros ? _].
  apply raises_only_bind; [apply overflow_weaken, py_truediv_raises; lia | intros ? _].
  apply raises_only_bind; [apply round_mul_raises | intros ? _].
  apply raises_only_bind.
  { destruct pf; [|apply raises_only_Ok].
    apply raises_only_bind; [apply overflow_weaken, py_add_raises | intros ? _].
    apply round_mul_raises. }
  intros ? _.
  apply raises_only_bind; [apply overflow_weaken, py_add_raises | intros ? _].
  apply raises_only_bind; [apply overflow_weaken, residual_raises | intros ? _].
  apply raises_only_bind; [apply overflow_weaken, gross_of_raises | intros ? _].
  apply raises_only_bind.
  { destruct (py_le _ _); [apply round_mul_raises | apply raises_only_Ok]. }
  intros ? _.
  apply raises_only_bind; [apply overflow_weaken, residual_raises | intros ? _].
  apply raises_only_bind; [apply overflow_weaken, py_sub_raises | intros ? _].
  apply raises_only_bind; [apply overflow_weaken, gross_of_raises | intros ? _].
  apply raises_only_bind.
  { destruct pf; [|apply raises_only_Ok].
    apply raises_only_bind; [apply round_mul_raises | intros ? _]. apply raises_only_Ok. }
  intros ? _.
  apply raises_only_bind.
  { destruct (py_le _ _); [apply round_mul_raises | apply raises_only_Ok]. }
  intros ? _.
  apply raises_only_bind; [cbn; apply raises_only_Ok | intros ? _].
  apply raises_only_bind; [apply overflow_weaken, deductions_of_raises | intros ? _].
  apply raises_only_bind; [apply overflow_weaken, py_sub_raises | intros ? _].
  apply raises_only_Ok.
Qed.

Lemma mul_numbers_not_nan x y :
  is_number x -> is_number y -> B64.mul x y <> S754_nan.
Proof.
  intros Hx Hy. unfold B64.mul.
  destruct x as [sx|sx| |sx mx ex], y as [sy|sy| |sy my ey];
    try contradiction; cbn [SFmul]; try discriminate.
  apply binary_round_aux_not_nan. lia.
Qed.

Lemma mul_finite_not_nan x s m e :
  x <> S754_nan -> B64.mul x (S754_finite s m e) <> S754_nan.
Proof.
  intros Hx. destruct x as [sx|sx| |sx mx ex]; try congruence;
    try (cbn; discriminate).
  apply mul_numbers_not_nan; exact I.
Qed.

Lemma round_mul_raises_overflow a c :
  (forall x, as_float a = Ok x -> B64.mul x c <> S754_nan) ->
  raises_only overflow (round_mul a (PFloat c)).
Proof.
  intros Hc. unfold round_mul.
  assert (py_mul a (PFloat c) = (x <- as_float a ;; Ok (PFloat (B64.mul x c)))) as ->
    by (destruct a; reflexivity).
  destruct (as_float a) as [x|e] eqn:Ex; cbn [bind].
  - apply py_round_not_nan_raises. apply Hc. reflexivity.
  - intros e' H. injection H as <-. exact (as_float_raises a e Ex).
Qed.

Lemma pack_not_nan s m F : pack s m F <> S754_nan.
Proof.
  unfold pack. destruct m; try discriminate.
  destruct (_ <? _); destruct (_ <=? _); discriminate.
Qed.

Lemma of_quotient_not_nan a b : b <> 0 -> B64.of_quotient a b <> S754_nan.
Proof.
  intros Hb. unfold B64.of_quotient.
  assert (0 < Z.abs b) as Hb' by lia.
  destruct a as [|p|p]; try discriminate.
  - assert (0 < Z.abs (Z.pos p)) as Ha by lia.
    destruct (div_core_bracket (xorb (Z.pos p <? 0) (b <? 0)) _ 0 _ 0 Ha Hb')
      as (q & mr & -> & _).
    apply pack_not_nan.
  - assert (0 < Z.abs (Z.neg p)) as Ha by lia.
    destruct (div_core_bracket (xorb (Z.neg p <? 0) (b <? 0)) _ 0 _ 0 Ha Hb')
      as (q & mr & -> & _).
    apply pack_not_nan.
Qed.

(** The quotient of two ints, when it is returned, is a number. *)
Lemma py_truediv_ints_number a b v :
  py_truediv (PInt a) (PInt b) = Ok v -> exists x, v = PFloat x /\ is_number x.
Proof.
  cbn [py_truediv]. destruct (Z.eqb_spec b 0) as [|Hb]; [discriminate|].
  pose proof (of_quotient_not_nan a b Hb) as Hn.
  destruct (B64.of_quotient a b); intros H; try discriminate; try congruence;
    injection H as <-; eexists; split; try reflexivity; exact I.
Qed.

Lemma int_to_float_number' n x : as_float (PInt n) = Ok x -> is_number x.
Proof. apply int_to_float_number. Qed.

(** With whole arguments nothing handed to [round] is a NaN: the only
    exception left is [OverflowError]. *)
Lemma calculate_locals_ints_raise n p q pf pt st :
  raises_only overflow (calculate_locals (PInt n) (PInt p) (PInt q) pf pt st).
Proof.
  unfold calculate_locals.
  apply raises_only_bind; [apply py_truediv_raises; lia | intros v Hm].
  destruct (py_truediv_ints_number _ _ _ Hm) as (m & -> & Hmn).
  apply raises_only_bind; [apply py_truediv_raises; lia | intros v Hf1].
  destruct (py_truediv_ints_number _ _ _ Hf1) as (f1 & -> & Hf1n).
  apply raises_only_bind.
  { apply round_mul_raises_overflow. intros x Hx. injection Hx as <-.
    apply mul_numbers_not_nan; assumption. }
  intros v Hb. destruct (round_mul_int _ _ _ Hb) as (b & ->).
  apply raises_only_bind; [apply py_truediv_raises; lia | intros v Hf2].
  destruct (py_truediv_ints_number _ _ _ Hf2) as (f2 & -> & Hf2n).
  apply raises_only_bind.
  { apply round_mul_raises_overflow. intros x Hx.
    apply mul_numbers_not_nan; [eapply int_to_float_number'; eassumption | assumption]. }
  intros v Hh. destruct (round_mul_int _ _ _ Hh) as (h & ->).
  unfold PF_BASIC_CAP. rewrite py_min_ints.
  apply raises_only_bind.
  { destruct pf; [|apply raises_only_Ok].
    cbn [py_add PF_EMPLOYER_EPF_RATE PF_EMPLOYER_EPS_RATE as_float bind].
    apply round_mul_raises_overflow. intros x Hx.
    apply mul_numbers_not_nan; [eapply int_to_float_number'; eassumption | exact I]. }
  intros v Hepf.
  assert (exists epf, v = PInt epf) as (epf & ->).
  { destruct pf; [|injection Hepf as <-; eauto].
    cbn [py_add PF_EMPLOYER_EPF_RATE PF_EMPLOYER_EPS_RATE as_float bind] in Hepf.
    exact (round_mul_int _ _ _ Hepf). }
  apply raises_only_bind; [apply py_add_raises | intros v Hpre].
  cbn [py_add] in Hpre. injection Hpre as <-.
  apply raises_only_bind; [apply residual_raises | intros v Hs1].
  destruct (residual_float _ _ _ _ _ (is_number_not_nan _ Hmn) Hs1) as (s1 & -> & Hs1n).
  apply raises_only_bind; [apply gross_of_raises | intros g1 Hg1].
  pose proof (gross_of_not_nan _ _ _ _ (proj1 (not_nan_float s1) Hs1n) Hg1) as Hg1n.
  apply raises_only_bind.
  { destruct (py_le _ _); [|apply raises_only_Ok].
    apply round_mul_raises_overflow. intros x Hx. destruct g1 as [k|y].
    - apply mul_numbers_not_nan; [eapply int_to_float_number'; eassumption | exact I].
    - injection Hx as <-. apply mul_finite_not_nan. apply not_nan_float. assumption. }
  intros v Heesi.
  assert (exists eesi, v = PInt eesi) as (eesi & ->).
  { destruct (py_le _ _); [exact (round_mul_int _ _ _ Heesi) | injection Heesi as <-; eauto]. }
  apply raises_only_bind; [apply residual_raises | intros v Hr].
  rewrite Hs1 in Hr. injection Hr as <-.
  apply raises_only_bind; [apply py_sub_raises | intros v Hraw].
  destruct (py_sub_float_int _ _ _ Hs1n Hraw) as (raw & -> & Hrawn).
  set (special := if py_lt (PFloat raw) (PInt 0) then PInt 0 else PFloat raw).
  assert (not_nan special) as Hsn.
  { unfold special. destruct (py_lt _ _); [exact I | apply not_nan_float; assumption]. }
  apply raises_only_bind; [apply gross_of_raises | intros g Hg].
  pose proof (gross_of_not_nan _ _ _ _ Hsn Hg) as Hgn.
  apply raises_only_bind.
  { destruct pf; [|apply raises_only_Ok].
    apply raises_only_bind; [|intros ? _; apply raises_only_Ok].
    apply round_mul_raises_overflow. intros x Hx.
    apply mul_numbers_not_nan; [eapply int_to_float_number'; eassumption | exact I]. }
  intros ppf _.
  apply raises_only_bind.
  { destruct (py_le _ _); [|apply raises_only_Ok].
    apply round_mul_raises_overflow. intros x Hx. destruct g as [k|y].
    - apply mul_numbers_not_nan; [eapply int_to_float_number'; eassumption | exact I].
    - injection Hx as <-. apply mul_finite_not_nan. apply not_nan_float. assumption. }
  intros pesi _.
  apply raises_only_bind; [cbn; apply raises_only_Ok | intros ? _].
  apply raises_only_bind; [apply deductions_of_raises | intros ? _].
  apply raises_only_bind; [apply py_sub_raises | intros ? _].
  apply raises_only_Ok.
Qed.

(** The only exceptions [calculate_salary] can raise are [OverflowError]
    and [ValueError]: its divisors are the constants 12 and 100 and the key
    ["Karnataka"] is in [PT_RATES], so there is no [ZeroDivisionError] and
    no [KeyError].  With int arguments no NaN can arise, and only
    [OverflowError] is left. *)
Theorem raises_overflow_or_value_error_only a bp hp pf pt st e :
  calculate_salary a bp hp pf pt st = Raise e ->
  (e = OverflowError \/ e = ValueError) /\
  (is_int a -> is_int bp -> is_int hp -> e = OverflowError).
Proof.
  intros H. unfold calculate_salary in H.
  destruct (calculate_locals a bp hp pf pt st) as [l|e'] eqn:El; [discriminate|].
  cbn [bind] in H. injection H as <-. split.
  - exact (calculate_locals_raises a bp hp pf pt st e' El).
  - intros (n & ->) (p & ->) (q & ->).
    exact (calculate_locals_ints_raise n p q pf pt st e' El).
Qed.

Lemma raises_overflow_or_value_error_only_witness :
  exists e,
    calculate_salary (PInt (10 ^ 400)) (PInt 40) (PInt 50) true true "Karnataka"
    = Raise e /\
    e = OverflowError.
Proof.
  eexists. split; [vm_compute; reflexivity|].
  refine (proj2 (raises_overflow_or_value_error_only
                   (PInt (10 ^ 400)) (PInt 40) (PInt 50) true true "Karnataka"
                   OverflowError _) _ _ _);
    [vm_compute; reflexivity | eexists; reflexivity ..].
Defined.

(** A [ValueError] does occur: an infinite CTC with a basic percentage of 0
    makes [round] meet the NaN [inf * 0.0]. *)
Example value_error_at_infinite_ctc :
  calculate_salary (PFloat (S754_infinity false)) (PInt 0) (PInt 50) true true
                   "Karnataka" = Raise ValueError.
Proof. vm_compute. reflexivity. Qed.

(** ** The two provident fund contributions *)

(** [0.0367 + 0.0833] is the float [0.12]. *)
Lemma employer_rate_is_employee_rate :
  py_add PF_EMPLOYER_EPF_RATE PF_EMPLOYER_EPS_RATE = Ok PF_EMPLOYEE_RATE.
Proof. vm_compute. reflexivity. Qed.

(** A negative int times a positive rate rounds to an int that is not
    positive. *)
Lemma round_mul_negative_int n mc ec v :
  n < 0 -> round_mul (PInt n) (PFloat (S754_finite false mc ec)) = Ok v ->
  exists r, v = PInt r /\ r <= 0.
Proof.
  intros Hn H. destruct (round_mul_int_float _ _ _ H) as (x & Hx & Hr).
  assert (exists m e, x = S754_finite true m e) as (m & e & ->).
  { unfold int_to_float, B64.of_Z in Hx. destruct n as [|p|p]; try lia.
    cbn [binary_normalize] in Hx.
    destruct (binary_round_nonzero true p 0 ltac:(lia)) as [Hi|(m & e & Hf)].
    - rewrite Hi in Hx. discriminate.
    - rewrite Hf in Hx. injection Hx as <-. eauto. }
  unfold round_mul in Hr. cbn [py_mul as_float bind] in Hr.
  unfold B64.mul, SFmul in Hr. cbn [xorb] in Hr. fold B64.prec B64.emax in Hr.
  destruct (binary_round_aux_pack true (Z.pos (m * mc)) (e + ec) loc_Exact ltac:(lia))
    as (m1 & Hp & _).
  rewrite Hp in Hr. unfold pack in Hr.
  destruct m1 as [|k|k]; cbn [py_round] in Hr.
  - injection Hr as <-. exists 0. split; [reflexivity | lia].
  - destruct (_ <? _); destruct (_ <=? _); cbn [py_round] in Hr; try discriminate;
      injection Hr as <-; eexists; (split; [reflexivity|]); cbn [cond_Zopp];
      match goal with |- - ?r <= 0 => pose proof (round_half_even_nonneg _ _ : 0 <= r) end;
      lia.
  - injection Hr as <-. exists 0. split; [reflexivity | lia].
Qed.

(** [round(pf_basic * 0.12)] never exceeds 1,800 when [pf_basic] is at most
    15,000: the cap on the fund follows from the cap on basic. *)
Lemma pf_of_capped_basic pb v :
  pb <= 15000 -> round_mul (PInt pb) PF_EMPLOYEE_RATE = Ok v ->
  exists x, v = PInt x /\ x <= 1800.
Proof.
  intros Hpb H.
  destruct (Z_lt_ge_dec pb 0) as [Hneg|Hpos].
  - destruct (round_mul_negative_int _ _ _ _ Hneg H) as (r & -> & Hr).
    exists r. split; [reflexivity | lia].
  - unfold PF_EMPLOYEE_RATE in H.
    destruct (round_mul_int_float _ _ _ H) as (x & Hx & Hr).
    destruct (int_to_float_nonneg pb x ltac:(lia) Hx) as (Hv & Hn & Hq & _).
    specialize (Hq ltac:(change (2 ^ 53) with 9007199254740992; lia)).
    assert (is_nonneg x) as Hnn.
    { apply nonneg_of_quanta; try assumption. rewrite Hq.
      pose proof (pow2_pos 1074 ltac:(lia)). nia. }
    assert (-1074 <= -56) as Hec by lia.
    destruct (round_mul_upper x _ _ v Hv Hnn Hec Hr) as (n & -> & Hn0 & Hup).
    exists n. split; [reflexivity|].
    rewrite Hq in Hup. cbn [quanta cond_Zopp] in Hup.
    change (-56 + 1074) with 1018 in Hup.
    assert (2 ^ 1074 = 72057594037927936 * 2 ^ 1018) as HU by reflexivity.
    assert (9007199254740992 <= 2 ^ 1018) as HW
      by (change 9007199254740992 with (2 ^ 53); apply pow2_le; lia).
    change (2 ^ 52) with 4503599627370496 in Hup.
    set (W := 2 ^ 1018) in *. set (U := 2 ^ 1074) in *. clearbody W U.
    assert (0 < W) by lia. assert (0 < U) by lia.
    assert (2 * n * (U * 4503599627370496)
            <= 2 * (4503599627370497 * (pb * (8646911284551352 * W)))
               + 2 * 4503599627370496 + U * 4503599627370496) as Hcan.
    { apply (Z.mul_le_mono_pos_r _ _ U); [lia|]. lia. }
    rewrite HU in Hcan.
    assert (forall A B, A = n * W -> B = pb * W -> A <= 1800 * W) as Hlin.
    { intros A B HA HB.
      assert (B <= 15000 * W) by nia.
      assert (2 * A * (72057594037927936 * 4503599627370496)
              <= 2 * (4503599627370497 * (8646911284551352 * B))
                 + 2 * 4503599627370496 + 72057594037927936 * 4503599627370496 * W)
        as Hlinr by (subst A B; nia).
      assert (1801 * W <= A \/ A <= 1800 * W) as [Hbig|]
        by (subst A; destruct (Z_le_gt_dec n 1800); [right|left]; nia);
        [lia | assumption]. }
    specialize (Hlin _ _ eq_refl eq_refl). nia.
Qed.

(** With PF enabled the employee's and the employer's contribution are the
    same amount, [round(pf_basic * 0.12)]: the two employer rates add up to
    the float 0.12, and the cap of 1,800 never cuts because [pf_basic] is at
    most 15,000.  From a basic of 15,000 on both are exactly 1,800. *)
Theorem pf_contributions_coincide a bp hp pf pt st o :
  calculate_salary a bp hp pf pt st = Ok o ->
  employee_pf o = employer_pf o /\
  py_le (employer_pf o) (PInt 1800) = true /\
  (pf = true -> py_ge (basic o) PF_BASIC_CAP = true ->
   employer_pf o = PInt 1800 /\ employee_pf o = PInt 1800).
Proof.
  intros H. destruct (calculate_salary_inv _ _ _ _ _ _ _ H) as (l & Hl & ->).
  cbn [employee_pf employer_pf basic return_dict].
  pose proof (calculate_locals_shape _ _ _ _ _ _ _ Hl) as
    (m & sr & s1 & b & h & epf & eesi & ppf & pesi & ptx &
     _ & _ & Eb & _ & Epb & Eepf & _ & _ & _ & _ & _ & _ & Eppf & _).
  pose proof (calculate_locals_inv _ _ _ _ _ _ _ Hl) as
    (_ & _ & _ & _ & Hepf & _ & _ & _ & _ & _ & _ & _ & _ & Hppf & _).
  rewrite Eb, Epb, Eepf, Eppf in *.
  destruct pf.
  - destruct Hepf as (rate & Hrate & Hepf). destruct Hppf as (x & Hx & Ex).
    rewrite employer_rate_is_employee_rate in Hrate. injection Hrate as <-.
    rewrite Hepf in Hx. injection Hx as <-.
    destruct (pf_of_capped_basic _ _ ltac:(apply Z.le_min_r) Hepf) as (n & En & Hn).
    injection En as <-.
    unfold PF_MAX_EMPLOYEE in Ex. rewrite py_min_ints in Ex. injection Ex as ->.
    rewrite Z.min_l by lia.
    split; [reflexivity|]. split; [rewrite py_le_ints; apply Z.leb_le; lia|].
    intros _ Hcap. unfold py_ge, PF_BASIC_CAP in Hcap. rewrite py_le_ints in Hcap.
    apply Z.leb_le in Hcap. rewrite Z.min_r in Hepf by lia.
    assert (round_mul (PInt 15000) PF_EMPLOYEE_RATE = Ok (PInt 1800)) as E
      by (vm_compute; reflexivity).
    rewrite E in Hepf. injection Hepf as <-. split; reflexivity.
  - injection Hepf as ->. injection Hppf as ->.
    split; [reflexivity|]. split; [reflexivity|]. discriminate.
Qed.

Lemma pf_contributions_coincide_witness :
  exists o,
    calculate_salary (PInt 600000) (PInt 40) (PInt 50) true true "Karnataka" = Ok o /\
    employee_pf o = employer_pf o /\
    py_le (employer_pf o) (PInt 1800) = true /\
    employer_pf o = PInt 1800 /\ employee_pf o = PInt 1800.
Proof.
  eexists. split; [vm_compute; reflexivity|].
  destruct (pf_contributions_coincide
              (PInt 600000) (PInt 40) (PInt 50) true true "Karnataka" _
              ltac:(vm_compute; reflexivity)) as (H1 & H2 & H3).
  split; [exact H1|]. split; [exact H2|]. apply H3; reflexivity.
Defined.

(** ** What the PT switch and the state can change *)

(** The PT switch and the state reach nothing but the professional tax,
    the total deductions and the net salary: every other field of the
    output is the same for two calls that differ in them only. *)
Theorem pt_switch_and_state_frame a bp hp pf pt st pt' st' o o' :
  calculate_salary a bp hp pf pt st = Ok o ->
  calculate_salary a bp hp pf pt' st' = Ok o' ->
  monthly_ctc o' = monthly_ctc o /\ basic o' = basic o /\ hra o' = hra o /\
  special_allowance o' = special_allowance o /\
  gross_salary o' = gross_salary o /\
  employer_pf o' = employer_pf o /\ employer_esi o' = employer_esi o /\
  employee_pf o' = employee_pf o /\ employee_esi o' = employee_esi o /\
  tds o' = tds o.
Proof.
  intros H H'.
  destruct (calculate_salary_inv _ _ _ _ _ _ _ H) as (l & Hl & ->).
  destruct (calculate_salary_inv _ _ _ _ _ _ _ H') as (l' & Hl' & ->).
  cbn [monthly_ctc basic hra special_allowance gross_salary employer_pf employer_esi
       employee_pf employee_esi tds return_dict].
  apply calculate_locals_inv in Hl, Hl'.
  destruct Hl as (Hm & (bf & Hbf & Hb) & (hf & Hhf & Hh) & Hpb & Hepf & Hpg & Hea &
                  Hs1 & Hg1 & Heesi & (r & Hr & Hraw) & Hs & Hg & Hppf & Hpesi &
                  _ & Htds & _).
  destruct Hl' as (Hm' & (bf' & Hbf' & Hb') & (hf' & Hhf' & Hh') & Hpb' & Hepf' & Hpg' &
                   Hea' & Hs1' & Hg1' & Heesi' & (r' & Hr' & Hraw') & Hs' & Hg' &
                   Hppf' & Hpesi' & _ & Htds' & _).
  assert (l_monthly_ctc l' = l_monthly_ctc l) as Em by congruence.
  assert (bf' = bf) as -> by congruence.
  assert (hf' = hf) as -> by congruence.
  assert (l_basic l' = l_basic l) as Eb by congruence.
  assert (l_hra l' = l_hra l) as Eh by congruence.
  assert (l_pf_basic l' = l_pf_basic l) as Epb by congruence.
  assert (l_employer_pf l' = l_employer_pf l) as Eepf.
  { destruct pf; [|congruence].
    destruct Hepf as (rate & Hrate & Hepf). destruct Hepf' as (rate' & Hrate' & Hepf').
    congruence. }
  assert (l_preliminary_gross l' = l_preliminary_gross l) as Epg by congruence.
  assert (l_esi_applicable l' = l_esi_applicable l) as Eea by congruence.
  assert (l_special_allowance_pass1 l' = l_special_allowance_pass1 l) as Es1 by congruence.
  assert (l_gross_salary_pass1 l' = l_gross_salary_pass1 l) as Eg1 by congruence.
  assert (l_employer_esi l' = l_employer_esi l) as Eeesi.
  { rewrite Eea in Heesi'. destruct (l_esi_applicable l); congruence. }
  assert (r' = r) as -> by congruence.
  assert (l_special_allowance_raw l' = l_special_allowance_raw l) as Eraw by congruence.
  assert (l_special_allowance l' = l_special_allowance l) as Es
    by (rewrite Hs, Hs', Eraw; reflexivity).
  assert (l_gross_salary l' = l_gross_salary l) as Eg by congruence.
  assert (l_employee_pf l' = l_employee_pf l) as Eppf.
  { destruct pf; [|congruence].
    destruct Hppf as (x & Hx & Ex). destruct Hppf' as (x' & Hx' & Ex').
    congruence. }
  assert (l_employee_esi l' = l_employee_esi l) as Epesi.
  { rewrite Eea in Hpesi'. destruct (l_esi_applicable l); congruence. }
  repeat split; congruence.
Qed.

Lemma pt_switch_and_state_frame_witness :
  exists o o',
    calculate_salary (PInt 300000) (PInt 40) (PInt 50) true true "Karnataka" = Ok o /\
    calculate_salary (PInt 300000) (PInt 40) (PInt 50) true false "Tamil Nadu" = Ok o' /\
    gross_salary o' = gross_salary o /\ employee_esi o' = employee_esi o /\
    professional_tax o = PInt 200 /\ professional_tax o' = PInt 0.
Proof.
  eexists. eexists. split; [vm_compute; reflexivity|].
  split; [vm_compute; reflexivity|].
  destruct (pt_switch_and_state_frame
              (PInt 300000) (PInt 40) (PInt 50) true true "Karnataka" false "Tamil Nadu"
              _ _ ltac:(vm_compute; reflexivity) ltac:(vm_compute; reflexivity))
    as (_ & _ & _ & _ & Hg & _ & _ & _ & He & _).
  split; [exact Hg|]. split; [exact He|]. split; reflexivity.
Defined.

(** ** Professional tax *)

(** In Gujarat and Delhi the PT switch has no effect: the call returns what
    it returns with the switch off, the professional tax is 0 and the total
    deductions are employee PF + employee ESI. *)
Theorem no_professional_tax_in_gujarat_and_delhi a bp hp pf pt st :
  st = "Gujarat"%string \/ st = "Delhi"%string ->
  calculate_salary a bp hp pf pt st = calculate_salary a bp hp pf false st /\
  (forall o, calculate_salary a bp hp pf pt st = Ok o ->
             professional_tax o = PInt 0 /\
             deductions_of (employee_pf o) (employee_esi o) (PInt 0) (PInt 0)
             = Ok (total_deductions o)).
Proof.
  intros Hst.
  assert (calculate_salary a bp hp pf pt st = calculate_salary a bp hp pf false st) as E
    by (destruct pt; [destruct Hst as [-> | ->]; reflexivity | reflexivity]).
  split; [exact E|]. intros o H. rewrite E in H.
  destruct (calculate_salary_inv _ _ _ _ _ _ _ H) as (l & Hl & ->).
  cbn [professional_tax employee_pf employee_esi total_deductions return_dict].
  pose proof (calculate_locals_inv _ _ _ _ _ _ _ Hl) as
    (_ & _ & _ & _ & _ & _ & _ & _ & _ & _ & _ & _ & _ & _ & _ & Hpt & Htds & Hd & _).
  rewrite Hpt, Htds in Hd. split; assumption.
Qed.

Lemma no_professional_tax_in_gujarat_and_delhi_witness :
  calculate_salary (PInt 600000) (PInt 40) (PInt 50) true true "Delhi" =
  calculate_salary (PInt 600000) (PInt 40) (PInt 50) true false "Delhi".
Proof.
  exact (proj1 (no_professional_tax_in_gujarat_and_delhi
                  (PInt 600000) (PInt 40) (PInt 50) true true "Delhi"
                  (or_intror eq_refl))).
Defined.

(** ** The slabs of the professional tax *)

(** Python's comparisons of ints and floats compare the exact values. *)
Lemma py_compare_amount a b :
  regular a -> regular b -> py_compare a b = Some (amount a ?= amount b).
Proof.
  pose proof (pow2_pos 1074 ltac:(lia)) as HU.
  destruct a as [x|x], b as [y|y]; cbn [regular amount py_compare].
  - intros _ _. f_equal. symmetry. apply mul_compare_r. assumption.
  - intros _ [Hv Hn]. apply compare_Z_quanta; assumption.
  - intros [Hv Hn] _. rewrite (compare_Z_quanta y x Hv Hn). cbn [option_map].
    f_equal. symmetry. apply Z.compare_antisym.
  - intros [Hv Hn] [Hv' Hn']. apply SFcompare_quanta; assumption.
Qed.

Lemma py_gt_amount a k :
  regular a -> py_gt a (PInt k) = (k * 2 ^ 1074 <? amount a).
Proof.
  intros Ha. unfold py_gt, py_lt. rewrite (py_compare_amount (PInt k) a I Ha).
  cbn [amount]. rewrite Z.ltb_compare. destruct (_ ?= _); reflexivity.
Qed.

Lemma py_le_amount a b :
  regular a -> regular b -> py_le a b = (amount a <=? amount b).
Proof.
  intros Ha Hb. unfold py_le. rewrite (py_compare_amount a b Ha Hb).
  rewrite Z.leb_compare. destruct (_ ?= _); reflexivity.
Qed.

Lemma py_gt_mono s1 s2 k :
  regular s1 -> regular s2 -> py_le s1 s2 = true ->
  py_gt s1 (PInt k) = true -> py_gt s2 (PInt k) = true.
Proof.
  intros H1 H2 Hle. rewrite py_le_amount in Hle by assumption.
  rewrite !py_gt_amount by assumption. apply Z.leb_le in Hle.
  intros H. apply Z.ltb_lt in H. apply Z.ltb_lt. lia.
Qed.

Ltac slab_cases s1 s2 H1 H2 Hle :=
  repeat match goal with
         | |- context [py_gt s1 (PInt ?k)] =>
           let E := fresh "E" in
           destruct (py_gt s1 (PInt k)) eqn:E;
           [pose proof (py_gt_mono s1 s2 k H1 H2 Hle E) | ]
         end;
  repeat match goal with
         | H : py_gt s2 (PInt ?k) = true |- _ => rewrite H; clear H
         end;
  repeat match goal with
         | |- context [py_gt s2 (PInt ?k)] => destruct (py_gt s2 (PInt k))
         end;
  reflexivity.

(** Every slab function of [PT_RATES], the default of an unknown state
    included, is monotone: a salary that is not lower never has a lower
    tax, for ints and floats alike. *)
Theorem slabs_are_monotone st s1 s2 :
  regular s1 -> regular s2 -> py_le s1 s2 = true ->
  py_le (dict_get PT_RATES st pt_karnataka s1)
        (dict_get PT_RATES st pt_karnataka s2) = true.
Proof.
  intros H1 H2 Hle.
  destruct (pt_lookup_cases st) as [-> | [-> | [-> | ->]]].
  - unfold pt_karnataka. slab_cases s1 s2 H1 H2 Hle.
  - unfold pt_maharashtra. slab_cases s1 s2 H1 H2 Hle.
  - unfold pt_tamil_nadu. slab_cases s1 s2 H1 H2 Hle.
  - reflexivity.
Qed.

Lemma slabs_are_monotone_witness :
  py_le (dict_get PT_RATES "Tamil Nadu" pt_karnataka (PInt 13000))
        (dict_get PT_RATES "Tamil Nadu" pt_karnataka (PFloat (B64.of_Z 15001))) = true.
Proof.
  apply (slabs_are_monotone "Tamil Nadu" (PInt 13000) (PFloat (B64.of_Z 15001))).
  - exact I.
  - split; [reflexivity | exact I].
  - reflexivity.
Defined.

(** The tax of every jurisdiction is one of six amounts, and there is none
    on a salary that is not above 7,500. *)
Lemma pt_lookup_values st g :
  exists n, dict_get PT_RATES st pt_karnataka g = PInt n /\
            In n [0; 115; 175; 180; 200; 208] /\
            (py_gt g (PInt 7500) = false -> n = 0).
Proof.
  destruct (pt_lookup_bound st g) as (n & En & Hn & Hpos).
  exists n. split; [exact En|]. split.
  - destruct (pt_lookup_cases st) as [E | [E | [E | E]]]; rewrite E in En;
      [unfold pt_karnataka in En | unfold pt_maharashtra in En
       | unfold pt_tamil_nadu in En | unfold pt_none in En];
      repeat match type of En with
             | context [if ?c then _ else _] => destruct c
             end;
      injection En as <-; cbn; tauto.
  - intros Hg. destruct (Z.eq_dec n 0) as [|Hn0]; [assumption|].
    rewrite Hpos in Hg by lia. discriminate.
Qed.

(** The professional tax of an output is one of 0, 115, 175, 180, 200 and
    208, and it is 0 whenever the gross salary is not above 7,500, in every
    state. *)
Theorem professional_tax_amounts a bp hp pf pt st o :
  calculate_salary a bp hp pf pt st = Ok o ->
  exists n, professional_tax o = PInt n /\
            In n [0; 115; 175; 180; 200; 208] /\
            (py_gt (gross_salary o) (PInt 7500) = false -> n = 0).
Proof.
  intros H. destruct (calculate_salary_inv _ _ _ _ _ _ _ H) as (l & Hl & ->).
  cbn [professional_tax gross_salary return_dict].
  pose proof (calculate_locals_inv _ _ _ _ _ _ _ Hl) as
    (_ & _ & _ & _ & _ & _ & _ & _ & _ & _ & _ & _ & _ & _ & _ & Hpt & _).
  rewrite Hpt. destruct pt.
  - apply pt_lookup_values.
  - exists 0. split; [reflexivity|]. split; [cbn; tauto | reflexivity].
Qed.

Lemma professional_tax_amounts_witness :
  exists o,
    calculate_salary (PInt 96000) (PInt 40) (PInt 50) true true "Maharashtra" = Ok o /\
    exists n, professional_tax o = PInt n /\
              In n [0; 115; 175; 180; 200; 208] /\
              (py_gt (gross_salary o) (PInt 7500) = false -> n = 0).
Proof.
  eexists. split; [vm_compute; reflexivity|].
  apply (professional_tax_amounts (PInt 96000) (PInt 40) (PInt 50) true true
           "Maharashtra").
  vm_compute. reflexivity.
Defined.

(** ** A CTC of zero *)

Lemma py_eq_zero_cases a :
  py_eq a (PInt 0) = true -> a = PInt 0 \/ is_float_zero a.
Proof.
  unfold py_eq, py_compare. destruct a as [n|x].
  - destruct (Z.compare_spec n 0); try discriminate. subst. auto.
  - destruct x as [s|s| |s m e]; cbn [B64.compare_Z option_map].
    + intros _. right. exists s. reflexivity.
    + destruct s; discriminate.
    + discriminate.
    + destruct (Z.leb_spec 0 e).
      * pose proof (pow2_pos e ltac:(lia)).
        destruct (Z.compare_spec 0 (cond_Zopp s (Z.pos m) * 2 ^ e)); try discriminate.
        destruct s; cbn [cond_Zopp] in *; nia.
      * destruct s; cbn; discriminate.
Qed.

Lemma round_mul_zero_l s y v :
  round_mul (PFloat (S754_zero s)) (PFloat y) = Ok v -> v = PInt 0.
Proof.
  unfold round_mul. cbn [py_mul as_float bind].
  destruct y as [sy|sy| |sy m e]; cbn; intros H; try discriminate;
    injection H as <-; reflexivity.
Qed.

Lemma round_mul_int_zero y v :
  round_mul (PInt 0) (PFloat y) = Ok v -> v = PInt 0.
Proof. apply (round_mul_zero_l false). Qed.

(** Evaluates the closed left-hand side of an equation [e = Ok v]. *)
Ltac evaluate_lhs H :=
  match type of H with
  | ?lhs = _ => let v := eval vm_compute in lhs in change lhs with v in H
  end.

(** A CTC of zero, int or float, is not rejected: whenever the call
    returns, every int amount of the output is 0 and the monthly CTC, the
    special allowance, the gross and the net salary are float zeros. *)
Theorem zero_ctc_gives_zeros a bp hp pf pt st o :
  py_eq a (PInt 0) = true ->
  calculate_salary a bp hp pf pt st = Ok o ->
  basic o = PInt 0 /\ hra o = PInt 0 /\
  employer_pf o = PInt 0 /\ employer_esi o = PInt 0 /\
  employee_pf o = PInt 0 /\ employee_esi o = PInt 0 /\
  professional_tax o = PInt 0 /\ total_deductions o = PInt 0 /\
  is_float_zero (monthly_ctc o) /\ is_float_zero (special_allowance o) /\
  is_float_zero (gross_salary o) /\ is_float_zero (net_salary o).
Proof.
  intros Ha H. destruct (calculate_salary_inv _ _ _ _ _ _ _ H) as (l & Hl & ->).
  cbn [monthly_ctc basic hra special_allowance gross_salary employer_pf employer_esi
       employee_pf employee_esi professional_tax total_deductions net_salary
       return_dict].
  apply calculate_locals_inv in Hl.
  destruct Hl as (Hm & (bf & Hbf & Hb) & (hf & Hhf & Hh) & Hpb & Hepf & Hpg & Hea &
                  Hs1 & Hg1 & Heesi & (r & Hr & Hraw) & Hs & Hg & Hppf & Hpesi &
                  Hpt & Htds & Hd & Hn).
  assert (is_float_zero (l_monthly_ctc l)) as (sm & Em).
  { destruct (py_eq_zero_cases a Ha) as [-> | (s & ->)].
    - evaluate_lhs Hm. injection Hm as <-. eexists; reflexivity.
    - destruct s; evaluate_lhs Hm; injection Hm as <-; eexists; reflexivity. }
  destruct (py_truediv_float _ _ _ Hbf) as (y1 & ->).
  destruct (py_truediv_float _ _ _ Hhf) as (y2 & ->).
  rewrite Em in *.
  apply round_mul_zero_l in Hb. rewrite Hb in *.
  apply round_mul_int_zero in Hh. rewrite Hh in *.
  assert (l_pf_basic l = PInt 0) as Epb by (rewrite Hpb; reflexivity).
  rewrite Epb in *.
  assert (l_employer_pf l = PInt 0) as Eepf.
  { destruct pf; [|assumption]. destruct Hepf as (rate & Hrate & Hepf).
    rewrite employer_rate_is_employee_rate in Hrate. injection Hrate as <-.
    apply round_mul_int_zero in Hepf. assumption. }
  rewrite Eepf in *.
  cbn [py_add] in Hpg. injection Hpg as Hpg. rewrite <- Hpg in Hea.
  change (py_le (PInt (0 + 0)) ESI_GROSS_LIMIT) with true in Hea. rewrite Hea in *.
  assert (exists s1, l_special_allowance_pass1 l = PFloat (S754_zero s1) /\
                     r = PFloat (S754_zero s1)) as (s1 & Es1 & ->).
  { rewrite Hs1 in Hr. injection Hr as <-.
    destruct sm; evaluate_lhs Hs1; injection Hs1 as <-; eexists; split; reflexivity. }
  rewrite Es1 in *.
  assert (exists g1, l_gross_salary_pass1 l = PFloat (S754_zero g1)) as (g1 & Eg1)
    by (destruct s1; evaluate_lhs Hg1; injection Hg1 as <-; eexists; reflexivity).
  rewrite Eg1 in *.
  apply round_mul_zero_l in Heesi. rewrite Heesi in *.
  assert (exists sr, l_special_allowance_raw l = PFloat (S754_zero sr)) as (sr & Eraw)
    by (destruct s1; evaluate_lhs Hraw; injection Hraw as <-; eexists; reflexivity).
  rewrite Eraw in *.
  change (py_lt (PFloat (S754_zero sr)) (PInt 0)) with false in Hs. cbv iota in Hs.
  rewrite Hs in *.
  assert (exists sg, l_gross_salary l = PFloat (S754_zero sg)) as (sg & Eg)
    by (destruct sr; evaluate_lhs Hg; injection Hg as <-; eexists; reflexivity).
  rewrite Eg in *.
  assert (l_employee_pf l = PInt 0) as Eppf.
  { destruct pf; [|assumption]. destruct Hppf as (x & Hx & Ex).
    apply round_mul_int_zero in Hx. subst x. rewrite Ex. reflexivity. }
  rewrite Eppf in *.
  apply round_mul_zero_l in Hpesi. rewrite Hpesi in *.
  assert (l_professional_tax l = PInt 0) as Ept.
  { rewrite Hpt. destruct pt; [|reflexivity].
    destruct (pt_lookup_values st (PFloat (S754_zero sg))) as (n & -> & _ & Hz).
    rewrite Hz; reflexivity. }
  rewrite Ept, Htds in *.
  cbn [deductions_of py_add bind] in Hd. injection Hd as Hd. rewrite <- Hd in *.
  assert (exists sn, l_net_salary l = PFloat (S754_zero sn)) as (sn & En)
    by (destruct sg; evaluate_lhs Hn; injection Hn as <-; eexists; reflexivity).
  repeat split; try reflexivity; try assumption; eexists; eassumption || reflexivity.
Qed.

Lemma zero_ctc_gives_zeros_witness :
  exists o,
    calculate_salary (PFloat (S754_zero true)) (PInt 40) (PInt 50) true true "Karnataka"
    = Ok o /\
    basic o = PInt 0 /\ total_deductions o = PInt 0 /\
    is_float_zero (gross_salary o) /\ is_float_zero (net_salary o).
Proof.
  eexists. split; [vm_compute; reflexivity|].
  destruct (zero_ctc_gives_zeros
              (PFloat (S754_zero true)) (PInt 40) (PInt 50) true true "Karnataka" _
              eq_refl ltac:(vm_compute; reflexivity))
    as (Hb & _ & _ & _ & _ & _ & _ & Ht & _ & _ & Hg & Hn).
  split; [exact Hb|]. split; [exact Ht|]. split; [exact Hg | exact Hn].
Defined.

(** ** Signs of the amounts *)

Lemma add_nonneg x y :
  valid x -> valid y -> is_number x -> is_nonneg x -> is_nonneg y ->
  y <> S754_nan -> is_nonneg (B64.add x y).
Proof.
  intros Hxv Hyv Hxn Hx0 Hy0 Hyn.
  destruct y as [s|[]| |[] my ey] eqn:Ey; cbn [is_nonneg] in Hy0;
    try contradiction; try congruence.
  - destruct (add_lower x (S754_zero s) Hxv Hyv Hxn I
                (quanta_nonneg x Hxv Hx0) ltac:(cbn; lia)) as [->|[Hn Hq]]; [exact I|].
    apply nonneg_of_quanta; [apply add_valid; assumption | assumption |].
    pose proof (quanta_nonneg x Hxv Hx0). cbn [quanta] in Hq. lia.
  - destruct x; try contradiction; exact I.
  - pose proof (quanta_nonneg x Hxv Hx0).
    pose proof (quanta_nonneg _ Hyv I) as Hq0.
    destruct (add_lower x (S754_finite false my ey) Hxv Hyv Hxn I ltac:(lia) Hq0)
      as [->|[Hn Hq]]; [exact I|].
    apply nonneg_of_quanta; [apply add_valid; assumption | assumption | lia].
Qed.

(** With a positive CTC and percentages that are not negative, basic, hra,
    the gross salary, both PF contributions, the employee's ESI, the
    professional tax and the total deductions are all at least 0. *)
Theorem amounts_are_not_negative a bp hp pf pt st o :
  calculate_salary a bp hp pf pt st = Ok o ->
  py_gt a (PInt 0) = true -> py_ge bp (PInt 0) = true -> py_ge hp (PInt 0) = true ->
  py_ge (basic o) (PInt 0) = true /\ py_ge (hra o) (PInt 0) = true /\
  py_ge (gross_salary o) (PInt 0) = true /\
  py_ge (employer_pf o) (PInt 0) = true /\
  py_ge (employee_pf o) (PInt 0) = true /\
  py_ge (employee_esi o) (PInt 0) = true /\
  py_ge (professional_tax o) (PInt 0) = true /\
  py_ge (total_deductions o) (PInt 0) = true.
Proof.
  intros H Ha Hbp Hhp. unfold py_ge, py_gt in *. apply py_lt_le in Ha.
  destruct (calculate_salary_inv _ _ _ _ _ _ _ H) as (l & Hl & ->).
  cbn [basic hra gross_salary employer_pf employee_pf employee_esi professional_tax
       total_deductions return_dict].
  pose proof (calculate_locals_shape _ _ _ _ _ _ _ Hl) as
    (m & sr & s1 & b & h & epf & eesi & ppf & pesi & ptx &
     Em & Hnum & Eb & Eh & Epb & Eepf & Epre & _ & _ & Eeesi & Esr & Hsrn &
     Eppf & Epesi & Eptx & Hptx & _ & Etot & _).
  pose proof (calculate_locals_inv _ _ _ _ _ _ _ Hl) as
    (Hdiv & (f1 & Hf1 & Hbasic) & (f2 & Hf2 & Hhra) & _ & Hepf & _ & Hesi & _ & _ & _ &
     (r & Hr & Hraw) & Hs & Hg & Hpf & Hpesi & _).
  rewrite Em, Eb, Eh, Epb, Eepf, Eeesi, Esr, Eppf, Epesi, Eptx, Etot in *.
  pose proof (py_truediv_valid _ _ _ Hdiv) as Hmv.
  destruct (py_truediv_nonneg a 12 _ ltac:(lia) Ha Hdiv) as (m' & Em' & Hm0).
  injection Em' as <-.
  destruct (py_truediv_nonneg bp 100 _ ltac:(lia) Hbp Hf1) as (y1 & -> & Hy1).
  destruct (round_mul_nonneg _ _ _ (is_nonneg_py_le m Hm0)
              (ex_intro _ y1 (conj eq_refl Hy1)) Hbasic) as (b' & Eb' & Hb).
  injection Eb' as <-.
  destruct (py_truediv_nonneg hp 100 _ ltac:(lia) Hhp Hf2) as (y2 & -> & Hy2).
  assert (py_le (PInt 0) (PInt b) = true) as Hbl
    by (rewrite py_le_ints; apply Z.leb_le; exact Hb).
  destruct (round_mul_nonneg _ _ _ Hbl
              (ex_intro _ y2 (conj eq_refl Hy2)) Hhra) as (h' & Eh' & Hh).
  injection Eh' as <-.
  assert (py_le (PInt 0) (PInt (Z.min b 15000)) = true) as Hpbl
    by (rewrite py_le_ints; apply Z.leb_le; lia).
  assert (exists y, PF_EMPLOYEE_RATE = PFloat y /\ is_nonneg y) as Rpf
    by (eexists; split; [reflexivity | exact I]).
  assert (exists y, ESI_EMPLOYEE_RATE = PFloat y /\ is_nonneg y) as Resi
    by (eexists; split; [reflexivity | exact I]).
  assert (0 <= epf) as Hepf0.
  { destruct pf; [|injection Hepf as ->; lia].
    destruct Hepf as (rate & Hrate & Hepf).
    rewrite employer_rate_is_employee_rate in Hrate. injection Hrate as <-.
    destruct (round_mul_nonneg _ _ _ Hpbl Rpf Hepf) as (n & En & Hn).
    injection En as <-. assumption. }
  assert (0 <= ppf) as Hppf0.
  { destruct pf; [|injection Hpf as ->; lia].
    destruct Hpf as (x & Hx & Ex).
    destruct (round_mul_nonneg _ _ _ Hpbl Rpf Hx) as (n & -> & Hn).
    unfold PF_MAX_EMPLOYEE in Ex. rewrite py_min_ints in Ex. injection Ex as ->. lia. }
  assert (py_le (PInt 0) (l_gross_salary l) = true) as Hgross.
  { destruct (residual_valid _ _ _ _ _ Hmv Hr) as (yr & -> & Hyr).
    destruct (py_sub_float_int_valid _ _ _ Hyr Hraw) as (sr' & Esr' & Hsrv).
    injection Esr' as <-.
    unfold gross_of in Hg. cbn [py_add bind] in Hg.
    destruct (py_lt (PFloat sr) (PInt 0)) eqn:Hfloor; rewrite Hs in Hg.
    - cbn [py_add] in Hg. injection Hg as <-. rewrite py_le_ints. apply Z.leb_le. lia.
    - pose proof (not_lt_zero_nonneg sr Hsrn Hfloor) as Hsr0.
      cbn [py_add as_float bind] in Hg. inv_bind Hg. injection Hg as <-.
      destruct (int_to_float_nonneg (b + h) v ltac:(lia) E) as (Hyv & Hyn & _).
      apply is_nonneg_py_le. apply add_nonneg; try assumption.
      eapply int_to_float_is_nonneg; [|eassumption]. lia. }
  assert (0 <= pesi) as Hpesi0.
  { destruct (l_esi_applicable l); [|injection Hpesi as ->; lia].
    destruct (round_mul_nonneg _ _ _ Hgross Resi Hpesi) as (n & En & Hn).
    injection En as <-. assumption. }
  rewrite !py_le_ints. repeat split; try assumption; apply Z.leb_le; lia.
Qed.

Lemma amounts_are_not_negative_witness :
  exists o,
    calculate_salary (PInt 300000) (PInt 40) (PInt 50) true true "Karnataka" = Ok o /\
    py_ge (gross_salary o) (PInt 0) = true /\
    py_ge (total_deductions o) (PInt 0) = true.
Proof.
  eexists. split; [vm_compute; reflexivity|].
  destruct (amounts_are_not_negative
              (PInt 300000) (PInt 40) (PInt 50) true true "Karnataka" _
              ltac:(vm_compute; reflexivity) eq_refl eq_refl eq_refl)
    as (_ & _ & Hg & _ & _ & _ & _ & Ht).
  split; [exact Hg | exact Ht].
Defined.

(** The employer's ESI is the one amount that can be negative on such
    inputs: with a basic of 15 times the monthly CTC the pass-1 gross is
    below zero. *)
Example employer_esi_can_be_negative :
  exists o,
    calculate_salary (PInt 1200) (PInt 1500) (PInt 50) true true "Karnataka" = Ok o /\
    employer_esi o = PInt (-3).
Proof. eexists. split; vm_compute; reflexivity. Qed.

(** ** The runner *)

Lemma append_if_nil c msg errors :
  append_if c msg errors = [] <-> c = false /\ errors = [].
Proof.
  unfold append_if. destruct c.
  - split; [intros H; destruct errors; discriminate | intros [H _]; discriminate].
  - split; [auto | intros [_ H]; exact H].
Qed.

Lemma append_if_false msg errors : append_if false msg errors = errors.
Proof. reflexivity. Qed.

Lemma in_append_if c msg errors m :
  In m (append_if c msg errors) -> In m errors \/ (c = true /\ m = msg).
Proof.
  unfold append_if. destruct c; [|auto].
  intros H. apply in_app_or in H. destruct H as [H|[H|[]]]; auto.
Qed.

(** The balance checks of a returned dict succeed. *)
Lemma invariant_checks_pass a bp hp pf pt st o :
  calculate_salary a bp hp pf pt st = Ok o ->
  (exists s, gross_of (basic o) (hra o) (special_allowance o) = Ok s /\
             py_ne (gross_salary o) s = false) /\
  (exists d, py_sub (gross_salary o) (total_deductions o) = Ok d /\
             py_ne (net_salary o) d = false).
Proof.
  intros H. apply calculate_salary_inv in H. destruct H as (l & Hl & ->).
  pose proof (calculate_locals_shape _ _ _ _ _ _ _ Hl) as
    (m & sr & s1 & b & h & epf & eesi & ppf & pesi & ptx & _ & _ & _ & _ & _ & _ &
     _ & _ & _ & _ & _ & _ & _ & _ & _ & _ & _ & _ & _ & _ & Hgn & Hnn).
  apply calculate_locals_inv in Hl.
  destruct Hl as (_ & _ & _ & _ & _ & _ & _ & _ & _ & _ & _ & _ & Hg & _ & _ &
                  _ & _ & _ & Hn).
  cbn [basic hra special_allowance gross_salary total_deductions net_salary return_dict].
  unfold py_ne. split; eexists; (split; [eassumption|]);
    rewrite py_eq_refl by assumption; reflexivity.
Qed.

Lemma py_le_not_lt k v : py_le (PInt k) v = true -> py_lt v (PInt k) = false.
Proof.
  unfold py_le, py_lt. destruct v as [n|x]; cbn [py_compare].
  - rewrite (Z.compare_antisym k n). destruct (k ?= n); cbn; congruence.
  - destruct (B64.compare_Z k x) as [[]|]; cbn; congruence.
Qed.

(** The verdict of the runner on a test case.  The two balance checks of
    [main] never add an error; for a positive CTC the check on a negative
    net salary never does either, so the case passes exactly when the five
    expected values match the output. *)
Theorem check_case_verdict tc errors :
  check_case tc = Ok errors ->
  ~ In GrossInvariant errors /\ ~ In NetInvariant errors /\
  (py_gt (tc_annual_ctc tc) (PInt 0) = true ->
   ~ In NegativeNetInvariant errors /\
   (errors = [] <->
    exists r, calculate_salary_default (tc_annual_ctc tc) = Ok r /\
              meets (tc_expect tc) r)).
Proof.
  unfold check_case. intros H. inv_bind H. rename v into r, E into Hr.
  destruct (invariant_checks_pass _ _ _ _ _ _ _ Hr) as ((s & Es & Hs) & (d & Ed & Hd)).
  rewrite Es in H. cbn [bind] in H. rewrite Ed in H. cbn [bind] in H.
  rewrite Hs, Hd, !append_if_false in H. injection H as <-.
  set (e5 := append_if _ _ (append_if _ _ (append_if _ _ (append_if _ _
               (append_if _ _ []))))).
  assert (forall m, In m e5 ->
            m <> GrossInvariant /\ m <> NetInvariant /\ m <> NegativeNetInvariant)
    as He5.
  { intros m Hm. unfold e5 in Hm.
    repeat (apply in_append_if in Hm; destruct Hm as [Hm|[_ ->]];
            [|repeat split; discriminate]).
    destruct Hm. }
  split.
  { intros Hin. apply in_append_if in Hin.
    destruct Hin as [Hin|[_ Hin]]; [apply He5 in Hin; tauto | discriminate]. }
  split.
  { intros Hin. apply in_append_if in Hin.
    destruct Hin as [Hin|[_ Hin]]; [apply He5 in Hin; tauto | discriminate]. }
  intros Hpos.
  assert (py_lt (net_salary r) (PInt 0) = false) as Hnet.
  { apply py_le_not_lt. unfold calculate_salary_default in Hr.
    destruct (calculate_salary_inv _ _ _ _ _ _ _ Hr) as (l & Hl & ->).
    cbn [net_salary return_dict].
    apply (net_salary_nonneg _ _ _ _ _ _ _ Hl); [|reflexivity|reflexivity].
    apply py_lt_le. exact Hpos. }
  rewrite Hnet, append_if_false.
  split; [intros Hin; apply He5 in Hin; tauto|].
  unfold e5, meets, py_ne. rewrite !append_if_nil, !negb_false_iff.
  split.
  - intros (H5 & H4 & H3 & H2 & H1 & _). exists r. split; [exact Hr|].
    apply eqb_prop in H5. tauto.
  - intros (r' & Hr' & H1 & H2 & H3 & H4 & H5).
    assert (r' = r) as -> by congruence.
    rewrite H5, eqb_reflx. tauto.
Qed.

Lemma check_case_verdict_witness :
  exists errors,
    check_case {| tc_label := "none";
                  tc_annual_ctc := PInt 600000;
                  tc_expect := {| x_basic := PInt 20000; x_hra := PInt 10000;
                                  x_employee_pf := PInt 1800; x_esi_applies := true;
                                  x_professional_tax := PInt 200 |} |} = Ok errors /\
    errors = [EsiMismatch false true] /\
    ~ In GrossInvariant errors /\ ~ In NetInvariant errors /\
    ~ In NegativeNetInvariant errors.
Proof.
  eexists. split; [vm_compute; reflexivity|]. split; [reflexivity|].
  destruct (check_case_verdict _ _
              (eq_refl : check_case {| tc_label := "none";
                  tc_annual_ctc := PInt 600000;
                  tc_expect := {| x_basic := PInt 20000; x_hra := PInt 10000;
                                  x_employee_pf := PInt 1800; x_esi_applies := true;
                                  x_professional_tax := PInt 200 |} |}
                         = Ok [EsiMismatch false true]))
    as (Hg & Hn & Hp).
  split; [exact Hg|]. split; [exact Hn|]. apply Hp. reflexivity.
Defined.

(** The loop counts every case once, and leaves [failed] alone exactly when
    no case has an error. *)
Theorem run_cases_counts cases passed failed passed' failed' :
  run_cases cases passed failed = Ok (passed', failed') ->
  passed' + failed' = passed + failed + Z.of_nat (List.length cases) /\
  passed <= passed' /\ failed <= failed' /\
  (failed' = failed <-> Forall (fun tc => check_case tc = Ok []) cases).
Proof.
  revert passed failed. induction cases as [|tc rest IH]; intros passed failed H.
  - cbn in H. injection H as <- <-. cbn [List.length Z.of_nat].
    split; [lia|]. split; [lia|]. split; [lia|]. split; [constructor | reflexivity].
  - cbn [run_cases] in H. inv_bind H. destruct v as [|m errs].
    + destruct (IH _ _ H) as (Hsum & Hp & Hf & Hiff).
      rewrite length_cons, Nat2Z.inj_succ.
      split; [lia|]. split; [lia|]. split; [lia|].
      rewrite Hiff. split.
      * intros Hall. constructor; assumption.
      * intros Hall. inversion Hall. assumption.
    + destruct (IH _ _ H) as (Hsum & Hp & Hf & Hiff).
      rewrite length_cons, Nat2Z.inj_succ.
      split; [lia|]. split; [lia|]. split; [lia|].
      split; [lia|]. intros Hall. inversion Hall as [|? ? Htc _]. congruence.
Qed.

Lemma run_cases_counts_witness :
  exists passed failed,
    run_cases (firstn 2 TEST_CASES) 0 0 = Ok (passed, failed) /\
    passed + failed = 2 /\ failed = 0.
Proof.
  exists 2, 0.
  assert (run_cases (firstn 2 TEST_CASES) 0 0 = Ok (2, 0)) as H
    by (vm_compute; reflexivity).
  split; [exact H|].
  destruct (run_cases_counts _ _ _ _ _ H) as (Hsum & _). split; [exact Hsum | reflexivity].
Defined.

(** The run of the validator: the four canonical cases pass and the exit
    status is 0. *)
Theorem main_exits_with_status_0 :
  run_cases TEST_CASES 0 0 = Ok (4, 0) /\ main = Ok 0.
Proof. split; vm_compute; reflexivity. Qed.

(** ** A whole CTC passed as a float *)

(** The float of a positive int below [2 ^ 53]: the int shifted to 53
    bits. *)
Lemma of_Z_normal p :
  Z.pos p < 2 ^ 53 ->
  exists mx i,
    B64.of_Z (Z.pos p) = S754_finite false mx (- i) /\
    0 <= i /\ i = 53 - Zdigits2 (Z.pos p) /\ Z.pos mx = Z.pos p * 2 ^ i.
Proof.
  intros Hp. destruct (of_Z_exact (Z.pos p) ltac:(lia)) as (Hv & Hn & Hq).
  pose proof (pow2_pos 1074 ltac:(lia)) as HU.
  pose proof (Zdigits2_pos (Z.pos p) ltac:(lia)) as Hd0.
  pose proof (Zdigits2_le (Z.pos p) 53 ltac:(lia) ltac:(lia) Hp) as Hd53.
  destruct (B64.of_Z (Z.pos p)) as [s|s| |s m e]; try contradiction.
  - cbn [quanta] in Hq. nia.
  - pose proof (valid_finite_bounds _ _ _ Hv) as (He & Hm53 & Hc).
    destruct s.
    { pose proof (quanta_sign_true m e ltac:(lia)). nia. }
    cbn [quanta cond_Zopp] in Hq.
    assert (e <= 0) as He0.
    { destruct (Z_le_gt_dec e 0); [assumption|exfalso].
      rewrite (pow2_split e 1074) in Hq by lia.
      assert (Z.pos m * 2 ^ e = Z.pos p) as Hx by nia.
      destruct Hc as [->|Hc]; [lia|].
      assert (2 <= 2 ^ e) by (change 2 with (2 ^ 1) at 1; apply pow2_le; lia).
      change (2 ^ 53) with (2 ^ 52 * 2) in Hp. nia. }
    assert (Z.pos m = Z.pos p * 2 ^ (- e)) as Hmp.
    { replace 1074 with (- e + (e + 1074)) in Hq at 2 by lia.
      rewrite (pow2_split (- e) (e + 1074)) in Hq by lia.
      pose proof (pow2_pos (e + 1074) ltac:(lia)). nia. }
    assert (Zdigits2 (Z.pos m) = Zdigits2 (Z.pos p) + - e) as Hdm
      by (rewrite Hmp; apply Zdigits2_mul_pow2; lia).
    assert (Zdigits2 (Z.pos m) = 53) as Hd.
    { destruct Hc as [->|Hc].
      - exfalso. rewrite Hmp in Hm53.
        assert (2 ^ 53 <= 2 ^ (- -1074)) by (apply pow2_le; lia). nia.
      - pose proof (Zdigits2_ge (Z.pos m) 53 ltac:(lia) Hc).
        pose proof (Zdigits2_le (Z.pos m) 53 ltac:(lia) ltac:(lia) Hm53). lia. }
    exists m, (- e). rewrite Z.opp_involutive.
    split; [reflexivity|]. split; [lia|]. split; [lia | exact Hmp].
Qed.

(** The division core sees the same quotient whether the dividend and the
    divisor 12 come as ints or as normalised mantissas. *)
Lemma div_core_of_floats p i :
  Z.pos p < 2 ^ 53 -> i = 53 - Zdigits2 (Z.pos p) ->
  SFdiv_core_binary B64.prec B64.emax (Z.pos p * 2 ^ i) (- i) (12 * 2 ^ 49) (- 49)
  = SFdiv_core_binary B64.prec B64.emax (Z.pos p) 0 12 0.
Proof.
  intros Hp Hi.
  pose proof (Zdigits2_pos (Z.pos p) ltac:(lia)) as Hd0.
  pose proof (Zdigits2_le (Z.pos p) 53 ltac:(lia) ltac:(lia) Hp) as Hd53.
  assert (0 <= i) as Hi0 by lia.
  unfold SFdiv_core_binary.
  rewrite (Zdigits2_mul_pow2 (Z.pos p) i) by lia.
  rewrite (Zdigits2_mul_pow2 12 49) by lia.
  change (Zdigits2 12) with 4. rewrite !fexp_eq.
  set (d := Zdigits2 (Z.pos p)) in *.
  replace (Z.min (Z.max (d + i + - i - (4 + 49 + - 49) - 53) (-1074)) (- i - - 49))
    with (d - 57) by lia.
  replace (Z.min (Z.max (d + 0 - (4 + 0) - 53) (-1074)) (0 - 0)) with (d - 57) by lia.
  replace (- i - - 49 - (d - 57)) with 53 by lia.
  replace (0 - 0 - (d - 57)) with (57 - d) by lia.
  destruct (57 - d) as [|s|s] eqn:Es; try lia.
  rewrite !Z.shiftl_mul_pow2 by lia.
  replace (Z.pos p * 2 ^ i * 2 ^ 53) with (Z.pos p * 2 ^ Z.pos s * 2 ^ 49).
  2:{ rewrite <- !Z.mul_assoc, <- !pow2_split by lia. do 2 f_equal. lia. }
  set (M := Z.pos p * 2 ^ Z.pos s).
  pose proof (pow2_pos 49 ltac:(lia)) as H49.
  assert (Z.div_eucl (M * 2 ^ 49) (12 * 2 ^ 49) = (M / 12, (M mod 12) * 2 ^ 49)) as Hde.
  { pose proof (Z.div_eucl_eq (M * 2 ^ 49) (12 * 2 ^ 49) ltac:(lia)) as Heq.
    pose proof (Z.div_mul_cancel_r M 12 (2 ^ 49) ltac:(lia) ltac:(lia)) as Hq.
    pose proof (Z.mul_mod_distr_r M 12 (2 ^ 49) ltac:(lia) ltac:(lia)) as Hr.
    unfold Z.div, Z.modulo in Hq, Hr |- *.
    destruct (Z.div_eucl (M * 2 ^ 49) (12 * 2 ^ 49)) as [q r].
    destruct (Z.div_eucl M 12) as [q' r']. congruence. }
  rewrite Hde.
  assert (Z.div_eucl M 12 = (M / 12, M mod 12)) as Hde'
    by (unfold Z.div, Z.modulo; destruct (Z.div_eucl M 12); reflexivity).
  rewrite Hde'. f_equal.
  pose proof (Z.mod_pos_bound M 12 ltac:(lia)) as Hr.
  set (r := M mod 12) in *. clearbody r.
  unfold new_location.
  replace (Z.even (12 * 2 ^ 49)) with true by reflexivity.
  replace (Z.even 12) with true by reflexivity.
  unfold new_location_even.
  destruct (Z.eqb_spec r 0) as [->|Hr0]; [reflexivity|].
  destruct (Z.eqb_spec (r * 2 ^ 49) 0) as [Hz|_]; [nia|].
  f_equal. replace (2 * (r * 2 ^ 49)) with (2 * r * 2 ^ 49) by ring.
  apply mul_compare_r. assumption.
Qed.

Lemma truediv_of_whole_float n :
  0 <= n < 2 ^ 53 ->
  py_truediv (PFloat (B64.of_Z n)) (PInt 12) = py_truediv (PInt n) (PInt 12).
Proof.
  intros Hn.
  destruct (py_truediv_small 53 n 12 ltac:(lia) ltac:(lia) ltac:(lia) ltac:(lia))
    as (x & Ex & _).
  rewrite Ex.
  assert (x = B64.of_quotient n 12) as ->.
  { cbn [py_truediv] in Ex. change (12 =? 0) with false in Ex. cbv iota in Ex.
    destruct (B64.of_quotient n 12); congruence. }
  cbn [py_truediv as_float bind].
  change (int_to_float 12) with (Ok (S754_finite false 6755399441055744 (-49))).
  cbn [bind B64.is_zero]. do 2 f_equal.
  destruct n as [|p|p]; try lia.
  - reflexivity.
  - destruct (of_Z_normal p ltac:(lia)) as (mx & i & -> & Hi0 & Hi & Hmx).
    unfold B64.div, SFdiv, B64.of_quotient. fold B64.prec B64.emax.
    change (Z.abs (Z.pos p)) with (Z.pos p). change (Z.abs 12) with 12.
    change (xorb (Z.pos p <? 0) (12 <? 0)) with false. cbn [xorb].
    rewrite Hmx. change (Z.pos 6755399441055744) with (12 * 2 ^ 49).
    rewrite (div_core_of_floats p i ltac:(lia) Hi). reflexivity.
Qed.

(** A whole CTC below 2^53 gives the same result, value for value or
    exception for exception, whether it is passed as an int or as the float
    of that int. *)
Theorem whole_float_ctc_agrees n bp hp pf pt st :
  0 <= n < 2 ^ 53 ->
  calculate_salary (PFloat (B64.of_Z n)) bp hp pf pt st
  = calculate_salary (PInt n) bp hp pf pt st.
Proof.
  intros Hn. unfold calculate_salary, calculate_locals.
  rewrite (truediv_of_whole_float n Hn). reflexivity.
Qed.

Lemma whole_float_ctc_agrees_witness :
  calculate_salary (PFloat (B64.of_Z 1000000)) (PInt 40) (PInt 50) true true "Delhi"
  = calculate_salary (PInt 1000000) (PInt 40) (PInt 50) true true "Delhi".
Proof.
  apply (whole_float_ctc_agrees 1000000). lia.
Defined.
